(** * SmartInstructionSender: the submission-retry engine

    A shallow embedding of [src/smartInstructionSender.ts] and of the helper
    [getSlotAndCurrentBlockHash] ([src/tools]), with the statements of the
    specification proved (or refuted) on it.

    Scope of the model.
    - The network client, the wallet and the submitter are collaborators.
      They are oracles that answer the n-th query of each kind; a run
      quantifies over every oracle, so over every sequence of answers.
      Every collaborator call and every observer call is written to a trace,
      in program order.
    - Collaborator calls complete with an answer: a promise of the client or
      of the wallet that rejects is outside the model, and so is an observer
      that throws.
    - [Transaction.add] of web3.js throws 'No instructions' when it is handed
      no instruction.  The first build never does so (line 118 filters the
      groups without operations); the rebuild of lines 92-100 walks the
      supplied list unfiltered and does.
    - A wallet may sign the transactions it is handed where they stand, or
      leave them alone and return signed copies.  Line 128 keeps the array
      the wallet returns, line 101 drops it: [walletSignsInPlace] says which
      kind of wallet a run has.
    - [async-retry] does not wait for the promise of [onRetry].  The next
      attempt starts after the back-off of the library and then sleeps 15 s
      before it reads [tx] and submits; [onRetryInTime] says whether a call
      of [onRetry] has settled by then.  A run in which it has not ends in
      [Overlaps]: what the two tasks do from there on, interleaved, is not
      described.  The sleep itself has no counterpart in the model.
    - A promise of [onRetry] that rejects is not handled by anybody; the run
      goes on, as it does in a browser. *)

From Stdlib Require Import String List ZArith Bool Lia Arith.
Import ListNotations.

Local Open Scope Z_scope.
Local Open Scope list_scope.

Set Implicit Arguments.

(** ** Data of web3.js, as far as the sender looks at it *)

Definition PublicKey := string.
Definition TransactionInstruction := string.
Definition Commitment := string.

(** A [Signer] is a key pair; it is known here by its public key. *)
Definition Signer := PublicKey.

(** [types.ts]: [interface InstructionSet]. *)
Record InstructionSet := mkInstructionSet {
  signers : list Signer;
  instructions : list TransactionInstruction
}.

(** The second component of what [getSlotAndCurrentBlockHash] resolves to. *)
Record BlockhashInfo := mkBlockhashInfo {
  blockhash : string;
  lastValidBlockHeight : Z
}.

(** A [Transaction]: fee payer, recency anchor, the instructions added so
    far and the keys that have signed it. *)
Record Transaction := mkTransaction {
  feePayer : option PublicKey;
  recentBlockhash : string;
  tx_instructions : list TransactionInstruction;
  signatures : list PublicKey
}.

(** ** Results of the submitter ([sendSignedTransaction]) *)

(** [result.err].  The sender reads its [type]; when the error is thrown,
    [async-retry] reads its [bail] and [message]. *)
Record SendError := mkSendError {
  err_type : string;
  err_message : option string;
  err_bail : bool
}.

(** [{ err?, slot }].  [tools/connectionTools] is not among the sources: the
    submitter is a parameter of the model (the oracle [sendAt] below), and
    its result has the two fields [send] reads. *)
Record SendResult := mkSendResult {
  err : option SendError;
  result_slot : Z
}.

(** What can be thrown, or handed to [bail]. *)
Inductive Thrown :=
| WalletNotConnectedError
| JsError (message : string)
| TxError (e : SendError).

(** [error?.type === 'timeout'] in [onRetry]. *)
Definition thrown_is_timeout (e : Thrown) : bool :=
  match e with
  | TxError se => String.eqb (err_type se) "timeout"%string
  | _ => false
  end.

(** [err.bail] in [async-retry]: an [Error] made by [new Error] has none. *)
Definition thrown_bail (e : Thrown) : bool :=
  match e with
  | TxError se => err_bail se
  | _ => false
  end.

(** [error.message] as [mainError] of [retry] uses it, a key of a plain
    object: a missing message is the key 'undefined'. *)
Definition message_key (e : Thrown) : string :=
  match e with
  | JsError m => m
  | TxError se =>
      match err_message se with
      | Some m => m
      | None => "undefined"%string
      end
  | WalletNotConnectedError => ""%string
  end.

(** [new Transaction({ feePayer, recentBlockhash })] *)
Definition newTransaction (payer : option PublicKey) (bh : string) : Transaction :=
  {| feePayer := payer; recentBlockhash := bh;
     tx_instructions := []; signatures := [] |}.

(** [tx.add(...instructions)]: throws when no instruction is handed over. *)
Definition add (t : Transaction) (ins : list TransactionInstruction)
  : Thrown + Transaction :=
  match ins with
  | [] => inl (JsError "No instructions"%string)
  | _ :: _ =>
      inr {| feePayer := feePayer t; recentBlockhash := recentBlockhash t;
             tx_instructions := tx_instructions t ++ ins;
             signatures := signatures t |}
  end.

(** [tx.partialSign(...signers)] *)
Definition partialSign (t : Transaction) (ss : list Signer) : Transaction :=
  {| feePayer := feePayer t; recentBlockhash := recentBlockhash t;
     tx_instructions := tx_instructions t; signatures := signatures t ++ ss |}.

(** The wallet signs one transaction: its key joins the signatures. *)
Definition walletSign (wallet : option PublicKey) (t : Transaction) : Transaction :=
  match wallet with
  | Some k => partialSign t [k]
  | None => t
  end.

(** ** The trace *)

(** One entry per collaborator call and per observer call.  The entry of a
    submission also keeps the value of the loop variable [i] at the call. *)
Inductive Event :=
| EvGetSlot (c : Commitment) (s : Z)
| EvGetLatestBlockhash (c : Commitment) (b : BlockhashInfo)
| EvSignAllTransactions (txs : list Transaction)
| EvSendSignedTransaction (i : nat) (t : option Transaction) (r : SendResult)
| EvProgress (i : nat)
| EvReSign (attempt : Z) (index : nat)
| EvFailure (error : Thrown) (i : nat) (successful : Z) (g : option InstructionSet).

(** What a run depends on and the sender does not decide: the answers to the
    n-th query of each kind; whether the wallet signs the transactions it
    is handed where they stand; and whether the call of [onRetry] whose
    slot check is query number [n] has settled when the next attempt
    submits. *)
Record Network := mkNetwork {
  slotAt : nat -> Z;
  latestBlockhashAt : nat -> BlockhashInfo;
  sendAt : nat -> option Transaction -> SendResult;
  walletSignsInPlace : bool;
  onRetryInTime : nat -> bool
}.

(** Queries made so far, and the trace. *)
Record World := mkWorld {
  nSlot : nat;
  nBlockhash : nat;
  nSend : nat;
  trace : list Event
}.

Definition world0 : World :=
  {| nSlot := 0; nBlockhash := 0; nSend := 0; trace := [] |}.

Definition emit (e : Event) (w : World) : World :=
  {| nSlot := nSlot w; nBlockhash := nBlockhash w; nSend := nSend w;
     trace := trace w ++ [e] |}.

(** ** JavaScript arrays *)

(** [l[k]] for an integer [k]: [undefined] below 0 and past the end. *)
Definition js_index {A : Type} (l : list A) (k : Z) : option A :=
  if k <? 0 then None else nth_error l (Z.to_nat k).

(** [l[j] = v] for [j <= length l]: inside the array the element is
    replaced, at [j = length l] the array grows by one.  Further out
    JavaScript leaves holes, which a list cannot hold, and the function
    returns [l]; the sender writes at [j <= length l] only
    ([rebuild_writes_in_range]), and no statement below is about a write
    further out. *)
Fixpoint array_set {A : Type} (l : list A) (j : nat) (v : A) : list A :=
  match l, j with
  | [], O => [v]
  | [], S _ => []
  | _ :: l', O => v :: l'
  | x :: l', S j' => x :: array_set l' j' v
  end.

(** ** async-retry *)

(** How one call of the retried function ends: it returns, it calls [bail]
    and returns, or it throws. *)
Inductive FnResult :=
| Resolved
| Bailed (reason : Thrown)
| Threw (e : Thrown).

(** How the promise of [retry] settles; [Overlapped] when a call of
    [onRetry] is still running as the next attempt submits. *)
Inductive Settled :=
| Fulfilled
| Rejected (e : Thrown)
| Overlapped.

(** How often the key [k] occurs among the messages of [l]. *)
Fixpoint occurrences (k : string) (l : list Thrown) : nat :=
  match l with
  | [] => O
  | e :: l' =>
      ((if String.eqb (message_key e) k then 1 else 0) + occurrences k l')%nat
  end.

(** The loop of [mainError] in [retry_operation.js]: [seen] holds the
    errors counted so far; an error takes over when its message has
    occurred at least as often as the one of the main error. *)
Fixpoint mainErrorLoop (seen rest : list Thrown) (main : option Thrown)
    (mainCount : nat) : option Thrown :=
  match rest with
  | [] => main
  | e :: rest' =>
      let c := S (occurrences (message_key e) seen) in
      if (mainCount <=? c)%nat
      then mainErrorLoop (seen ++ [e]) rest' (Some e) c
      else mainErrorLoop (seen ++ [e]) rest' main mainCount
  end.

Definition mainError (errors : list Thrown) : option Thrown :=
  mainErrorLoop [] errors None O.

(** [retry(fn, { retries, onRetry })].  [timeouts] is the number of retries
    left, [num] the number of the attempt, from 1, and [errors] the errors
    thrown by the attempts before.  [bail] rejects at once, and so does a
    thrown error that has a [bail] property.  Any other thrown error is
    kept; with a retry left, [onRetry(err, num)] is called and the next
    attempt made, with none left the promise rejects with [mainError()].
    [onRetry] answers [None] when it has not settled in time. *)
Fixpoint retry {St : Type} (timeouts : nat) (num : Z) (errors : list Thrown)
    (fn : Z -> St -> FnResult * St)
    (onRetry : Thrown -> Z -> St -> option St)
    (st : St) : Settled * St :=
  let '(r, st1) := fn num st in
  match r with
  | Resolved => (Fulfilled, st1)
  | Bailed e => (Rejected e, st1)
  | Threw e =>
      if thrown_bail e then (Rejected e, st1)
      else
        match timeouts with
        | O =>
            (Rejected match mainError (errors ++ [e]) with
                      | Some m => m
                      | None => e
                      end, st1)
        | S k =>
            match onRetry e num st1 with
            | Some st2 => retry k (num + 1) (errors ++ [e]) fn onRetry st2
            | None => (Overlapped, st1)
            end
        end
  end.

(** ** The sender *)

Record SmartInstructionSenderConfiguration := mkConfiguration {
  maxSigningAttempts : Z;
  abortOnFailure : bool;
  commitment : Commitment
}.

(** The fields of the class.  An observer is a flag: registered or not. *)
Record SmartInstructionSender := mkSender {
  wallet_publicKey : option PublicKey;
  instructionSets : option (list InstructionSet);
  configuration : SmartInstructionSenderConfiguration;
  onProgressCallback : bool;
  onReSignCallback : bool;
  onFailureCallback : bool
}.

(** The defaults of the class. *)
Definition defaultConfiguration : SmartInstructionSenderConfiguration :=
  {| maxSigningAttempts := 3; abortOnFailure := true;
     commitment := "singleGossip"%string |}.

(** The variables of [send]: [slot], [currentBlock], [signedTXs],
    [successfulItems], and inside the loop [tx] and [retryNumber]; with them
    the world. *)
Record Run := mkRun {
  slot : Z;
  currentBlock : BlockhashInfo;
  signedTXs : list Transaction;
  successfulItems : Z;
  tx : option Transaction;
  retryNumber : Z;
  world : World
}.

Definition set_world (w : World) (st : Run) : Run :=
  {| slot := slot st; currentBlock := currentBlock st;
     signedTXs := signedTXs st; successfulItems := successfulItems st;
     tx := tx st; retryNumber := retryNumber st; world := w |}.

Definition set_anchor (s : Z) (b : BlockhashInfo) (st : Run) : Run :=
  {| slot := s; currentBlock := b;
     signedTXs := signedTXs st; successfulItems := successfulItems st;
     tx := tx st; retryNumber := retryNumber st; world := world st |}.

Definition set_signedTXs (txs : list Transaction) (st : Run) : Run :=
  {| slot := slot st; currentBlock := currentBlock st;
     signedTXs := txs; successfulItems := successfulItems st;
     tx := tx st; retryNumber := retryNumber st; world := world st |}.

Definition set_successfulItems (n : Z) (st : Run) : Run :=
  {| slot := slot st; currentBlock := currentBlock st;
     signedTXs := signedTXs st; successfulItems := n;
     tx := tx st; retryNumber := retryNumber st; world := world st |}.

Definition set_tx (t : option Transaction) (st : Run) : Run :=
  {| slot := slot st; currentBlock := currentBlock st;
     signedTXs := signedTXs st; successfulItems := successfulItems st;
     tx := t; retryNumber := retryNumber st; world := world st |}.

Definition set_retryNumber (n : Z) (st : Run) : Run :=
  {| slot := slot st; currentBlock := currentBlock st;
     signedTXs := signedTXs st; successfulItems := successfulItems st;
     tx := tx st; retryNumber := n; world := world st |}.

(** How [send] ends.  [Throws] keeps the trace at the throw; [Overlaps]
    the trace at the point where the model stops. *)
Inductive Outcome :=
| Throws (e : Thrown) (w : World)
| Returns (st : Run)
| OutOfFuel
| Overlaps (w : World).

(** How the body of the [for] loop ends. *)
Inductive LoopStep := Continue | Break | Overlap.

Section Sender.

Variable this : SmartInstructionSender.
Variable net : Network.

Let cfg := configuration this.

(** [this.instructionSets!] *)
Definition theInstructionSets : list InstructionSet :=
  match instructionSets this with
  | Some l => l
  | None => []
  end.

(** *** Collaborators *)

(** [connection.getSlot(commitment)] *)
Definition getSlot (w : World) : Z * World :=
  let s := slotAt net (nSlot w) in
  (s, emit (EvGetSlot (commitment cfg) s)
        {| nSlot := S (nSlot w); nBlockhash := nBlockhash w;
           nSend := nSend w; trace := trace w |}).

(** [connection.getLatestBlockhash(commitment)] *)
Definition getLatestBlockhash (w : World) : BlockhashInfo * World :=
  let b := latestBlockhashAt net (nBlockhash w) in
  (b, emit (EvGetLatestBlockhash (commitment cfg) b)
        {| nSlot := nSlot w; nBlockhash := S (nBlockhash w);
           nSend := nSend w; trace := trace w |}).

(** [tools]: [Promise.all([getSlot, getLatestBlockhash])] *)
Definition getSlotAndCurrentBlockHash (w : World) : (Z * BlockhashInfo) * World :=
  let '(s, w1) := getSlot w in
  let '(b, w2) := getLatestBlockhash w1 in
  ((s, b), w2).

(** [sendSignedTransaction({ connection, signedTransaction })], called with
    the loop at index [i]. *)
Definition sendSignedTransaction (i : nat) (t : option Transaction) (w : World)
  : SendResult * World :=
  let r := sendAt net (nSend w) t in
  (r, emit (EvSendSignedTransaction i t r)
        {| nSlot := nSlot w; nBlockhash := nBlockhash w;
           nSend := S (nSend w); trace := trace w |}).

(** [wallet.signAllTransactions(txs)]: the array the wallet returns holds
    the transactions of [txs], signed. *)
Definition signAllTransactions (txs : list Transaction) (w : World)
  : list Transaction * World :=
  (map (walletSign (wallet_publicKey this)) txs, emit (EvSignAllTransactions txs) w).

(** *** Observers *)

Definition progressCb (i : nat) (w : World) : World :=
  if onProgressCallback this then emit (EvProgress i) w else w.

Definition reSignCb (attempt : Z) (index : nat) (w : World) : World :=
  if onReSignCallback this then emit (EvReSign attempt index) w else w.

Definition failureCb (error : Thrown) (i : nat) (successful : Z)
    (g : option InstructionSet) (w : World) : World :=
  if onFailureCallback this then emit (EvFailure error i successful g) w else w.

(** *** Building *)

(** Lines 94-99, and the same statements at lines 120-125:
    [new Transaction({...}).add(...instructions)], then [partialSign] when
    the set has signers. *)
Definition buildOrThrow (bh : string) (s : InstructionSet) : Thrown + Transaction :=
  match add (newTransaction (wallet_publicKey this) bh) (instructions s) with
  | inl e => inl e
  | inr t =>
      inr (if (0 <? length (signers s))%nat then partialSign t (signers s) else t)
  end.

(** The [map] of lines 119-126, over the groups the filter has left. *)
Fixpoint buildAll (bh : string) (l : list InstructionSet)
  : Thrown + list Transaction :=
  match l with
  | [] => inr []
  | s :: l' =>
      match buildOrThrow bh s with
      | inl e => inl e
      | inr t =>
          match buildAll bh l' with
          | inl e => inl e
          | inr ts => inr (t :: ts)
          end
      end
  end.

(** The loop of lines 92-100, from [j] on; [rest] holds
    [instructionSets[j]], [instructionSets[j+1]], ...  When a build throws,
    the loop is left with the array as the rounds before have written
    it. *)
Fixpoint rebuildLoop (bh : string) (rest : list InstructionSet) (j : nat)
    (txs : list Transaction) : option Thrown * list Transaction :=
  match rest with
  | [] => (None, txs)
  | s :: rest' =>
      match buildOrThrow bh s with
      | inl e => (Some e, txs)
      | inr t => rebuildLoop bh rest' (S j) (array_set txs j t)
      end
  end.

(** [signAndRebuildTransactionsFromInstructionSets(signedTXs, index, blockhash,
    attempt)]: the observer, the loop, the wallet, and the first transaction
    of the slice as result; or the error thrown in the loop.  The slice
    handed to the wallet holds the transactions of [signedTXs] themselves,
    and the array the wallet returns is dropped: the transactions of
    [signedTXs] are signed when the wallet signs where they stand. *)
Definition signAndRebuildTransactionsFromInstructionSets
    (index : nat) (bh : BlockhashInfo) (attempt : Z) (st : Run)
  : (Thrown + option Transaction) * Run :=
  let w1 := reSignCb attempt index (world st) in
  let '(thrown, rebuilt) :=
    rebuildLoop (blockhash bh) (skipn index theInstructionSets) index (signedTXs st) in
  match thrown with
  | Some e => (inl e, set_world w1 (set_signedTXs rebuilt st))
  | None =>
      let '(signed, w2) := signAllTransactions (skipn index rebuilt) w1 in
      let txs :=
        if walletSignsInPlace net then firstn index rebuilt ++ signed
        else rebuilt in
      (inr (nth_error (skipn index txs) 0), set_world w2 (set_signedTXs txs st))
  end.

(** *** The retried function, lines 136-186 *)

Definition attemptFn (i : nat) (num : Z) (st : Run) : FnResult * Run :=
  let st := set_retryNumber (retryNumber st + 1) st in
  let '(result, w) := sendSignedTransaction i (tx st) (world st) in
  let st := set_world w st in
  match err result with
  | Some e =>
      if String.eqb (err_type e) "timeout"%string
         && (maxSigningAttempts cfg <=? retryNumber st)
      then (Bailed (JsError "MAX_RESIGN_ATTEMPTS_REACHED"%string), st)
      else if String.eqb (err_type e) "timeout"%string then (Threw (TxError e), st)
      else if String.eqb (err_type e) "misc-error"%string then (Bailed (TxError e), st)
      else (Bailed (TxError e), st)
  | None =>
      let st := set_world (progressCb i (world st)) st in
      let st := set_successfulItems (successfulItems st + 1) st in
      if slot st + 150 <=? result_slot result then
        let nextTXs := skipn (i + 1) (signedTXs st) in
        if (0 <? length nextTXs)%nat then
          let '((newSlot, newCurrentBlock), w) :=
            getSlotAndCurrentBlockHash (world st) in
          let st := set_anchor newSlot newCurrentBlock (set_world w st) in
          let '(res, st) :=
            signAndRebuildTransactionsFromInstructionSets
              (i + 1) newCurrentBlock 0 st in
          match res with
          | inl e => (Threw e, st)
          | inr _ => (Resolved, st)
          end
        else (Resolved, st)
      else (Resolved, st)
  end.

(** *** [onRetry], lines 189-210 *)

(** The body of [onRetry], run to its end.  When the rebuild throws, the
    promise of [onRetry] rejects and [tx] keeps its value. *)
Definition onRetryBody (i : nat) (attempt : Z) (st : Run) : Run :=
  let '(slotResult, w) := getSlot (world st) in
  let st := set_world w st in
  if slot st + 150 <=? slotResult then
    let '((newSlot, newCurrentBlock), w) :=
      getSlotAndCurrentBlockHash (world st) in
    let st := set_anchor newSlot newCurrentBlock (set_world w st) in
    let '(res, st) :=
      signAndRebuildTransactionsFromInstructionSets
        i newCurrentBlock attempt st in
    match res with
    | inl _ => st
    | inr t => set_tx t st
    end
  else st.

(** [onRetry(error, attempt)] as [retry] sees it: for an error that is no
    timeout nothing is done; for a timeout the body runs, and the answer
    is [None] when it has not settled in time. *)
Definition onRetry (i : nat) (error : Thrown) (attempt : Z) (st : Run)
  : option Run :=
  if thrown_is_timeout error then
    if onRetryInTime net (nSlot (world st))
    then Some (onRetryBody i attempt st)
    else None
  else Some st.

(** *** The body of the [for] loop, lines 132-223 *)

(** [let tx = signedTXs[i]; let retryNumber = 0;] *)
Definition enterItem (i : nat) (st : Run) : Run :=
  set_retryNumber 0 (set_tx (nth_error (signedTXs st) i) st).

(** [await retry(fn, { retries: maxSigningAttempts, onRetry })] *)
Definition sendWithRetry (i : nat) (st : Run) : Settled * Run :=
  retry (Z.to_nat (maxSigningAttempts cfg)) 1 [] (attemptFn i) (onRetry i)
        (enterItem i st).

(** The [catch] block up to the callback. *)
Definition reportFailure (error : Thrown) (i : nat) (st : Run) : Run :=
  set_world
    (failureCb error i (successfulItems st)
       (js_index theInstructionSets (successfulItems st - 1)) (world st))
    st.

Definition sendItem (i : nat) (st : Run) : LoopStep * Run :=
  let '(r, st1) := sendWithRetry i st in
  match r with
  | Fulfilled => (Continue, st1)
  | Rejected error =>
      (if abortOnFailure cfg then Break else Continue, reportFailure error i st1)
  | Overlapped => (Overlap, st1)
  end.

(** [for (let i = 0; i < signedTXs.length; i++)], from [i] on.  The length is
    read again at every round.  [fuel] bounds the rounds; [send_returns]
    shows that the fuel [send] gives is never used up. *)
Fixpoint sendLoop (fuel : nat) (i : nat) (st : Run) : Outcome :=
  if (i <? length (signedTXs st))%nat then
    match fuel with
    | O => OutOfFuel
    | S fuel' =>
        let '(step, st') := sendItem i st in
        match step with
        | Break => Returns st'
        | Continue => sendLoop fuel' (S i) st'
        | Overlap => Overlaps (world st')
        end
    end
  else Returns st.

(** [send], lines 107-225 *)
Definition send : Outcome :=
  match wallet_publicKey this with
  | None => Throws WalletNotConnectedError world0
  | Some _ =>
      match instructionSets this with
      | None | Some [] => Throws (JsError "No instruction sets provided"%string) world0
      | Some sets =>
          let '((s, b), w1) := getSlotAndCurrentBlockHash world0 in
          match buildAll (blockhash b)
                  (filter (fun g => (0 <? length (instructions g))%nat) sets) with
          | inl e => Throws e w1
          | inr unsignedTXs =>
              let '(signed, w2) := signAllTransactions unsignedTXs w1 in
              sendLoop (length sets) 0
                {| slot := s; currentBlock := b; signedTXs := signed;
                   successfulItems := 0; tx := None; retryNumber := 0;
                   world := w2 |}
          end
      end
  end.

End Sender.

(** ** Descriptions used in the statements *)

(** [instructionSet.instructions.length], as a condition. *)
Definition has_operations (g : InstructionSet) : bool :=
  (0 <? length (instructions g))%nat.

(** The transaction of lines 94-99 and 120-125 for a group that has
    operations: the wallet pays the fee, the operations are those of the
    group in their order, and the signers of the group have signed. *)
Definition buildTransaction (this : SmartInstructionSender) (bh : string)
    (g : InstructionSet) : Transaction :=
  {| feePayer := wallet_publicKey this; recentBlockhash := bh;
     tx_instructions := instructions g; signatures := signers g |}.

(** The same transaction with the signature of the wallet. *)
Definition signedBuild (this : SmartInstructionSender) (bh : string)
    (g : InstructionSet) : Transaction :=
  {| feePayer := wallet_publicKey this; recentBlockhash := bh;
     tx_instructions := instructions g;
     signatures := signers g ++ match wallet_publicKey this with
                                | Some k => [k]
                                | None => []
                                end |}.

(** The variables of [send] after the first build and the first signature,
    lines 112-130. *)
Definition initialRun (this : SmartInstructionSender) (net : Network)
    (sets : list InstructionSet) : Run :=
  let c := commitment (configuration this) in
  let b := latestBlockhashAt net 0 in
  let groups := filter (fun g => (0 <? length (instructions g))%nat) sets in
  {| slot := slotAt net 0; currentBlock := b;
     signedTXs := map (signedBuild this (blockhash b)) groups;
     successfulItems := 0; tx := None; retryNumber := 0;
     world :=
       {| nSlot := 1; nBlockhash := 1; nSend := 0;
          trace := [EvGetSlot c (slotAt net 0);
                    EvGetLatestBlockhash c b;
                    EvSignAllTransactions
                      (map (buildTransaction this (blockhash b)) groups)] |} |}.

(** Every write [signedTXs[j] = ...] of [rebuildLoop] is inside the array or
    at its end. *)
Fixpoint writes_in_range (this : SmartInstructionSender) (bh : string)
    (rest : list InstructionSet) (j : nat) (txs : list Transaction) : Prop :=
  match rest with
  | [] => True
  | g :: rest' =>
      match buildOrThrow this bh g with
      | inl _ => True
      | inr t =>
          (j <= length txs)%nat /\
          writes_in_range this bh rest' (S j) (array_set txs j t)
      end
  end.

(** The groups at the front of [l] that have operations: those the loop of
    a rebuild gets through. *)
Fixpoint buildable (l : list InstructionSet) : list InstructionSet :=
  match l with
  | [] => []
  | g :: l' => if has_operations g then g :: buildable l' else []
  end.

(** Every supplied group has operations. *)
Definition all_have_operations (this : SmartInstructionSender) : Prop :=
  forall g, In g (theInstructionSets this) -> instructions g <> [].

(** A rebuild from [index] meets a group without operations, and throws. *)
Definition rebuildThrows (this : SmartInstructionSender) (index : nat) : bool :=
  negb (forallb has_operations (skipn index (theInstructionSets this))).

(** What stands in [signedTXs] for a group after a rebuild and the call of
    the wallet. *)
Definition rebuiltEntry (this : SmartInstructionSender) (net : Network)
    (bh : string) (g : InstructionSet) : Transaction :=
  if walletSignsInPlace net then signedBuild this bh g
  else buildTransaction this bh g.

(** [signedTXs] after a rebuild from [index] against the anchor [bh] that
    did not throw: the transactions before [index] stay, and from [index]
    on stand the builds of [instructionSets[index]],
    [instructionSets[index+1]], ... *)
Definition rebuiltTXs (this : SmartInstructionSender) (net : Network)
    (index : nat) (bh : string) (txs : list Transaction) : list Transaction :=
  firstn index txs
  ++ map (rebuiltEntry this net bh) (skipn index (theInstructionSets this)).

(** What the wallet is handed at such a rebuild. *)
Definition rebuiltUnsigned (this : SmartInstructionSender) (index : nat)
    (bh : string) : list Transaction :=
  map (buildTransaction this bh) (skipn index (theInstructionSets this)).

(** [signedTXs] after a rebuild from [index] that threw: the builds of the
    groups before the first one without operations have been written, not
    signed by the wallet; the rest is as it was. *)
Definition partlyRebuiltTXs (this : SmartInstructionSender) (index : nat)
    (bh : string) (txs : list Transaction) : list Transaction :=
  let built := buildable (skipn index (theInstructionSets this)) in
  firstn index txs
  ++ map (buildTransaction this bh) built
  ++ skipn (index + length built) txs.

(** What a rebuild has to keep of the transaction [t] of the group [g] when
    it puts [t'] in its place: the fee payer, the operations in their
    order, those of the group, and the signatures of the signers of the
    group at the front of the signatures. *)
Definition keeps_content (g : InstructionSet) (t t' : Transaction) : Prop :=
  feePayer t' = feePayer t /\
  tx_instructions t = instructions g /\
  tx_instructions t' = instructions g /\
  firstn (length (signers g)) (signatures t) = signers g /\
  firstn (length (signers g)) (signatures t') = signers g.

(** The entries the observers leave in the trace. *)
Definition progressEvents (this : SmartInstructionSender) (i : nat) : list Event :=
  if onProgressCallback this then [EvProgress i] else [].

Definition reSignEvents (this : SmartInstructionSender) (attempt : Z) (index : nat)
  : list Event :=
  if onReSignCallback this then [EvReSign attempt index] else [].

Definition failureEvents (this : SmartInstructionSender) (error : Thrown)
    (i : nat) (successful : Z) (g : option InstructionSet) : list Event :=
  if onFailureCallback this then [EvFailure error i successful g] else [].

(** The variables right after [sendSignedTransaction] answered [r] in an
    attempt for index [i]. *)
Definition afterSend (i : nat) (r : SendResult) (st : Run) : Run :=
  {| slot := slot st; currentBlock := currentBlock st;
     signedTXs := signedTXs st; successfulItems := successfulItems st;
     tx := tx st; retryNumber := retryNumber st + 1;
     world :=
       {| nSlot := nSlot (world st); nBlockhash := nBlockhash (world st);
          nSend := S (nSend (world st));
          trace := trace (world st) ++ [EvSendSignedTransaction i (tx st) r] |} |}.

(** The variables after an accepted attempt that does not re-anchor. *)
Definition afterAccept (this : SmartInstructionSender) (i : nat) (r : SendResult)
    (st : Run) : Run :=
  {| slot := slot st; currentBlock := currentBlock st;
     signedTXs := signedTXs st; successfulItems := successfulItems st + 1;
     tx := tx st; retryNumber := retryNumber st + 1;
     world :=
       {| nSlot := nSlot (world st); nBlockhash := nBlockhash (world st);
          nSend := S (nSend (world st));
          trace := trace (world st) ++ [EvSendSignedTransaction i (tx st) r]
                   ++ progressEvents this i |} |}.

(** The variables after an accepted attempt that re-anchors. *)
Definition afterAcceptReanchored (this : SmartInstructionSender) (net : Network)
    (i : nat) (r : SendResult) (st : Run) : Run :=
  let c := commitment (configuration this) in
  let newSlot := slotAt net (nSlot (world st)) in
  let newCurrentBlock := latestBlockhashAt net (nBlockhash (world st)) in
  {| slot := newSlot; currentBlock := newCurrentBlock;
     signedTXs :=
       rebuiltTXs this net (S i) (blockhash newCurrentBlock) (signedTXs st);
     successfulItems := successfulItems st + 1;
     tx := tx st; retryNumber := retryNumber st + 1;
     world :=
       {| nSlot := S (nSlot (world st)); nBlockhash := S (nBlockhash (world st));
          nSend := S (nSend (world st));
          trace := trace (world st) ++ [EvSendSignedTransaction i (tx st) r]
                   ++ progressEvents this i
                   ++ [EvGetSlot c newSlot; EvGetLatestBlockhash c newCurrentBlock]
                   ++ reSignEvents this 0 (S i)
                   ++ [EvSignAllTransactions
                         (rebuiltUnsigned this (S i) (blockhash newCurrentBlock))] |} |}.

(** The variables after an accepted attempt whose rebuild threw: the
    baseline has moved, the wallet has not been asked. *)
Definition afterAcceptThrown (this : SmartInstructionSender) (net : Network)
    (i : nat) (r : SendResult) (st : Run) : Run :=
  let c := commitment (configuration this) in
  let newSlot := slotAt net (nSlot (world st)) in
  let newCurrentBlock := latestBlockhashAt net (nBlockhash (world st)) in
  {| slot := newSlot; currentBlock := newCurrentBlock;
     signedTXs :=
       partlyRebuiltTXs this (S i) (blockhash newCurrentBlock) (signedTXs st);
     successfulItems := successfulItems st + 1;
     tx := tx st; retryNumber := retryNumber st + 1;
     world :=
       {| nSlot := S (nSlot (world st)); nBlockhash := S (nBlockhash (world st));
          nSend := S (nSend (world st));
          trace := trace (world st) ++ [EvSendSignedTransaction i (tx st) r]
                   ++ progressEvents this i
                   ++ [EvGetSlot c newSlot; EvGetLatestBlockhash c newCurrentBlock]
                   ++ reSignEvents this 0 (S i) |} |}.

(** The variables after [onRetry] found no drift. *)
Definition afterRetryCheck (this : SmartInstructionSender) (net : Network)
    (st : Run) : Run :=
  {| slot := slot st; currentBlock := currentBlock st;
     signedTXs := signedTXs st; successfulItems := successfulItems st;
     tx := tx st; retryNumber := retryNumber st;
     world :=
       {| nSlot := S (nSlot (world st)); nBlockhash := nBlockhash (world st);
          nSend := nSend (world st);
          trace := trace (world st)
                   ++ [EvGetSlot (commitment (configuration this))
                         (slotAt net (nSlot (world st)))] |} |}.

(** The variables after [onRetry] found drift and re-anchored. *)
Definition afterRetryReanchored (this : SmartInstructionSender) (net : Network)
    (i : nat) (attempt : Z) (st : Run) : Run :=
  let c := commitment (configuration this) in
  let slotResult := slotAt net (nSlot (world st)) in
  let newSlot := slotAt net (S (nSlot (world st))) in
  let newCurrentBlock := latestBlockhashAt net (nBlockhash (world st)) in
  let txs := rebuiltTXs this net i (blockhash newCurrentBlock) (signedTXs st) in
  {| slot := newSlot; currentBlock := newCurrentBlock;
     signedTXs := txs; successfulItems := successfulItems st;
     tx := nth_error txs i; retryNumber := retryNumber st;
     world :=
       {| nSlot := S (S (nSlot (world st))); nBlockhash := S (nBlockhash (world st));
          nSend := nSend (world st);
          trace := trace (world st)
                   ++ [EvGetSlot c slotResult; EvGetSlot c newSlot;
                       EvGetLatestBlockhash c newCurrentBlock]
                   ++ reSignEvents this attempt i
                   ++ [EvSignAllTransactions
                         (rebuiltUnsigned this i (blockhash newCurrentBlock))] |} |}.

(** The variables after [onRetry] found drift and its rebuild threw: the
    baseline has moved, [tx] has not, the wallet has not been asked. *)
Definition afterRetryThrown (this : SmartInstructionSender) (net : Network)
    (i : nat) (attempt : Z) (st : Run) : Run :=
  let c := commitment (configuration this) in
  let slotResult := slotAt net (nSlot (world st)) in
  let newSlot := slotAt net (S (nSlot (world st))) in
  let newCurrentBlock := latestBlockhashAt net (nBlockhash (world st)) in
  {| slot := newSlot; currentBlock := newCurrentBlock;
     signedTXs :=
       partlyRebuiltTXs this i (blockhash newCurrentBlock) (signedTXs st);
     successfulItems := successfulItems st;
     tx := tx st; retryNumber := retryNumber st;
     world :=
       {| nSlot := S (S (nSlot (world st))); nBlockhash := S (nBlockhash (world st));
          nSend := nSend (world st);
          trace := trace (world st)
                   ++ [EvGetSlot c slotResult; EvGetSlot c newSlot;
                       EvGetLatestBlockhash c newCurrentBlock]
                   ++ reSignEvents this attempt i |} |}.

(** The errors a rebuild or a timeout leaves with [retry]. *)
Definition retried_error (e : Thrown) : Prop :=
  e = JsError "No instructions"
  \/ exists se, e = TxError se /\ String.eqb (err_type se) "timeout" = true.

(** ** Reading a trace *)

(** A submission that was accepted: [result.err] is absent. *)
Definition is_accepted (ev : Event) : bool :=
  match ev with
  | EvSendSignedTransaction _ _ r =>
      match err r with None => true | Some _ => false end
  | _ => false
  end.

Definition is_send (ev : Event) : bool :=
  match ev with EvSendSignedTransaction _ _ _ => true | _ => false end.

Definition is_failure (ev : Event) : bool :=
  match ev with EvFailure _ _ _ _ => true | _ => false end.

(** The index an entry speaks about: the loop index of a submission, the
    argument of [progress], the second argument of [failure]. *)
Definition event_index (ev : Event) : option nat :=
  match ev with
  | EvSendSignedTransaction i _ _ => Some i
  | EvProgress i => Some i
  | EvFailure _ i _ _ => Some i
  | _ => None
  end.

(** The arguments of the calls of [progress], in order. *)
Fixpoint progress_calls (l : list Event) : list nat :=
  match l with
  | [] => []
  | EvProgress i :: l' => i :: progress_calls l'
  | _ :: l' => progress_calls l'
  end.

Definition count (p : Event -> bool) (l : list Event) : nat :=
  length (filter p l).

(** A submission made with the loop at index [i]. *)
Definition is_send_of (i : nat) (ev : Event) : bool :=
  match ev with
  | EvSendSignedTransaction j _ _ => Nat.eqb j i
  | _ => false
  end.

(** An accepted submission made with the loop at an index below [i]. *)
Definition accepted_below (i : nat) (ev : Event) : bool :=
  match ev with
  | EvSendSignedTransaction j _ r =>
      match err r with None => (j <? i)%nat | Some _ => false end
  | _ => false
  end.

(** [result.err.type === 'timeout'] *)
Definition is_timeout (r : SendResult) : bool :=
  match err r with
  | Some e => String.eqb (err_type e) "timeout"%string
  | None => false
  end.

(** The trace at [s] is [base], then [first], then entries none of which is
    a call of [failure]. *)
Definition item_trace (base : list Event) (first : Event) (s : Run) : Prop :=
  exists evs,
    trace (world s) = base ++ first :: evs /\
    count is_failure evs = 0%nat.

(** The first entry an item writes: the submission of [signedTXs[i]]. *)
Definition firstSubmission (net : Network) (i : nat) (st : Run) : Event :=
  EvSendSignedTransaction i (nth_error (signedTXs st) i)
    (sendAt net (nSend (world st)) (nth_error (signedTXs st) i)).

(** ** The states a run goes through *)

Section Reachable.

Variable this : SmartInstructionSender.
Variable net : Network.

(** [LoopHead i st]: a run of [send] tests the loop condition for index [i]
    with variables [st]. *)
Inductive LoopHead : nat -> Run -> Prop :=
| LoopHead_first : forall pk sets,
    wallet_publicKey this = Some pk ->
    instructionSets this = Some sets ->
    sets <> [] ->
    LoopHead 0 (initialRun this net sets)
| LoopHead_next : forall i st st',
    LoopHead i st ->
    (i < length (signedTXs st))%nat ->
    sendItem this net i st = (Continue, st') ->
    LoopHead (S i) st'.

(** [AttemptStart i k num st]: a run of [send] calls the retried function
    for index [i] with variables [st]; it is attempt [num], and [k] retries
    are left. *)
Inductive AttemptStart (i : nat) : nat -> Z -> Run -> Prop :=
| Attempt_first : forall st,
    LoopHead i st ->
    (i < length (signedTXs st))%nat ->
    AttemptStart i (Z.to_nat (maxSigningAttempts (configuration this))) 1
                 (enterItem i st)
| Attempt_again : forall k num st e st1 st2,
    AttemptStart i (S k) num st ->
    attemptFn this net i num st = (Threw e, st1) ->
    thrown_bail e = false ->
    onRetry this net i e num st1 = Some st2 ->
    AttemptStart i k (num + 1) st2.

End Reachable.

(** ** Invariants of a run *)

Section Invariants.

Variable this : SmartInstructionSender.
Variable net : Network.

(** The fourth argument of a [failure] call is the element of the supplied
    list at the third argument minus one. *)
Definition failure_ok (ev : Event) : Prop :=
  match ev with
  | EvFailure _ _ s g => g = js_index (theInstructionSets this) (s - 1)
  | _ => True
  end.

(** An entry that speaks about an index speaks about one below [i]. *)
Definition index_below (i : nat) (ev : Event) : Prop :=
  match event_index ev with
  | Some j => (j < i)%nat
  | None => True
  end.

Record RunInv (st : Run) : Prop := mkRunInv {
  inv_length :
    (length (signedTXs st) <= length (theInstructionSets this))%nat;
  inv_successful :
    successfulItems st = Z.of_nat (count is_accepted (trace (world st)));
  inv_failure : Forall failure_ok (trace (world st));
  inv_asked : (0 < nBlockhash (world st))%nat;
  inv_latest :
    currentBlock st = latestBlockhashAt net (pred (nBlockhash (world st)))
}.

(** At the head of the loop, about to test index [i]. *)
Definition HeadInv (i : nat) (st : Run) : Prop :=
  RunInv st /\
  Forall (index_below i) (trace (world st)).

(** At the start of attempt [num] for index [i], with [k] retries left. *)
Definition AttemptInv (i : nat) (k : nat) (num : Z) (st : Run) : Prop :=
  RunInv st /\
  Forall (index_below (S i)) (trace (world st)) /\
  (i < length (signedTXs st))%nat /\
  retryNumber st = num - 1 /\
  Z.of_nat k + num
    = Z.of_nat (Z.to_nat (maxSigningAttempts (configuration this))) + 1 /\
  1 <= num.

(** From [i] on, the transactions of [signedTXs] carry the anchor of the
    baseline. *)
Definition anchored_from (i : nat) (st : Run) : Prop :=
  forall j t,
    (i <= j)%nat -> nth_error (signedTXs st) j = Some t ->
    recentBlockhash t = blockhash (currentBlock st).

(** What holds in addition at the head of the loop when no rebuild
    throws. *)
Definition PlainHead (i : nat) (st : Run) : Prop :=
  anchored_from i st.

(** What holds in addition at the start of an attempt when no rebuild
    throws: [tx] is the transaction at [i], and a second or later attempt
    follows a timeout below the bound. *)
Definition PlainAttempt (i : nat) (st : Run) : Prop :=
  anchored_from i st /\
  tx st = nth_error (signedTXs st) i /\
  (retryNumber st = 0
   \/ retryNumber st + 1 <= maxSigningAttempts (configuration this)).

End Invariants.

(** ** Sample runs *)

Definition timeoutError : SendError :=
  {| err_type := "timeout"; err_message := None; err_bail := false |}.

Definition timeoutResult : SendResult :=
  {| err := Some timeoutError; result_slot := 0 |}.

Definition miscError : SendError :=
  {| err_type := "misc-error"; err_message := None; err_bail := false |}.

Definition miscErrorResult : SendResult :=
  {| err := Some miscError; result_slot := 0 |}.

Definition accepted (s : Z) : SendResult :=
  {| err := None; result_slot := s |}.

(** A network that answers from scripts; past a script it repeats a default.
    The wallet signs in place, and every [onRetry] settles in time. *)
Definition scripted (slots : list Z) (hashes : list string)
    (results : list SendResult) : Network :=
  {| slotAt := fun n => nth n slots 0;
     latestBlockhashAt := fun n =>
       {| blockhash := nth n hashes "h"%string; lastValidBlockHeight := 0 |};
     sendAt := fun n _ => nth n results (accepted 0);
     walletSignsInPlace := true;
     onRetryInTime := fun _ => true |}.

Definition setA : InstructionSet :=
  {| signers := []; instructions := ["a"%string] |}.
Definition setB : InstructionSet :=
  {| signers := ["s"%string]; instructions := ["b"%string] |}.
Definition setC : InstructionSet :=
  {| signers := []; instructions := ["c1"%string; "c2"%string] |}.
Definition setEmpty : InstructionSet :=
  {| signers := []; instructions := [] |}.

Definition senderOf (sets : list InstructionSet) (abort : bool) : SmartInstructionSender :=
  {| wallet_publicKey := Some "W"%string;
     instructionSets := Some sets;
     configuration :=
       {| maxSigningAttempts := 3; abortOnFailure := abort;
          commitment := "singleGossip"%string |};
     onProgressCallback := true;
     onReSignCallback := true;
     onFailureCallback := true |}.

(** Three groups with operations; the first submission is accepted 150
    slots past the baseline. *)
Definition driftSender : SmartInstructionSender := senderOf [setA; setB; setC] true.
Definition driftNetwork : Network :=
  scripted [100; 300] ["h0"%string; "h1"%string]
           [accepted 250; accepted 300; accepted 300].

(** Two groups; every submission times out, and the slot has drifted when
    [onRetry] looks at it for the first time. *)
Definition timeoutSender (abort : bool) : SmartInstructionSender :=
  senderOf [setA; setB] abort.
Definition timeoutNetwork : Network :=
  {| slotAt := fun n => nth n [100; 300; 400] 0;
     latestBlockhashAt := fun n =>
       {| blockhash := nth n ["h0"%string; "h1"%string] "h"%string;
          lastValidBlockHeight := 0 |};
     sendAt := fun _ _ => timeoutResult;
     walletSignsInPlace := true;
     onRetryInTime := fun _ => true |}.

(** Two groups; every submission is accepted at the baseline slot. *)
Definition calmNetwork : Network :=
  {| slotAt := fun _ => 100;
     latestBlockhashAt := fun _ =>
       {| blockhash := "h0"; lastValidBlockHeight := 0 |};
     sendAt := fun _ _ => accepted 100;
     walletSignsInPlace := true;
     onRetryInTime := fun _ => true |}.

(** A group without operations between two groups that have some. *)
Definition gapSender : SmartInstructionSender :=
  senderOf [setA; setEmpty; setB] true.

(** A group without operations after the only group that has some; the
    first submission times out, the slot has drifted when [onRetry] looks,
    and the second submission is accepted. *)
Definition retryGapSender : SmartInstructionSender :=
  senderOf [setA; setEmpty] true.
Definition retryGapNetwork : Network :=
  scripted [100; 300; 400] ["h0"%string; "h1"%string]
           [timeoutResult; accepted 400].

(** A group without operations at the end; the first submission is accepted
    150 slots past the baseline, the second is accepted, and every later
    one times out. *)
Definition tailGapSender : SmartInstructionSender :=
  senderOf [setA; setB; setEmpty] true.
Definition tailGapNetwork : Network :=
  scripted [100; 300; 300; 300] ["h0"%string; "h1"%string]
           [accepted 250; accepted 300; timeoutResult; timeoutResult;
            timeoutResult].

(** A group without operations at the front. *)
Definition headGapSender : SmartInstructionSender :=
  senderOf [setEmpty; setA; setB] true.

(** Two groups; the first submission is accepted, the second ends in
    misc-error. *)
Definition secondFailsNetwork : Network :=
  scripted [100] ["h0"%string] [accepted 100; miscErrorResult].


(** ** The builder, lines 48-80 *)

(** An instance of the class: the fields of the sender, and the
    [connection] that [send] talks to. *)
Record Instance := mkInstance {
  sender : SmartInstructionSender;
  connection : Network
}.

(** [SmartInstructionSender.build(wallet, connection)]: the constructor sets
    the wallet and the connection; the other fields have the initial values
    of the class. *)
Definition build (wallet : option PublicKey) (conn : Network) : Instance :=
  {| sender :=
       {| wallet_publicKey := wallet;
          instructionSets := None;
          configuration := defaultConfiguration;
          onProgressCallback := false;
          onReSignCallback := false;
          onFailureCallback := false |};
     connection := conn |}.

(** [config(config)] *)
Definition config (c : SmartInstructionSenderConfiguration) (b : Instance) : Instance :=
  {| sender :=
       {| wallet_publicKey := wallet_publicKey (sender b);
          instructionSets := instructionSets (sender b);
          configuration := c;
          onProgressCallback := onProgressCallback (sender b);
          onReSignCallback := onReSignCallback (sender b);
          onFailureCallback := onFailureCallback (sender b) |};
     connection := connection b |}.

(** [withInstructionSets(instructionSets)] *)
Definition withInstructionSets (sets : list InstructionSet) (b : Instance) : Instance :=
  {| sender :=
       {| wallet_publicKey := wallet_publicKey (sender b);
          instructionSets := Some sets;
          configuration := configuration (sender b);
          onProgressCallback := onProgressCallback (sender b);
          onReSignCallback := onReSignCallback (sender b);
          onFailureCallback := onFailureCallback (sender b) |};
     connection := connection b |}.

(** [onProgress(progressCallback)] *)
Definition onProgress (b : Instance) : Instance :=
  {| sender :=
       {| wallet_publicKey := wallet_publicKey (sender b);
          instructionSets := instructionSets (sender b);
          configuration := configuration (sender b);
          onProgressCallback := true;
          onReSignCallback := onReSignCallback (sender b);
          onFailureCallback := onFailureCallback (sender b) |};
     connection := connection b |}.

(** [onReSign(reSignCallback)] *)
Definition onReSign (b : Instance) : Instance :=
  {| sender :=
       {| wallet_publicKey := wallet_publicKey (sender b);
          instructionSets := instructionSets (sender b);
          configuration := configuration (sender b);
          onProgressCallback := onProgressCallback (sender b);
          onReSignCallback := true;
          onFailureCallback := onFailureCallback (sender b) |};
     connection := connection b |}.

(** [onFailure(onFailureCallback)] *)
Definition onFailure (b : Instance) : Instance :=
  {| sender :=
       {| wallet_publicKey := wallet_publicKey (sender b);
          instructionSets := instructionSets (sender b);
          configuration := configuration (sender b);
          onProgressCallback := onProgressCallback (sender b);
          onReSignCallback := onReSignCallback (sender b);
          onFailureCallback := true |};
     connection := connection b |}.

(** [send()] on an instance. *)
Definition sendInstance (b : Instance) : Outcome :=
  send (sender b) (connection b).

(** One call of a chained setter, and a chain of them, first call first. *)
Inductive SetterCall :=
| CallConfig (c : SmartInstructionSenderConfiguration)
| CallWithInstructionSets (sets : list InstructionSet)
| CallOnProgress
| CallOnReSign
| CallOnFailure.

Definition callSetter (b : Instance) (c : SetterCall) : Instance :=
  match c with
  | CallConfig x => config x b
  | CallWithInstructionSets sets => withInstructionSets sets b
  | CallOnProgress => onProgress b
  | CallOnReSign => onReSign b
  | CallOnFailure => onFailure b
  end.

Definition callSetters (calls : list SetterCall) (b : Instance) : Instance :=
  fold_left callSetter calls b.

(** The argument of the last [config] of a chain, and of its last
    [withInstructionSets]; whether a chain calls a given observer setter. *)
Fixpoint lastConfig (calls : list SetterCall)
  : option SmartInstructionSenderConfiguration :=
  match calls with
  | [] => None
  | c :: rest =>
      match lastConfig rest with
      | Some x => Some x
      | None => match c with CallConfig x => Some x | _ => None end
      end
  end.

Fixpoint lastInstructionSets (calls : list SetterCall)
  : option (list InstructionSet) :=
  match calls with
  | [] => None
  | c :: rest =>
      match lastInstructionSets rest with
      | Some x => Some x
      | None => match c with CallWithInstructionSets x => Some x | _ => None end
      end
  end.

Definition callsOnProgress (calls : list SetterCall) : bool :=
  existsb (fun c => match c with CallOnProgress => true | _ => false end) calls.

Definition callsOnReSign (calls : list SetterCall) : bool :=
  existsb (fun c => match c with CallOnReSign => true | _ => false end) calls.

Definition callsOnFailure (calls : list SetterCall) : bool :=
  existsb (fun c => match c with CallOnFailure => true | _ => false end) calls.

(** ** More readings of a trace *)

Definition is_get_blockhash (ev : Event) : bool :=
  match ev with EvGetLatestBlockhash _ _ => true | _ => false end.

Definition is_sign_all (ev : Event) : bool :=
  match ev with EvSignAllTransactions _ => true | _ => false end.

Definition is_resign (ev : Event) : bool :=
  match ev with EvReSign _ _ => true | _ => false end.

(** The indices handed to [progress] and to [failure], in the order of the
    calls. *)
Fixpoint outcome_calls (l : list Event) : list nat :=
  match l with
  | [] => []
  | EvProgress i :: l' => i :: outcome_calls l'
  | EvFailure _ i _ _ :: l' => i :: outcome_calls l'
  | _ :: l' => outcome_calls l'
  end.



(** The first three entries of the trace of a run over [sets]: the slot and
    anchor queries, and the wallet asked to sign the builds of the groups
    that have operations. *)
Definition firstEvents (this : SmartInstructionSender) (net : Network)
    (sets : list InstructionSet) : list Event :=
  [EvGetSlot (commitment (configuration this)) (slotAt net 0);
   EvGetLatestBlockhash (commitment (configuration this)) (latestBlockhashAt net 0);
   EvSignAllTransactions
     (map (buildTransaction this (blockhash (latestBlockhashAt net 0)))
          (filter (fun g => (0 <? length (instructions g))%nat) sets))].

(** The bound on the submissions of one index. *)
Definition attemptBound (this : SmartInstructionSender) : nat :=
  Z.to_nat (Z.max 1 (maxSigningAttempts (configuration this))).

(** A network for the sample runs: the first submission times out, the
    slot has not moved when [onRetry] looks, the second submission ends in
    misc-error, the third is accepted. *)
Definition mixedNetwork : Network :=
  scripted [100; 100] ["h0"%string]
           [timeoutResult; miscErrorResult; accepted 100].

Definition is_get_slot (ev : Event) : bool :=
  match ev with EvGetSlot _ _ => true | _ => false end.




(** [t] is the build of the group [g] against some anchor: signed by the
    wallet, or, with a wallet that returns signed copies, as a rebuild
    leaves it. *)
Definition build_of (this : SmartInstructionSender) (net : Network)
    (g : InstructionSet) (t : Transaction) : Prop :=
  exists bh,
    t = signedBuild this bh g
    \/ (walletSignsInPlace net = false /\ t = buildTransaction this bh g).

(** Index by index, [txs] holds builds of the supplied groups. *)
Definition aligned (this : SmartInstructionSender) (net : Network)
    (txs : list Transaction) : Prop :=
  forall j t,
    nth_error txs j = Some t ->
    exists g,
      nth_error (theInstructionSets this) j = Some g /\ build_of this net g t.


(** Reading the baseline off a trace.  The first component is the answer of
    a [getSlot] entry while it is the entry just read; the second is the
    last pair of a [getSlot] answer and the [getLatestBlockhash] answer
    right after it, the two results of one [getSlotAndCurrentBlockHash]. *)
Definition baseline_step (acc : option Z * option (Z * BlockhashInfo))
    (ev : Event) : option Z * option (Z * BlockhashInfo) :=
  match ev with
  | EvGetSlot _ s => (Some s, snd acc)
  | EvGetLatestBlockhash _ b =>
      (None, match fst acc with Some s => Some (s, b) | None => snd acc end)
  | _ => (None, snd acc)
  end.

Definition last_pair (l : list Event) : option (Z * BlockhashInfo) :=
  snd (fold_left baseline_step l (None, None)).

(** A network for the sample runs: the only submission ends in an error of
    a type the sender does not know. *)
Definition unknownError : SendError :=
  {| err_type := "blockhash-expired"; err_message := None; err_bail := false |}.

Definition unknownErrorNetwork : Network :=
  scripted [100] ["h0"%string]
           [{| err := Some unknownError; result_slot := 0 |}].

(** The sender of the sample runs with [maxSigningAttempts] set to 0. *)
Definition noRetrySender : SmartInstructionSender :=
  {| wallet_publicKey := Some "W"%string;
     instructionSets := Some [setA; setB];
     configuration :=
       {| maxSigningAttempts := 0; abortOnFailure := true;
          commitment := "singleGossip"%string |};
     onProgressCallback := true;
     onReSignCallback := true;
     onFailureCallback := true |}.


(** * Properties *)

Arguments signAndRebuildTransactionsFromInstructionSets : simpl never.
Arguments attemptFn : simpl never.
Arguments onRetry : simpl never.
Arguments onRetryBody : simpl never.
Arguments sendWithRetry : simpl never.
Arguments sendItem : simpl never.
Arguments count : simpl never.
Arguments rebuiltTXs : simpl never.
Arguments partlyRebuiltTXs : simpl never.
Arguments rebuiltUnsigned : simpl never.
Arguments mainError : simpl never.
Arguments has_operations : simpl never.

(** ** Arrays *)

Lemma firstn_app_exact {A : Type} (l1 l2 : list A) (m : nat) :
  firstn (length l1 + m) (l1 ++ l2) = l1 ++ firstn m l2.
Proof.
  induction l1 as [|x l1 IH]; simpl; [reflexivity|]. now rewrite IH.
Qed.

Lemma skipn_app_exact {A : Type} (l1 l2 : list A) (m : nat) :
  skipn (length l1 + m) (l1 ++ l2) = skipn m l2.
Proof.
  induction l1 as [|x l1 IH]; simpl; [reflexivity|]. exact IH.
Qed.

Lemma firstn_app_cons {A : Type} (l1 l2 : list A) (v : A) (j : nat) :
  length l1 = j -> firstn (S j) (l1 ++ v :: l2) = l1 ++ [v].
Proof.
  intros <-. replace (S (length l1)) with (length l1 + 1)%nat by lia.
  rewrite firstn_app_exact. reflexivity.
Qed.

Lemma skipn_app_cons {A : Type} (l1 l2 : list A) (v : A) (j n : nat) :
  length l1 = j -> skipn (S j + n) (l1 ++ v :: l2) = skipn n l2.
Proof.
  intros <-. replace (S (length l1) + n)%nat with (length l1 + S n)%nat by lia.
  rewrite skipn_app_exact. reflexivity.
Qed.

Lemma array_set_spec {A : Type} (l : list A) (j : nat) (v : A) :
  (j <= length l)%nat ->
  array_set l j v = firstn j l ++ v :: skipn (S j) l.
Proof.
  revert j. induction l as [|x l IH]; intros [|j] H; simpl in *; try reflexivity.
  - lia.
  - rewrite IH by lia. reflexivity.
Qed.


Lemma array_set_length {A : Type} (l : list A) (j : nat) (v : A) :
  (j <= length l)%nat -> length (array_set l j v) = Nat.max (length l) (S j).
Proof.
  revert j. induction l as [|x l IH]; intros [|j] H; simpl in *;
    try reflexivity; try lia.
  rewrite IH by lia. reflexivity.
Qed.

(** ** Building and rebuilding *)

Section Rebuild.

Variable this : SmartInstructionSender.
Variable net : Network.

Let sets := theInstructionSets this.
Let pk := wallet_publicKey this.

Lemma has_operations_spec (g : InstructionSet) :
  has_operations g = true <-> instructions g <> [].
Proof.
  unfold has_operations. destruct (instructions g); cbn; split;
    congruence.
Qed.

(** For a group that has operations, lines 94-99 build the transaction
    described by [buildTransaction]. *)
Lemma buildOrThrow_ok (bh : string) (g : InstructionSet) :
  has_operations g = true ->
  buildOrThrow this bh g = inr (buildTransaction this bh g).
Proof.
  unfold has_operations, buildOrThrow, add, buildTransaction, newTransaction,
    partialSign.
  destruct (instructions g) as [|x ins]; [discriminate|]. intros _.
  destruct (signers g) as [|s ss]; reflexivity.
Qed.

(** For a group without operations they throw. *)
Lemma buildOrThrow_throws (bh : string) (g : InstructionSet) :
  has_operations g = false ->
  buildOrThrow this bh g = inl (JsError "No instructions").
Proof.
  unfold has_operations, buildOrThrow, add.
  destruct (instructions g); [reflexivity|discriminate].
Qed.

Lemma walletSign_build (bh : string) (g : InstructionSet) :
  walletSign pk (buildTransaction this bh g) = signedBuild this bh g.
Proof.
  unfold walletSign, buildTransaction, signedBuild, partialSign. fold pk.
  destruct pk; cbn; [reflexivity|]. rewrite app_nil_r. reflexivity.
Qed.

Lemma signedBuild_recentBlockhash (bh : string) (g : InstructionSet) :
  recentBlockhash (signedBuild this bh g) = bh.
Proof. reflexivity. Qed.

Lemma rebuiltEntry_recentBlockhash (bh : string) (g : InstructionSet) :
  recentBlockhash (rebuiltEntry this net bh g) = bh.
Proof. unfold rebuiltEntry. destruct (walletSignsInPlace net); reflexivity. Qed.

(** The first build never throws: the filter has left the groups that have
    operations. *)
Lemma buildAll_filter (bh : string) (l : list InstructionSet) :
  buildAll this bh (filter (fun g => (0 <? length (instructions g))%nat) l)
  = inr (map (buildTransaction this bh)
             (filter (fun g => (0 <? length (instructions g))%nat) l)).
Proof.
  induction l as [|g l IH]; [reflexivity|]. cbn [filter].
  destruct (0 <? length (instructions g))%nat eqn:Hg; [|exact IH].
  cbn [buildAll map]. rewrite (buildOrThrow_ok bh g Hg), IH. reflexivity.
Qed.

(** [send] past its guards: the first build, the first signature, the
    loop. *)
Lemma send_unfold (k : PublicKey) (sets0 : list InstructionSet) :
  wallet_publicKey this = Some k ->
  instructionSets this = Some sets0 ->
  sets0 <> [] ->
  send this net = sendLoop this net (length sets0) 0 (initialRun this net sets0).
Proof.
  intros Hw Hs Hne. unfold send. rewrite Hw, Hs.
  destruct sets0 as [|g sets0]; [contradiction|].
  unfold getSlotAndCurrentBlockHash, getSlot, getLatestBlockhash. cbn [fst snd].
  cbv beta iota zeta. rewrite buildAll_filter.
  unfold signAllTransactions, initialRun, emit. cbn [trace nSlot nBlockhash nSend world0 app].
  rewrite map_map.
  rewrite (map_ext _ _ (walletSign_build _)).
  reflexivity.
Qed.


(** Started inside the array or at its end, every write of the loop is
    inside the array or at its end. *)
Lemma rebuild_writes_in_range (bh : string) (rest : list InstructionSet) :
  forall (j : nat) (txs : list Transaction),
    (j <= length txs)%nat -> writes_in_range this bh rest j txs.
Proof.
  induction rest as [|g rest IH]; intros j txs H; cbn; [exact I|].
  destruct (buildOrThrow this bh g); [exact I|].
  split; [assumption|]. apply IH. rewrite array_set_length by assumption. lia.
Qed.

Lemma buildable_all (rest : list InstructionSet) :
  forallb has_operations rest = true -> buildable rest = rest.
Proof.
  induction rest as [|g rest IH]; [reflexivity|]. cbn.
  destruct (has_operations g); [|discriminate].
  cbn. intros H. rewrite IH by exact H. reflexivity.
Qed.

Lemma buildable_length (rest : list InstructionSet) :
  (length (buildable rest) <= length rest)%nat.
Proof.
  induction rest as [|g rest IH]; cbn; [lia|].
  destruct (has_operations g); cbn; lia.
Qed.

(** The result of the loop and the array after it. *)
Lemma rebuildLoop_spec (bh : string) (rest : list InstructionSet) :
  forall (j : nat) (txs : list Transaction),
    (j <= length txs)%nat ->
    rebuildLoop this bh rest j txs
    = (if forallb has_operations rest then None
       else Some (JsError "No instructions"),
       firstn j txs ++ map (buildTransaction this bh) (buildable rest)
         ++ skipn (j + length (buildable rest)) txs).
Proof.
  induction rest as [|g rest IH]; intros j txs H; cbn.
  - rewrite Nat.add_0_r, firstn_skipn. reflexivity.
  - destruct (has_operations g) eqn:Hg.
    + rewrite (buildOrThrow_ok bh g Hg).
      rewrite IH by (rewrite array_set_length by assumption; lia).
      rewrite array_set_spec by assumption.
      assert (Hj : length (firstn j txs) = j) by (apply firstn_length_le; lia).
      rewrite (firstn_app_cons _ _ _ Hj).
      cbn [length map].
      rewrite (skipn_app_cons _ _ _ (length (buildable rest)) Hj).
      rewrite skipn_skipn, <- app_assoc.
      replace (length (buildable rest) + S j)%nat
        with (j + S (length (buildable rest)))%nat by lia.
      reflexivity.
    + rewrite (buildOrThrow_throws bh g Hg). cbn.
      rewrite Nat.add_0_r, firstn_skipn. reflexivity.
Qed.

Lemma rebuiltTXs_length (index : nat) (bh : string) (txs : list Transaction) :
  (index <= length txs)%nat -> (length txs <= length sets)%nat ->
  length (rebuiltTXs this net index bh txs) = length sets.
Proof.
  intros Hi Hl. unfold rebuiltTXs. fold sets.
  rewrite length_app, length_map, length_skipn, firstn_length_le by assumption.
  lia.
Qed.

Lemma partlyRebuiltTXs_length (index : nat) (bh : string) (txs : list Transaction) :
  (index <= length txs)%nat ->
  length (partlyRebuiltTXs this index bh txs)
  = Nat.max (length txs) (index + length (buildable (skipn index sets)))%nat.
Proof.
  intros Hi. unfold partlyRebuiltTXs. fold sets.
  rewrite !length_app, length_map, length_skipn, firstn_length_le by assumption.
  lia.
Qed.

Lemma partlyRebuiltTXs_bound (index : nat) (bh : string) (txs : list Transaction) :
  (index <= length txs)%nat -> (length txs <= length sets)%nat ->
  (length txs <= length (partlyRebuiltTXs this index bh txs) <= length sets)%nat.
Proof.
  intros Hi Hl. rewrite partlyRebuiltTXs_length by assumption.
  pose proof (buildable_length (skipn index sets)) as Hb.
  rewrite length_skipn in Hb. lia.
Qed.

Lemma rebuiltTXs_before (index j : nat) (bh : string) (txs : list Transaction) :
  (index <= length txs)%nat -> (j < index)%nat ->
  nth_error (rebuiltTXs this net index bh txs) j = nth_error txs j.
Proof.
  intros Hi Hj. unfold rebuiltTXs.
  rewrite nth_error_app1 by (rewrite length_firstn; lia).
  rewrite nth_error_firstn.
  replace (j <? index)%nat with true by (symmetry; apply Nat.ltb_lt; lia).
  reflexivity.
Qed.

Lemma partlyRebuiltTXs_before (index j : nat) (bh : string) (txs : list Transaction) :
  (index <= length txs)%nat -> (j < index)%nat ->
  nth_error (partlyRebuiltTXs this index bh txs) j = nth_error txs j.
Proof.
  intros Hi Hj. unfold partlyRebuiltTXs.
  rewrite nth_error_app1 by (rewrite length_firstn; lia).
  rewrite nth_error_firstn.
  replace (j <? index)%nat with true by (symmetry; apply Nat.ltb_lt; lia).
  reflexivity.
Qed.

Lemma rebuiltTXs_from (index j : nat) (bh : string) (txs : list Transaction) :
  (index <= length txs)%nat -> (index <= j)%nat ->
  nth_error (rebuiltTXs this net index bh txs) j
  = option_map (rebuiltEntry this net bh) (nth_error sets j).
Proof.
  intros Hi Hj. unfold rebuiltTXs. fold sets.
  rewrite nth_error_app2 by (rewrite length_firstn; lia).
  rewrite firstn_length_le by assumption.
  rewrite nth_error_map, nth_error_skipn.
  replace (index + (j - index))%nat with j by lia. reflexivity.
Qed.

Lemma rebuiltTXs_firstn (index : nat) (bh : string) (txs : list Transaction) :
  (index <= length txs)%nat ->
  firstn index (rebuiltTXs this net index bh txs) = firstn index txs.
Proof.
  intros Hi. unfold rebuiltTXs.
  rewrite <- (Nat.add_0_r index) at 1.
  rewrite <- (firstn_length_le txs Hi) at 1.
  rewrite firstn_app_exact. cbn. apply app_nil_r.
Qed.

Lemma rebuiltTXs_skipn (index : nat) (bh : string) (txs : list Transaction) :
  (index <= length txs)%nat ->
  skipn index (rebuiltTXs this net index bh txs)
  = map (rebuiltEntry this net bh) (skipn index sets).
Proof.
  intros Hi. unfold rebuiltTXs. fold sets.
  rewrite <- (Nat.add_0_r index) at 1.
  rewrite <- (firstn_length_le txs Hi) at 1.
  rewrite skipn_app_exact. reflexivity.
Qed.

(** [signAndRebuildTransactionsFromInstructionSets] on an array that is not
    longer than the list of sets, from an index inside it or at its end,
    when every group from the index on has operations. *)
Lemma signAndRebuild_spec (index : nat) (bh : BlockhashInfo) (attempt : Z)
    (st : Run) :
  (index <= length (signedTXs st))%nat ->
  (length (signedTXs st) <= length sets)%nat ->
  rebuildThrows this index = false ->
  signAndRebuildTransactionsFromInstructionSets this net index bh attempt st
  = (inr (nth_error (rebuiltTXs this net index (blockhash bh) (signedTXs st)) index),
     {| slot := slot st; currentBlock := currentBlock st;
        signedTXs := rebuiltTXs this net index (blockhash bh) (signedTXs st);
        successfulItems := successfulItems st;
        tx := tx st; retryNumber := retryNumber st;
        world :=
          {| nSlot := nSlot (world st); nBlockhash := nBlockhash (world st);
             nSend := nSend (world st);
             trace := trace (world st) ++ reSignEvents this attempt index
                      ++ [EvSignAllTransactions
                            (rebuiltUnsigned this index (blockhash bh))] |} |}).
Proof.
  intros Hi Hlen Hth.
  unfold rebuildThrows in Hth. apply negb_false_iff in Hth. fold sets in Hth.
  unfold signAndRebuildTransactionsFromInstructionSets, signAllTransactions.
  fold sets.
  rewrite rebuildLoop_spec by assumption.
  rewrite Hth, (buildable_all _ Hth).
  assert (Hskip : skipn (index + length (skipn index sets)) (signedTXs st) = []).
  { apply skipn_all2. rewrite length_skipn. lia. }
  rewrite Hskip, app_nil_r.
  assert (Hf : length (firstn index (signedTXs st)) = index)
    by (apply firstn_length_le; assumption).
  assert (Hs : skipn index (firstn index (signedTXs st)
                            ++ map (buildTransaction this (blockhash bh))
                                 (skipn index sets))
               = map (buildTransaction this (blockhash bh)) (skipn index sets)).
  { rewrite <- (Nat.add_0_r index) at 1. rewrite <- Hf at 1.
    rewrite skipn_app_exact. reflexivity. }
  assert (Hfi : firstn index (firstn index (signedTXs st)
                              ++ map (buildTransaction this (blockhash bh))
                                   (skipn index sets))
                = firstn index (signedTXs st)).
  { rewrite <- (Nat.add_0_r index) at 1. rewrite <- Hf at 1.
    rewrite firstn_app_exact. cbn. apply app_nil_r. }
  rewrite Hs, Hfi. rewrite map_map.
  rewrite (map_ext _ _ (walletSign_build (blockhash bh))).
  unfold rebuiltTXs, rebuiltUnsigned, rebuiltEntry, reSignCb, reSignEvents, emit.
  fold sets.
  assert (Hn : forall l : list Transaction,
             nth_error (skipn index (firstn index (signedTXs st) ++ l)) 0
             = nth_error (firstn index (signedTXs st) ++ l) index).
  { intro l. rewrite nth_error_skipn. now rewrite Nat.add_0_r. }
  destruct (walletSignsInPlace net); rewrite Hn;
    destruct (onReSignCallback this); cbn; rewrite <- ?app_assoc; reflexivity.
Qed.

(** The same call when a group from the index on has no operations: the
    observer has been called, the groups before the empty one have been
    built and written, and the call throws before the wallet is asked. *)
Lemma signAndRebuild_thrown (index : nat) (bh : BlockhashInfo) (attempt : Z)
    (st : Run) :
  (index <= length (signedTXs st))%nat ->
  rebuildThrows this index = true ->
  signAndRebuildTransactionsFromInstructionSets this net index bh attempt st
  = (inl (JsError "No instructions"),
     {| slot := slot st; currentBlock := currentBlock st;
        signedTXs := partlyRebuiltTXs this index (blockhash bh) (signedTXs st);
        successfulItems := successfulItems st;
        tx := tx st; retryNumber := retryNumber st;
        world :=
          {| nSlot := nSlot (world st); nBlockhash := nBlockhash (world st);
             nSend := nSend (world st);
             trace := trace (world st) ++ reSignEvents this attempt index |} |}).
Proof.
  intros Hi Hth.
  unfold rebuildThrows in Hth. apply negb_true_iff in Hth. fold sets in Hth.
  unfold signAndRebuildTransactionsFromInstructionSets.
  fold sets.
  rewrite rebuildLoop_spec by assumption.
  rewrite Hth.
  unfold partlyRebuiltTXs, reSignCb, reSignEvents, emit. fold sets.
  destruct st as [s0 b0 txs n0 t0 r0 [ns nb nd tr]].
  destruct (onReSignCallback this); cbn; rewrite ?app_nil_r; reflexivity.
Qed.


End Rebuild.

(** ** One attempt, and [onRetry] *)

Section Attempt.

Variable this : SmartInstructionSender.
Variable net : Network.

Let sets := theInstructionSets this.
Let cfg := configuration this.

(** An attempt whose submission fails: nothing but the submission happens,
    and the error is classified. *)
Lemma attemptFn_failed (i : nat) (num : Z) (st : Run) (e : SendError) :
  let r := sendAt net (nSend (world st)) (tx st) in
  err r = Some e ->
  attemptFn this net i num st
  = (if String.eqb (err_type e) "timeout"
        && (maxSigningAttempts cfg <=? retryNumber st + 1)
     then Bailed (JsError "MAX_RESIGN_ATTEMPTS_REACHED")
     else if String.eqb (err_type e) "timeout" then Threw (TxError e)
     else Bailed (TxError e),
     afterSend i r st).
Proof.
  intros r He. unfold attemptFn, sendSignedTransaction. simpl.
  fold r. rewrite He. fold cfg.
  destruct (String.eqb (err_type e) "timeout"); simpl.
  - destruct (maxSigningAttempts cfg <=? retryNumber st + 1); reflexivity.
  - destruct (String.eqb (err_type e) "misc-error"); reflexivity.
Qed.

(** An accepted attempt without drift, or at the last index. *)
Lemma attemptFn_accepted (i : nat) (num : Z) (st : Run) :
  let r := sendAt net (nSend (world st)) (tx st) in
  err r = None ->
  result_slot r < slot st + 150 \/ (length (signedTXs st) <= S i)%nat ->
  attemptFn this net i num st = (Resolved, afterAccept this i r st).
Proof.
  intros r He Hno. unfold attemptFn, sendSignedTransaction. simpl.
  fold r. rewrite He.
  unfold afterAccept, progressCb, progressEvents, emit.
  destruct (slot st + 150 <=? result_slot r) eqn:Hd.
  - destruct Hno as [Hno|Hno]; [apply Z.leb_le in Hd; lia|].
    rewrite length_skipn.
    replace (0 <? length (signedTXs st) - (i + 1))%nat with false
      by (symmetry; apply Nat.ltb_ge; lia).
    destruct (onProgressCallback this); simpl; rewrite <- ?app_assoc; reflexivity.
  - destruct (onProgressCallback this); simpl; rewrite <- ?app_assoc;
      try rewrite app_nil_r; reflexivity.
Qed.

(** An accepted attempt with drift and a later index, when every group after
    [i] has operations: the pair is fetched, the baseline replaced, the
    indices after [i] rebuilt, and the wallet asked. *)
Lemma attemptFn_accepted_reanchor (i : nat) (num : Z) (st : Run) :
  let r := sendAt net (nSend (world st)) (tx st) in
  err r = None ->
  slot st + 150 <= result_slot r ->
  (S i < length (signedTXs st))%nat ->
  (length (signedTXs st) <= length sets)%nat ->
  rebuildThrows this (S i) = false ->
  attemptFn this net i num st = (Resolved, afterAcceptReanchored this net i r st).
Proof.
  intros r He Hd Hi Hlen Hth. unfold attemptFn, sendSignedTransaction. cbn.
  fold r. rewrite He.
  apply Z.leb_le in Hd. rewrite Hd.
  rewrite length_skipn, Nat.add_1_r.
  destruct (length (signedTXs st) - S i)%nat eqn:E; [lia|].
  unfold getSlotAndCurrentBlockHash, getSlot, getLatestBlockhash,
    progressCb, emit.
  destruct (onProgressCallback this) eqn:Hp; cbn;
    (rewrite signAndRebuild_spec by (cbn; fold sets; first [lia|assumption]));
    unfold afterAcceptReanchored, progressEvents; rewrite Hp; cbn;
    rewrite <- ?app_assoc; reflexivity.
Qed.

(** The same attempt when a group after [i] has no operations: the pair is
    fetched and the baseline replaced, the rebuild throws, and so does the
    attempt, after the submission was accepted and counted. *)
Lemma attemptFn_accepted_thrown (i : nat) (num : Z) (st : Run) :
  let r := sendAt net (nSend (world st)) (tx st) in
  err r = None ->
  slot st + 150 <= result_slot r ->
  (S i < length (signedTXs st))%nat ->
  rebuildThrows this (S i) = true ->
  attemptFn this net i num st
  = (Threw (JsError "No instructions"), afterAcceptThrown this net i r st).
Proof.
  intros r He Hd Hi Hth. unfold attemptFn, sendSignedTransaction. cbn.
  fold r. rewrite He.
  apply Z.leb_le in Hd. rewrite Hd.
  rewrite length_skipn, Nat.add_1_r.
  destruct (length (signedTXs st) - S i)%nat eqn:E; [lia|].
  unfold getSlotAndCurrentBlockHash, getSlot, getLatestBlockhash,
    progressCb, emit.
  destruct (onProgressCallback this) eqn:Hp; cbn;
    (rewrite signAndRebuild_thrown by (cbn; first [lia|assumption]));
    unfold afterAcceptThrown, progressEvents; rewrite Hp; cbn;
    rewrite <- ?app_assoc; reflexivity.
Qed.

(** The ways an attempt can go. *)
Lemma attemptFn_cases (i : nat) (num : Z) (st : Run) :
  (length (signedTXs st) <= length sets)%nat ->
  let r := sendAt net (nSend (world st)) (tx st) in
  (exists e, err r = Some e /\
     attemptFn this net i num st
     = (if String.eqb (err_type e) "timeout"
           && (maxSigningAttempts cfg <=? retryNumber st + 1)
        then Bailed (JsError "MAX_RESIGN_ATTEMPTS_REACHED")
        else if String.eqb (err_type e) "timeout" then Threw (TxError e)
        else Bailed (TxError e),
        afterSend i r st))
  \/ (err r = None /\
      (result_slot r < slot st + 150 \/ (length (signedTXs st) <= S i)%nat) /\
      attemptFn this net i num st = (Resolved, afterAccept this i r st))
  \/ (err r = None /\
      slot st + 150 <= result_slot r /\ (S i < length (signedTXs st))%nat /\
      rebuildThrows this (S i) = false /\
      attemptFn this net i num st
      = (Resolved, afterAcceptReanchored this net i r st))
  \/ (err r = None /\
      slot st + 150 <= result_slot r /\ (S i < length (signedTXs st))%nat /\
      rebuildThrows this (S i) = true /\
      attemptFn this net i num st
      = (Threw (JsError "No instructions"), afterAcceptThrown this net i r st)).
Proof.
  intros Hlen r. destruct (err r) as [e|] eqn:He.
  - left. exists e. split; [reflexivity|].
    apply attemptFn_failed. exact He.
  - right.
    destruct (Z.lt_ge_cases (result_slot r) (slot st + 150)) as [Hd|Hd].
    + left. repeat split; [now left|]. apply attemptFn_accepted; auto.
    + destruct (Nat.lt_ge_cases (S i) (length (signedTXs st))) as [Hi|Hi].
      * right. destruct (rebuildThrows this (S i)) eqn:Hth.
        -- right. repeat split; try assumption.
           apply attemptFn_accepted_thrown; assumption.
        -- left. repeat split; try assumption.
           apply attemptFn_accepted_reanchor; assumption.
      * left. repeat split; [now right|]. apply attemptFn_accepted; auto.
Qed.

(** [onRetry] after an error that is no timeout. *)
Lemma onRetry_other (i : nat) (e : Thrown) (attempt : Z) (st : Run) :
  thrown_is_timeout e = false -> onRetry this net i e attempt st = Some st.
Proof. intros H. unfold onRetry. rewrite H. reflexivity. Qed.

(** [onRetry] after a timeout. *)
Lemma onRetry_timeout (i : nat) (e : Thrown) (attempt : Z) (st : Run) :
  thrown_is_timeout e = true ->
  onRetry this net i e attempt st
  = if onRetryInTime net (nSlot (world st))
    then Some (onRetryBody this net i attempt st) else None.
Proof. intros H. unfold onRetry. rewrite H. reflexivity. Qed.

(** The body of [onRetry] without drift. *)
Lemma onRetryBody_no_drift (i : nat) (attempt : Z) (st : Run) :
  slotAt net (nSlot (world st)) < slot st + 150 ->
  onRetryBody this net i attempt st = afterRetryCheck this net st.
Proof.
  intros Hd. unfold onRetryBody, getSlot. simpl.
  replace (slot st + 150 <=? slotAt net (nSlot (world st))) with false
    by (symmetry; apply Z.leb_gt; lia).
  reflexivity.
Qed.

(** The body of [onRetry] with drift, when every group from [i] on has
    operations. *)
Lemma onRetryBody_drift (i : nat) (attempt : Z) (st : Run) :
  slot st + 150 <= slotAt net (nSlot (world st)) ->
  (i <= length (signedTXs st))%nat ->
  (length (signedTXs st) <= length sets)%nat ->
  rebuildThrows this i = false ->
  onRetryBody this net i attempt st = afterRetryReanchored this net i attempt st.
Proof.
  intros Hd Hi Hlen Hth. unfold onRetryBody, getSlot. cbn.
  apply Z.leb_le in Hd. rewrite Hd.
  unfold getSlotAndCurrentBlockHash, getSlot, getLatestBlockhash. cbn.
  rewrite signAndRebuild_spec by (simpl; fold sets; first [lia|assumption]).
  unfold afterRetryReanchored, emit. simpl.
  rewrite <- ?app_assoc. reflexivity.
Qed.

(** The body of [onRetry] with drift, when a group from [i] on has no
    operations: the rebuild throws, and [tx] stays. *)
Lemma onRetryBody_drift_thrown (i : nat) (attempt : Z) (st : Run) :
  slot st + 150 <= slotAt net (nSlot (world st)) ->
  (i <= length (signedTXs st))%nat ->
  rebuildThrows this i = true ->
  onRetryBody this net i attempt st = afterRetryThrown this net i attempt st.
Proof.
  intros Hd Hi Hth. unfold onRetryBody, getSlot. cbn.
  apply Z.leb_le in Hd. rewrite Hd.
  unfold getSlotAndCurrentBlockHash, getSlot, getLatestBlockhash. cbn.
  rewrite signAndRebuild_thrown by (simpl; first [lia|assumption]).
  unfold afterRetryThrown, emit. simpl.
  rewrite <- ?app_assoc. reflexivity.
Qed.

End Attempt.

(** ** Traces *)

Lemma count_app (p : Event -> bool) (l1 l2 : list Event) :
  count p (l1 ++ l2) = (count p l1 + count p l2)%nat.
Proof. unfold count. rewrite filter_app. apply length_app. Qed.

Lemma count_cons (p : Event -> bool) (ev : Event) (l : list Event) :
  count p (ev :: l) = ((if p ev then 1 else 0) + count p l)%nat.
Proof. unfold count. simpl. destruct (p ev); reflexivity. Qed.

Lemma count_nil (p : Event -> bool) : count p [] = 0%nat.
Proof. reflexivity. Qed.

(** Counts over a trace written with [++] and [::]. *)
Ltac count_cases :=
  unfold progressEvents, reSignEvents, failureEvents;
  repeat match goal with
         | |- context [if ?b then [_] else []] => destruct b
         end;
  repeat (rewrite count_app || rewrite count_cons || rewrite count_nil);
  cbn [is_accepted is_send is_failure is_send_of accepted_below].

Lemma progress_calls_app (l1 l2 : list Event) :
  progress_calls (l1 ++ l2) = progress_calls l1 ++ progress_calls l2.
Proof.
  induction l1 as [|ev l1 IH]; simpl; [reflexivity|].
  destruct ev; simpl; rewrite ?IH; reflexivity.
Qed.

Lemma count_below_accepted (i : nat) (l : list Event) :
  Forall (index_below i) l ->
  count (accepted_below i) l = count is_accepted l.
Proof.
  induction 1 as [|ev l Hev Hl IH]; [reflexivity|].
  rewrite !count_cons, IH. f_equal.
  destruct ev; cbn [accepted_below is_accepted]; try reflexivity.
  unfold index_below in Hev. cbn [event_index] in Hev.
  destruct (err r); [reflexivity|].
  replace (i0 <? i)%nat with true by (symmetry; apply Nat.ltb_lt; exact Hev).
  reflexivity.
Qed.

Lemma count_accepted_below_none (i : nat) (l : list Event) :
  count is_accepted l = 0%nat -> count (accepted_below i) l = 0%nat.
Proof.
  induction l as [|ev l IH]; [reflexivity|].
  rewrite !count_cons. intros H.
  rewrite IH by lia.
  destruct ev; cbn [accepted_below is_accepted] in *; try reflexivity.
  destruct (err r); [reflexivity|]. lia.
Qed.

Lemma index_below_weaken (i j : nat) (l : list Event) :
  (i <= j)%nat -> Forall (index_below i) l -> Forall (index_below j) l.
Proof.
  intros Hij. apply Forall_impl. intros ev. unfold index_below.
  destruct (event_index ev); [lia|auto].
Qed.

(** Splits a statement over a trace written as a concatenation, and settles
    the entries of the observers by cases on their registration. *)
Ltac trace_cases :=
  unfold progressEvents, reSignEvents, failureEvents;
  repeat match goal with
         | |- context [if ?b then [_] else []] => destruct b
         end;
  cbn [app];
  repeat match goal with
         | |- Forall _ (_ ++ _) => apply Forall_app; split
         | |- Forall _ [] => constructor
         | |- Forall _ (_ :: _) => constructor
         end.

Ltac index_goal := unfold index_below; cbn; first [exact I | lia].

Ltac split_attempt :=
  unfold AttemptInv;
  refine (conj _ (conj _ (conj _ (conj _ (conj _ _))))).

(** ** The invariants hold along every run *)

Section InvariantProofs.

Variable this : SmartInstructionSender.
Variable net : Network.

Let sets := theInstructionSets this.
Let cfg := configuration this.

(** *** How an attempt can end *)

Lemma attempt_threw (i : nat) (num : Z) (st st1 : Run) (e : Thrown) :
  (length (signedTXs st) <= length sets)%nat ->
  attemptFn this net i num st = (Threw e, st1) ->
  let r := sendAt net (nSend (world st)) (tx st) in
  (exists se,
     err r = Some se /\ e = TxError se /\
     String.eqb (err_type se) "timeout" = true /\
     retryNumber st + 1 < maxSigningAttempts cfg /\
     st1 = afterSend i r st)
  \/ (err r = None /\
      slot st + 150 <= result_slot r /\ (S i < length (signedTXs st))%nat /\
      rebuildThrows this (S i) = true /\
      e = JsError "No instructions" /\
      st1 = afterAcceptThrown this net i r st).
Proof.
  intros Hlen H r.
  destruct (attemptFn_cases this net i num st Hlen)
    as [(se & He & Hc)|[(_ & _ & Hc)|[(_ & _ & _ & _ & Hc)
                                     |(He & Hd & Hi & Hth & Hc)]]];
    rewrite Hc in H; try discriminate.
  - left. exists se. fold r in H. fold cfg in H.
    destruct (String.eqb (err_type se) "timeout") eqn:Ht; simpl in H.
    + destruct (maxSigningAttempts cfg <=? retryNumber st + 1) eqn:Hm;
        [discriminate|].
      apply Z.leb_gt in Hm. inversion H. subst. auto 7.
    + discriminate.
  - right. inversion H. subst. auto 7.
Qed.

Lemma attempt_bailed (i : nat) (num : Z) (st st1 : Run) (e : Thrown) :
  (length (signedTXs st) <= length sets)%nat ->
  attemptFn this net i num st = (Bailed e, st1) ->
  let r := sendAt net (nSend (world st)) (tx st) in
  exists se,
    err r = Some se /\ st1 = afterSend i r st /\
    ((e = JsError "MAX_RESIGN_ATTEMPTS_REACHED" /\
      String.eqb (err_type se) "timeout" = true /\
      maxSigningAttempts cfg <= retryNumber st + 1)
     \/ (e = TxError se /\ String.eqb (err_type se) "timeout" = false)).
Proof.
  intros Hlen H r.
  destruct (attemptFn_cases this net i num st Hlen)
    as [(se & He & Hc)|[(_ & _ & Hc)|[(_ & _ & _ & _ & Hc)
                                     |(_ & _ & _ & _ & Hc)]]];
    rewrite Hc in H; try discriminate.
  exists se. fold r in H. fold cfg in H.
  destruct (String.eqb (err_type se) "timeout") eqn:Ht; simpl in H.
  - destruct (maxSigningAttempts cfg <=? retryNumber st + 1) eqn:Hm;
      [|discriminate].
    apply Z.leb_le in Hm. inversion H. subst. auto 7.
  - inversion H. subst. auto 7.
Qed.

Lemma attempt_resolved (i : nat) (num : Z) (st st1 : Run) :
  (length (signedTXs st) <= length sets)%nat ->
  attemptFn this net i num st = (Resolved, st1) ->
  let r := sendAt net (nSend (world st)) (tx st) in
  err r = None /\
  ((st1 = afterAccept this i r st /\
    (result_slot r < slot st + 150 \/ (length (signedTXs st) <= S i)%nat))
   \/ (st1 = afterAcceptReanchored this net i r st /\
       slot st + 150 <= result_slot r /\ (S i < length (signedTXs st))%nat /\
       rebuildThrows this (S i) = false)).
Proof.
  intros Hlen H r.
  destruct (attemptFn_cases this net i num st Hlen)
    as [(se & He & Hc)|[(He & Hd & Hc)|[(He & Hd & Hi & Hth & Hc)
                                       |(_ & _ & _ & _ & Hc)]]];
    rewrite Hc in H; try discriminate.
  - fold r in H. fold cfg in H.
    destruct (String.eqb (err_type se) "timeout"); simpl in H;
      [destruct (maxSigningAttempts cfg <=? retryNumber st + 1)|];
      discriminate.
  - inversion H. auto.
  - inversion H. auto 7.
Qed.

(** *** Each shape of state keeps [RunInv] *)

Lemma RunInv_afterSend (i : nat) (r : SendResult) (st : Run) (e : SendError) :
  RunInv this net st -> err r = Some e -> RunInv this net (afterSend i r st).
Proof.
  intros [Hl Hs Hf Ha Hb] He. constructor; cbn; auto.
  - count_cases. rewrite He, Hs. lia.
  - trace_cases; cbn; auto.
Qed.

Lemma RunInv_afterAccept (i : nat) (r : SendResult) (st : Run) :
  RunInv this net st -> err r = None -> RunInv this net (afterAccept this i r st).
Proof.
  intros [Hl Hs Hf Ha Hb] He. constructor; cbn; auto.
  - count_cases; rewrite He, Hs; lia.
  - trace_cases; cbn; auto.
Qed.

Lemma RunInv_afterAcceptReanchored (i : nat) (r : SendResult) (st : Run) :
  RunInv this net st -> err r = None -> (S i < length (signedTXs st))%nat ->
  RunInv this net (afterAcceptReanchored this net i r st).
Proof.
  intros [Hl Hs Hf Ha Hb] He Hi. constructor; cbn; auto.
  - rewrite rebuiltTXs_length; unfold sets; lia.
  - count_cases; rewrite He, Hs; lia.
  - trace_cases; cbn; auto.
Qed.

Lemma RunInv_afterAcceptThrown (i : nat) (r : SendResult) (st : Run) :
  RunInv this net st -> err r = None -> (S i < length (signedTXs st))%nat ->
  RunInv this net (afterAcceptThrown this net i r st).
Proof.
  intros [Hl Hs Hf Ha Hb] He Hi. constructor; cbn; auto.
  - apply partlyRebuiltTXs_bound; [lia|exact Hl].
  - count_cases; rewrite He, Hs; lia.
  - trace_cases; cbn; auto.
Qed.

Lemma RunInv_afterRetryCheck (st : Run) :
  RunInv this net st -> RunInv this net (afterRetryCheck this net st).
Proof.
  intros [Hl Hs Hf Ha Hb]. constructor; cbn; auto.
  - count_cases. rewrite Hs. lia.
  - trace_cases; cbn; auto.
Qed.

Lemma RunInv_afterRetryReanchored (i : nat) (attempt : Z) (st : Run) :
  RunInv this net st -> (i <= length (signedTXs st))%nat ->
  RunInv this net (afterRetryReanchored this net i attempt st).
Proof.
  intros [Hl Hs Hf Ha Hb] Hi. constructor; cbn; auto.
  - rewrite rebuiltTXs_length; unfold sets; lia.
  - count_cases; rewrite Hs; lia.
  - trace_cases; cbn; auto.
Qed.

Lemma RunInv_afterRetryThrown (i : nat) (attempt : Z) (st : Run) :
  RunInv this net st -> (i <= length (signedTXs st))%nat ->
  RunInv this net (afterRetryThrown this net i attempt st).
Proof.
  intros [Hl Hs Hf Ha Hb] Hi. constructor; cbn; auto.
  - apply partlyRebuiltTXs_bound; [lia|exact Hl].
  - count_cases; rewrite Hs; lia.
  - trace_cases; cbn; auto.
Qed.

Lemma RunInv_reportFailure (e : Thrown) (i : nat) (st : Run) :
  RunInv this net st -> RunInv this net (reportFailure this e i st).
Proof.
  intros [Hl Hs Hf Ha Hb]. unfold reportFailure, failureCb, emit.
  destruct (onFailureCallback this); constructor; cbn; auto.
  - count_cases. rewrite Hs. lia.
  - trace_cases; cbn; auto.
Qed.

(** *** [retry] and [mainError] *)

Lemma retry_unfold {St : Type} (k : nat) (num : Z) (errors : list Thrown)
    (fn : Z -> St -> FnResult * St) (onR : Thrown -> Z -> St -> option St)
    (st : St) :
  retry k num errors fn onR st
  = (let '(r, st1) := fn num st in
     match r with
     | Resolved => (Fulfilled, st1)
     | Bailed e => (Rejected e, st1)
     | Threw e =>
         if thrown_bail e then (Rejected e, st1)
         else
           match k with
           | O =>
               (Rejected match mainError (errors ++ [e]) with
                         | Some m => m
                         | None => e
                         end, st1)
           | S k' =>
               match onR e num st1 with
               | Some st2 => retry k' (num + 1) (errors ++ [e]) fn onR st2
               | None => (Overlapped, st1)
               end
           end
     end).
Proof. destruct k; reflexivity. Qed.

Lemma mainErrorLoop_In (rest : list Thrown) :
  forall seen main c e,
    mainErrorLoop seen rest main c = Some e ->
    main = Some e \/ In e rest.
Proof.
  induction rest as [|x rest IH]; intros seen main c e H; cbn in H;
    [left; exact H|].
  destruct (c <=? S (occurrences (message_key x) seen))%nat;
    apply IH in H; destruct H as [H|H]; auto.
  - injection H as ->. right. now left.
  - right. now right.
  - right. now right.
Qed.

(** The main error is one of the errors that were thrown. *)
Lemma mainError_In (errors : list Thrown) (e : Thrown) :
  mainError errors = Some e -> In e errors.
Proof.
  unfold mainError. intros H. apply mainErrorLoop_In in H.
  destruct H as [H|H]; [discriminate|exact H].
Qed.

Lemma mainError_retried (errors : list Thrown) (e : Thrown) :
  Forall retried_error errors -> retried_error e ->
  retried_error match mainError (errors ++ [e]) with
                | Some m => m
                | None => e
                end.
Proof.
  intros Herr He. destruct (mainError (errors ++ [e])) as [m|] eqn:Hm;
    [|exact He].
  apply mainError_In in Hm. apply in_app_or in Hm.
  destruct Hm as [Hm|[<-|[]]]; [|exact He].
  rewrite Forall_forall in Herr. apply Herr. exact Hm.
Qed.

(** *** The invariants at the program points *)

Lemma HeadInv_initial (sets0 : list InstructionSet) :
  instructionSets this = Some sets0 ->
  HeadInv this net 0 (initialRun this net sets0).
Proof.
  intros Hs.
  assert (Hsets : theInstructionSets this = sets0)
    by (unfold theInstructionSets; rewrite Hs; reflexivity).
  unfold initialRun. split.
  - constructor; cbn; auto.
    + rewrite Hsets, !length_map. apply filter_length_le.
    + repeat constructor.
  - cbn. repeat constructor.
Qed.

Lemma AttemptInv_enter (i : nat) (st : Run) :
  HeadInv this net i st -> (i < length (signedTXs st))%nat ->
  AttemptInv this net i (Z.to_nat (maxSigningAttempts cfg)) 1 (enterItem i st).
Proof.
  intros ([Hl Hs Hf Ha Hb] & Hidx) Hi.
  split_attempt; cbn; auto; try lia.
  - constructor; cbn; auto.
  - eapply index_below_weaken; [|exact Hidx]. lia.
Qed.

(** A timeout is thrown only while the bound leaves a retry. *)
Lemma timeout_retries_left (i k : nat) (num : Z) (st : Run) :
  AttemptInv this net i k num st ->
  retryNumber st + 1 < maxSigningAttempts cfg ->
  (0 < k)%nat.
Proof.
  intros (_ & _ & _ & Hr & Hk & Hnum) Hlt. fold cfg in Hk. lia.
Qed.

Section NextAttempt.

Variables (i k : nat) (num : Z) (st : Run).
Hypothesis Hinv : AttemptInv this net i (S k) num st.

Let r := sendAt net (nSend (world st)) (tx st).

Lemma AttemptInv_afterRetryCheck (se : SendError) :
  err r = Some se ->
  AttemptInv this net i k (num + 1)
    (afterRetryCheck this net (afterSend i r st)).
Proof.
  destruct Hinv as (Hrun & Hidx & Hi & Hr & Hk & Hnum). intros He.
  split_attempt; unfold cfg; try (cbn; auto; lia).
  - eapply RunInv_afterRetryCheck, RunInv_afterSend; eauto.
  - cbn. trace_cases; auto; index_goal.
Qed.

Lemma AttemptInv_afterRetryReanchored (se : SendError) (attempt : Z) :
  err r = Some se ->
  AttemptInv this net i k (num + 1)
    (afterRetryReanchored this net i attempt (afterSend i r st)).
Proof.
  destruct Hinv as (Hrun & Hidx & Hi & Hr & Hk & Hnum). intros He.
  assert (Hlen : (length (signedTXs st) <= length sets)%nat) by apply Hrun.
  split_attempt; unfold cfg; try (cbn; auto; lia).
  - eapply RunInv_afterRetryReanchored; [eapply RunInv_afterSend; eauto|].
    cbn. lia.
  - cbn. trace_cases; auto; index_goal.
  - cbn. rewrite rebuiltTXs_length; unfold sets in *; lia.
Qed.

Lemma AttemptInv_afterRetryThrown (se : SendError) (attempt : Z) :
  err r = Some se ->
  AttemptInv this net i k (num + 1)
    (afterRetryThrown this net i attempt (afterSend i r st)).
Proof.
  destruct Hinv as (Hrun & Hidx & Hi & Hr & Hk & Hnum). intros He.
  assert (Hlen : (length (signedTXs st) <= length sets)%nat) by apply Hrun.
  split_attempt; unfold cfg; try (cbn; auto; lia).
  - eapply RunInv_afterRetryThrown; [eapply RunInv_afterSend; eauto|].
    cbn. lia.
  - cbn. trace_cases; auto; index_goal.
  - cbn.
    pose proof (@partlyRebuiltTXs_bound this i
                  (blockhash (latestBlockhashAt net (nBlockhash (world st))))
                  (signedTXs st) ltac:(lia) Hlen).
    lia.
Qed.

Lemma AttemptInv_afterAcceptThrown :
  err r = None -> (S i < length (signedTXs st))%nat ->
  AttemptInv this net i k (num + 1) (afterAcceptThrown this net i r st).
Proof.
  destruct Hinv as (Hrun & Hidx & Hi & Hr & Hk & Hnum). intros He Hnext.
  assert (Hlen : (length (signedTXs st) <= length sets)%nat) by apply Hrun.
  split_attempt; unfold cfg; try (cbn; auto; lia).
  - apply RunInv_afterAcceptThrown; assumption.
  - cbn. trace_cases; auto; index_goal.
  - cbn.
    pose proof (@partlyRebuiltTXs_bound this (S i)
                  (blockhash (latestBlockhashAt net (nBlockhash (world st))))
                  (signedTXs st) ltac:(lia) Hlen).
    lia.
Qed.

End NextAttempt.

Section EndOfItem.

Variables (i k : nat) (num : Z) (st : Run).
Hypothesis Hinv : AttemptInv this net i k num st.

Let r := sendAt net (nSend (world st)) (tx st).

Lemma HeadInv_afterAccept :
  err r = None -> HeadInv this net (S i) (afterAccept this i r st).
Proof.
  destruct Hinv as (Hrun & Hidx & Hi & _). intros He. split.
  - apply RunInv_afterAccept; assumption.
  - cbn. trace_cases; auto; index_goal.
Qed.

Lemma HeadInv_afterAcceptReanchored :
  err r = None -> (S i < length (signedTXs st))%nat ->
  HeadInv this net (S i) (afterAcceptReanchored this net i r st).
Proof.
  destruct Hinv as (Hrun & Hidx & Hi & _). intros He Hnext. split.
  - apply RunInv_afterAcceptReanchored; assumption.
  - cbn. trace_cases; auto; index_goal.
Qed.

Lemma HeadInv_failure (se : SendError) (e : Thrown) :
  err r = Some se ->
  HeadInv this net (S i) (reportFailure this e i (afterSend i r st)).
Proof.
  destruct Hinv as (Hrun & Hidx & Hi & _). intros He. split.
  - eapply RunInv_reportFailure, RunInv_afterSend; eauto.
  - unfold reportFailure, failureCb, emit.
    destruct (onFailureCallback this); cbn;
      trace_cases; auto; index_goal.
Qed.

Lemma HeadInv_exhausted (e : Thrown) :
  err r = None -> (S i < length (signedTXs st))%nat ->
  HeadInv this net (S i)
    (reportFailure this e i (afterAcceptThrown this net i r st)).
Proof.
  destruct Hinv as (Hrun & Hidx & Hi & _). intros He Hnext. split.
  - apply RunInv_reportFailure, RunInv_afterAcceptThrown; assumption.
  - unfold reportFailure, failureCb, emit.
    destruct (onFailureCallback this); cbn;
      trace_cases; auto; index_goal.
Qed.

End EndOfItem.

End InvariantProofs.

(** ** Where the loop ends *)

Section LoopEnds.

Variable this : SmartInstructionSender.
Variable net : Network.

Lemma sendLoop_unfold (fuel i : nat) (st : Run) :
  sendLoop this net fuel i st
  = if (i <? length (signedTXs st))%nat then
      match fuel with
      | O => OutOfFuel
      | S fuel' =>
          let '(step, st') := sendItem this net i st in
          match step with
          | Break => Returns st'
          | Continue => sendLoop this net fuel' (S i) st'
          | Overlap => Overlaps (world st')
          end
      end
    else Returns st.
Proof. destruct fuel; reflexivity. Qed.

(** Where the loop can end: at a head whose test fails, or at a [break]. *)
Lemma sendLoop_final :
  forall (fuel i : nat) (st st' : Run),
    LoopHead this net i st ->
    sendLoop this net fuel i st = Returns st' ->
    (exists j, LoopHead this net j st' /\ (length (signedTXs st') <= j)%nat)
    \/ (exists j st0,
          LoopHead this net j st0 /\ (j < length (signedTXs st0))%nat /\
          sendItem this net j st0 = (Break, st')).
Proof.
  induction fuel as [|fuel IH]; intros i st st' Hh Hrun;
    rewrite sendLoop_unfold in Hrun;
    destruct (i <? length (signedTXs st))%nat eqn:Hi;
    try discriminate;
    try (apply Nat.ltb_ge in Hi; inversion Hrun; subst; left; eauto).
  apply Nat.ltb_lt in Hi.
  destruct (sendItem this net i st) as [[| |] st1] eqn:Hstep.
  - eapply IH; [|exact Hrun]. eapply LoopHead_next; eauto.
  - inversion Hrun; subst. right. eauto.
  - discriminate.
Qed.

Lemma send_final (st' : Run) :
  send this net = Returns st' ->
  (exists j, LoopHead this net j st' /\ (length (signedTXs st') <= j)%nat)
  \/ (exists j st0,
        LoopHead this net j st0 /\ (j < length (signedTXs st0))%nat /\
        sendItem this net j st0 = (Break, st')).
Proof.
  destruct (wallet_publicKey this) as [pk|] eqn:Hw;
    [|unfold send; rewrite Hw; discriminate].
  destruct (instructionSets this) as [[|g sets0]|] eqn:Hs;
    try (unfold send; rewrite Hw, Hs; discriminate).
  rewrite (send_unfold this net Hw Hs) by discriminate.
  intros Hrun.
  eapply sendLoop_final; [|exact Hrun].
  eapply LoopHead_first; eauto. discriminate.
Qed.

End LoopEnds.

(** ** Induction over a run *)

(** Three properties of the variables, [H] at the head of the loop, [A] at
    the start of an attempt and [F] after the [catch] block, that every
    step of a run hands on, hold wherever a run gets; the invariants come
    along.  The steps are those of the program: a timeout that is retried
    (without drift, with drift, with drift and a rebuild that throws), an
    accepted attempt whose rebuild throws and that is run again, an
    accepted attempt that ends the item (without or with a rebuild), and
    the failures. *)

Section RunInduction.

Variable this : SmartInstructionSender.
Variable net : Network.
Variables H A : nat -> Run -> Prop.
Variable F : nat -> Thrown -> Run -> Prop.

Let cfg := configuration this.

Hypothesis H_first :
  forall pk sets,
    wallet_publicKey this = Some pk ->
    instructionSets this = Some sets ->
    sets <> [] ->
    H 0 (initialRun this net sets).

Hypothesis A_enter :
  forall i st,
    HeadInv this net i st -> (i < length (signedTXs st))%nat ->
    H i st -> A i (enterItem i st).

Hypothesis A_check :
  forall i k num st se,
    AttemptInv this net i (S k) num st -> A i st ->
    err (sendAt net (nSend (world st)) (tx st)) = Some se ->
    String.eqb (err_type se) "timeout" = true ->
    err_bail se = false ->
    retryNumber st + 1 < maxSigningAttempts cfg ->
    onRetryInTime net (nSlot (world st)) = true ->
    slotAt net (nSlot (world st)) < slot st + 150 ->
    A i (afterRetryCheck this net
           (afterSend i (sendAt net (nSend (world st)) (tx st)) st)).

Hypothesis A_reanchor :
  forall i k num st se,
    AttemptInv this net i (S k) num st -> A i st ->
    err (sendAt net (nSend (world st)) (tx st)) = Some se ->
    String.eqb (err_type se) "timeout" = true ->
    err_bail se = false ->
    retryNumber st + 1 < maxSigningAttempts cfg ->
    onRetryInTime net (nSlot (world st)) = true ->
    slot st + 150 <= slotAt net (nSlot (world st)) ->
    rebuildThrows this i = false ->
    A i (afterRetryReanchored this net i num
           (afterSend i (sendAt net (nSend (world st)) (tx st)) st)).

Hypothesis A_reanchor_thrown :
  forall i k num st se,
    AttemptInv this net i (S k) num st -> A i st ->
    err (sendAt net (nSend (world st)) (tx st)) = Some se ->
    String.eqb (err_type se) "timeout" = true ->
    err_bail se = false ->
    retryNumber st + 1 < maxSigningAttempts cfg ->
    onRetryInTime net (nSlot (world st)) = true ->
    slot st + 150 <= slotAt net (nSlot (world st)) ->
    rebuildThrows this i = true ->
    A i (afterRetryThrown this net i num
           (afterSend i (sendAt net (nSend (world st)) (tx st)) st)).

Hypothesis A_rerun :
  forall i k num st,
    AttemptInv this net i (S k) num st -> A i st ->
    err (sendAt net (nSend (world st)) (tx st)) = None ->
    slot st + 150 <= result_slot (sendAt net (nSend (world st)) (tx st)) ->
    (S i < length (signedTXs st))%nat ->
    rebuildThrows this (S i) = true ->
    A i (afterAcceptThrown this net i
           (sendAt net (nSend (world st)) (tx st)) st).

Hypothesis H_accept :
  forall i k num st,
    AttemptInv this net i k num st -> A i st ->
    err (sendAt net (nSend (world st)) (tx st)) = None ->
    (result_slot (sendAt net (nSend (world st)) (tx st)) < slot st + 150
     \/ (length (signedTXs st) <= S i)%nat) ->
    H (S i) (afterAccept this i (sendAt net (nSend (world st)) (tx st)) st).

Hypothesis H_reanchor :
  forall i k num st,
    AttemptInv this net i k num st -> A i st ->
    err (sendAt net (nSend (world st)) (tx st)) = None ->
    slot st + 150 <= result_slot (sendAt net (nSend (world st)) (tx st)) ->
    (S i < length (signedTXs st))%nat ->
    rebuildThrows this (S i) = false ->
    H (S i) (afterAcceptReanchored this net i
               (sendAt net (nSend (world st)) (tx st)) st).

Hypothesis F_failure :
  forall i k num st se e,
    AttemptInv this net i k num st -> A i st ->
    err (sendAt net (nSend (world st)) (tx st)) = Some se ->
    ((e = JsError "MAX_RESIGN_ATTEMPTS_REACHED" /\
      String.eqb (err_type se) "timeout" = true /\
      maxSigningAttempts cfg <= retryNumber st + 1)
     \/ (e = TxError se /\ String.eqb (err_type se) "timeout" = false)
     \/ (e = TxError se /\ String.eqb (err_type se) "timeout" = true /\
         err_bail se = true /\
         retryNumber st + 1 < maxSigningAttempts cfg)) ->
    F i e (afterSend i (sendAt net (nSend (world st)) (tx st)) st).

Hypothesis F_exhausted :
  forall i num st e,
    AttemptInv this net i 0 num st -> A i st ->
    err (sendAt net (nSend (world st)) (tx st)) = None ->
    slot st + 150 <= result_slot (sendAt net (nSend (world st)) (tx st)) ->
    (S i < length (signedTXs st))%nat ->
    rebuildThrows this (S i) = true ->
    retried_error e ->
    F i e (afterAcceptThrown this net i
             (sendAt net (nSend (world st)) (tx st)) st).

Hypothesis H_continue :
  forall i e st,
    abortOnFailure cfg = false -> F i e st ->
    H (S i) (reportFailure this e i st).

Lemma retry_run (i : nat) :
  forall (k : nat) (num : Z) (errors : list Thrown) (st st' : Run)
         (res : Settled),
    AttemptInv this net i k num st ->
    Forall retried_error errors ->
    A i st ->
    retry k num errors (attemptFn this net i) (onRetry this net i) st
    = (res, st') ->
    match res with
    | Fulfilled => H (S i) st' /\ HeadInv this net (S i) st'
    | Rejected e =>
        F i e st' /\
        HeadInv this net (S i) (reportFailure this e i st')
    | Overlapped => True
    end.
Proof.
  induction k as [k IH] using lt_wf_ind.
  intros num errors st st' res Hinv Herr HA Hrun.
  assert (Hlen : (length (signedTXs st) <= length (theInstructionSets this))%nat)
    by apply Hinv.
  rewrite retry_unfold in Hrun.
  destruct (attemptFn this net i num st) as [[|e|e] st1] eqn:Ha.
  - (* the attempt returns *)
    inversion Hrun; subst; clear Hrun.
    apply attempt_resolved in Ha; [|exact Hlen].
    destruct Ha as (He & [(-> & Hd)|(-> & Hd & Hnext & Hth)]).
    + split; [eapply H_accept; eassumption|].
      eapply HeadInv_afterAccept; eassumption.
    + split; [eapply H_reanchor; eassumption|].
      eapply HeadInv_afterAcceptReanchored; eassumption.
  - (* the attempt calls [bail] *)
    inversion Hrun; subst; clear Hrun.
    apply attempt_bailed in Ha; [|exact Hlen].
    destruct Ha as (se & He & -> & Hkind).
    split; [eapply F_failure; try eassumption; tauto|].
    eapply HeadInv_failure; eassumption.
  - (* the attempt throws *)
    apply attempt_threw in Ha; [|exact Hlen].
    destruct Ha as [(se & He & -> & Ht & Hlt & ->)
                   |(He & Hd & Hnext & Hth & -> & ->)].
    + (* a timeout below the bound *)
      cbn [thrown_bail] in Hrun.
      destruct (err_bail se) eqn:Hbail.
      { inversion Hrun; subst; clear Hrun.
        split; [eapply F_failure; try eassumption; auto 7|].
        eapply HeadInv_failure; eassumption. }
      pose proof (timeout_retries_left Hinv Hlt) as Hk.
      destruct k as [|k]; [lia|].
      rewrite onRetry_timeout in Hrun by exact Ht.
      cbn [nSlot world afterSend] in Hrun.
      destruct (onRetryInTime net (nSlot (world st))) eqn:Hin;
        [|inversion Hrun; subst; exact I].
      assert (Herr' : Forall retried_error (errors ++ [TxError se])).
      { apply Forall_app. split; [exact Herr|].
        constructor; [|constructor]. right. eauto. }
      destruct (Z.lt_ge_cases (slotAt net (nSlot (world st))) (slot st + 150))
        as [Hdrift|Hdrift].
      * rewrite onRetryBody_no_drift in Hrun by (cbn; exact Hdrift).
        eapply (IH k); [lia| |exact Herr'| |exact Hrun].
        -- eapply AttemptInv_afterRetryCheck; eassumption.
        -- eapply A_check; eassumption.
      * assert (Hi : (i < length (signedTXs st))%nat) by apply Hinv.
        destruct (rebuildThrows this i) eqn:Hth.
        -- rewrite onRetryBody_drift_thrown in Hrun
             by (cbn; first [assumption|lia]).
           eapply (IH k); [lia| |exact Herr'| |exact Hrun].
           ++ eapply AttemptInv_afterRetryThrown; eassumption.
           ++ eapply A_reanchor_thrown; eassumption.
        -- rewrite onRetryBody_drift in Hrun
             by (cbn; first [assumption|lia]).
           eapply (IH k); [lia| |exact Herr'| |exact Hrun].
           ++ eapply AttemptInv_afterRetryReanchored; eassumption.
           ++ eapply A_reanchor; eassumption.
    + (* the rebuild after an acceptance threw *)
      cbn [thrown_bail] in Hrun.
      destruct k as [|k].
      * inversion Hrun; subst; clear Hrun.
        split.
        -- eapply F_exhausted; try eassumption.
           apply mainError_retried; [exact Herr|now left].
        -- eapply HeadInv_exhausted; eassumption.
      * rewrite onRetry_other in Hrun by reflexivity.
        eapply (IH k); [lia| | | |exact Hrun].
        -- eapply AttemptInv_afterAcceptThrown; eassumption.
        -- apply Forall_app. split; [exact Herr|].
           constructor; [now left|constructor].
        -- eapply A_rerun; eassumption.
Qed.

Lemma sendItem_run (i : nat) (st st' : Run) (step : LoopStep) :
  HeadInv this net i st -> (i < length (signedTXs st))%nat -> H i st ->
  sendItem this net i st = (step, st') ->
  match step with
  | Continue => H (S i) st' /\ HeadInv this net (S i) st'
  | Break =>
      abortOnFailure cfg = true /\ HeadInv this net (S i) st' /\
      exists e st1, st' = reportFailure this e i st1 /\ F i e st1
  | Overlap => True
  end.
Proof.
  intros Hinv Hi HH Hrun. unfold sendItem in Hrun.
  destruct (sendWithRetry this net i st) as [res st1] eqn:Hr.
  unfold sendWithRetry in Hr.
  apply retry_run in Hr;
    [|apply AttemptInv_enter; assumption|constructor|apply A_enter; assumption].
  destruct res as [|e|].
  - injection Hrun as <- <-. exact Hr.
  - fold cfg in Hrun. destruct Hr as (HF & HI).
    destruct (abortOnFailure cfg) eqn:Hab.
    + injection Hrun as <- <-. eauto 7.
    + injection Hrun as <- <-. split; [|exact HI].
      apply H_continue; [reflexivity|exact HF].
  - injection Hrun as <- <-. exact I.
Qed.

Lemma LoopHead_run (i : nat) (st : Run) :
  LoopHead this net i st -> H i st /\ HeadInv this net i st.
Proof.
  induction 1 as [pk sets0 Hw Hs Hne|i st st' Hh IH Hi Hstep].
  - split; [eapply H_first; eassumption|apply HeadInv_initial; assumption].
  - destruct IH as (HH & HI).
    exact (sendItem_run HI Hi HH Hstep).
Qed.

Lemma AttemptStart_run (i k : nat) (num : Z) (st : Run) :
  AttemptStart this net i k num st -> A i st /\ AttemptInv this net i k num st.
Proof.
  induction 1 as [st Hh Hi|k num st e st1 st2 Hat IH Ha Hbail Hon].
  - destruct (LoopHead_run Hh) as (HH & HI).
    split; [apply A_enter; assumption|apply AttemptInv_enter; assumption].
  - destruct IH as (HA & Hinv).
    assert (Hlen : (length (signedTXs st)
                    <= length (theInstructionSets this))%nat) by apply Hinv.
    apply attempt_threw in Ha; [|exact Hlen].
    destruct Ha as [(se & He & -> & Ht & Hlt & ->)
                   |(He & Hd & Hnext & Hth & -> & ->)].
    + cbn [thrown_bail] in Hbail.
      rewrite onRetry_timeout in Hon by exact Ht.
      cbn [nSlot world afterSend] in Hon.
      destruct (onRetryInTime net (nSlot (world st))) eqn:Hin;
        [|discriminate].
      injection Hon as <-.
      destruct (Z.lt_ge_cases (slotAt net (nSlot (world st))) (slot st + 150))
        as [Hdrift|Hdrift].
      * rewrite onRetryBody_no_drift by (cbn; exact Hdrift).
        split; [eapply A_check; eassumption|].
        eapply AttemptInv_afterRetryCheck; eassumption.
      * assert (Hi : (i < length (signedTXs st))%nat) by apply Hinv.
        destruct (rebuildThrows this i) eqn:Hth.
        -- rewrite onRetryBody_drift_thrown by (cbn; first [assumption|lia]).
           split; [eapply A_reanchor_thrown; eassumption|].
           eapply AttemptInv_afterRetryThrown; eassumption.
        -- rewrite onRetryBody_drift by (cbn; first [assumption|lia]).
           split; [eapply A_reanchor; eassumption|].
           eapply AttemptInv_afterRetryReanchored; eassumption.
    + rewrite onRetry_other in Hon by reflexivity. injection Hon as <-.
      split; [eapply A_rerun; eassumption|].
      eapply AttemptInv_afterAcceptThrown; eassumption.
Qed.

(** Where [send] returns: at a loop head whose test fails, or (with
    [abortOnFailure]) right after the [catch] block. *)
Lemma send_run (st : Run) :
  send this net = Returns st ->
  (exists j, H j st /\ HeadInv this net j st /\ (length (signedTXs st) <= j)%nat)
  \/ (abortOnFailure cfg = true /\
      exists j e st1,
        st = reportFailure this e j st1 /\ F j e st1 /\
        HeadInv this net (S j) st).
Proof.
  intros Hsend. apply send_final in Hsend.
  destruct Hsend as [(j & Hh & Hj)|(j & st0 & Hh & Hj & Hstep)].
  - left. exists j. destruct (LoopHead_run Hh) as (HH & HI). auto.
  - right. destruct (LoopHead_run Hh) as (HH & HI).
    pose proof (sendItem_run HI Hj HH Hstep)
      as (Hab & HI' & e & st1 & -> & HF).
    split; [exact Hab|]. exists j, e, st1. auto.
Qed.

End RunInduction.

(** ** The reachable states and [send] *)

Section Runs.

Variable this : SmartInstructionSender.
Variable net : Network.

Let sets := theInstructionSets this.
Let cfg := configuration this.

Let any (_ : nat) (_ : Run) : Prop := True.
Let anyF (_ : nat) (_ : Thrown) (_ : Run) : Prop := True.

Lemma LoopHead_HeadInv (i : nat) (st : Run) :
  LoopHead this net i st -> HeadInv this net i st.
Proof.
  intros Hh.
  apply (@LoopHead_run this net any any anyF); unfold any, anyF; auto.
Qed.

Lemma AttemptStart_AttemptInv (i k : nat) (num : Z) (st : Run) :
  AttemptStart this net i k num st -> AttemptInv this net i k num st.
Proof.
  intros Hat.
  apply (@AttemptStart_run this net any any anyF); unfold any, anyF; auto.
Qed.

Lemma sendItem_HeadInv (i : nat) (st st' : Run) (step : LoopStep) :
  HeadInv this net i st -> (i < length (signedTXs st))%nat ->
  sendItem this net i st = (step, st') ->
  step <> Overlap ->
  HeadInv this net (S i) st'.
Proof.
  intros Hinv Hi Hstep Hno.
  eapply (@sendItem_run this net any any anyF) in Hstep;
    try eassumption; try (unfold any, anyF; now auto).
  destruct step; [apply Hstep|apply Hstep|contradiction].
Qed.

Lemma send_final_inv (st : Run) :
  send this net = Returns st -> exists j, HeadInv this net j st.
Proof.
  intros Hsend.
  eapply (@send_run this net any any anyF) in Hsend;
    try (unfold any, anyF; now auto).
  destruct Hsend as [(j & _ & HI & _)|(_ & j & e & st1 & _ & _ & HI)]; eauto.
Qed.

(** From a loop head, the rest of the loop is the rest of [send]. *)
Lemma LoopHead_link (i : nat) (st : Run) :
  LoopHead this net i st ->
  exists pk sets0,
    wallet_publicKey this = Some pk /\
    instructionSets this = Some sets0 /\
    sets0 <> [] /\
    (i <= length sets0)%nat /\
    sendLoop this net (length sets0 - i) i st = send this net.
Proof.
  induction 1 as [pk sets0 Hw Hs Hne|i st st' Hh IH Hi Hstep].
  - exists pk, sets0. repeat split; try assumption; try lia.
    rewrite Nat.sub_0_r. symmetry. exact (send_unfold this net Hw Hs Hne).
  - destruct IH as (pk & sets0 & Hw & Hs & Hne & Hle & Heq).
    exists pk, sets0.
    assert (Hlen : (length (signedTXs st) <= length sets0)%nat).
    { pose proof (LoopHead_HeadInv Hh) as ([Hl _ _ _ _] & _).
      unfold theInstructionSets in Hl. rewrite Hs in Hl. exact Hl. }
    repeat split; try assumption; try lia.
    rewrite <- Heq.
    replace (length sets0 - i)%nat with (S (length sets0 - S i)) by lia.
    rewrite (sendLoop_unfold this net (S _) i st).
    replace (i <? length (signedTXs st))%nat with true
      by (symmetry; apply Nat.ltb_lt; assumption).
    rewrite Hstep. reflexivity.
Qed.

(** With the invariant, fuel for the indices that are left is enough. *)
Lemma sendLoop_total :
  forall (fuel i : nat) (st : Run),
    HeadInv this net i st ->
    (length sets - i <= fuel)%nat ->
    sendLoop this net fuel i st <> OutOfFuel.
Proof.
  induction fuel as [|fuel IH]; intros i st Hinv Hf;
    rewrite sendLoop_unfold;
    destruct (i <? length (signedTXs st))%nat eqn:Hi;
    try discriminate.
  - apply Nat.ltb_lt in Hi. destruct Hinv as ([Hl _ _ _ _] & _).
    fold sets in Hl. lia.
  - apply Nat.ltb_lt in Hi.
    destruct (sendItem this net i st) as [step st'] eqn:Hstep.
    destruct step; try discriminate.
    apply IH; [|lia].
    eapply sendItem_HeadInv; eauto. discriminate.
Qed.

(** [send] ends: it throws, it returns, or the model stops at an overlap. *)
Lemma send_returns : send this net <> OutOfFuel.
Proof.
  destruct (wallet_publicKey this) as [pk|] eqn:Hw;
    [|unfold send; rewrite Hw; discriminate].
  destruct (instructionSets this) as [[|g sets0]|] eqn:Hs;
    try (unfold send; rewrite Hw, Hs; discriminate).
  rewrite (send_unfold this net Hw Hs) by discriminate.
  apply sendLoop_total; [apply HeadInv_initial; exact Hs|].
  unfold sets, theInstructionSets. rewrite Hs. lia.
Qed.

End Runs.

(** ** What an item writes to the trace *)

Section ItemEvents.

Variable this : SmartInstructionSender.
Variable net : Network.

Variable base : list Event.
Variable first : Event.

Let started (i : nat) (s : Run) : Prop :=
  (trace (world s) = base /\
   EvSendSignedTransaction i (tx s) (sendAt net (nSend (world s)) (tx s))
   = first)
  \/ item_trace base first s.

Ltac item_step HA :=
  let Hb := fresh "Hb" in
  let Hf := fresh "Hf" in
  let evs := fresh "evs" in
  let Htr := fresh "Htr" in
  let Hc := fresh "Hc" in
  destruct HA as [(Hb & Hf)|(evs & Htr & Hc)];
  [ unfold item_trace; cbn; rewrite Hb, <- Hf; eexists;
    split; [cbn; rewrite <- ?app_assoc; cbn; reflexivity|count_cases; lia]
  | unfold item_trace; cbn; rewrite Htr; eexists;
    split; [rewrite <- ?app_assoc; cbn; reflexivity
           |count_cases; rewrite ?Hc; lia] ].

(** However the retries of an item end, they have written the first
    submission right after what stood in the trace, and no call of
    [failure]. *)
Lemma retry_events (i : nat) :
  forall (k : nat) (num : Z) (errors : list Thrown) (st st' : Run)
         (res : Settled),
    AttemptInv this net i k num st ->
    Forall retried_error errors ->
    started i st ->
    retry k num errors (attemptFn this net i) (onRetry this net i) st
    = (res, st') ->
    res <> Overlapped ->
    item_trace base first st'.
Proof.
  intros k num errors st st' res Hinv Herr HA Hrun Hno.
  pose proof (@retry_run this net (fun _ => item_trace base first) started
                (fun _ _ => item_trace base first)) as Hall.
  eapply Hall in Hrun; try eassumption; clear Hall.
  - destruct res; [apply Hrun|apply Hrun|contradiction].
  - intros j k0 n s se _ HS _ _ _ _ _ _. right. item_step HS.
  - intros j k0 n s se _ HS _ _ _ _ _ _ _. right. item_step HS.
  - intros j k0 n s se _ HS _ _ _ _ _ _ _. right. item_step HS.
  - intros j k0 n s _ HS _ _ _ _. right. item_step HS.
  - intros j k0 n s _ HS _ _. item_step HS.
  - intros j k0 n s _ HS _ _ _ _. item_step HS.
  - intros j k0 n s se e _ HS _ _. item_step HS.
  - intros j n s e _ HS _ _ _ _ _. item_step HS.
Qed.

End ItemEvents.

Section ItemTrace.

Variable this : SmartInstructionSender.
Variable net : Network.

Lemma sendWithRetry_events (i : nat) (st st1 : Run) (res : Settled) :
  HeadInv this net i st -> (i < length (signedTXs st))%nat ->
  sendWithRetry this net i st = (res, st1) ->
  res <> Overlapped ->
  item_trace (trace (world st)) (firstSubmission net i st) st1.
Proof.
  intros Hinv Hi Hrun Hno. unfold sendWithRetry in Hrun.
  eapply retry_events; [| |left|exact Hrun|exact Hno].
  - apply AttemptInv_enter; eassumption.
  - constructor.
  - split; reflexivity.
Qed.

Lemma sendItem_events (i : nat) (st st' : Run) (step : LoopStep) :
  HeadInv this net i st -> (i < length (signedTXs st))%nat ->
  sendItem this net i st = (step, st') ->
  step <> Overlap ->
  exists evs,
    trace (world st') = trace (world st) ++ firstSubmission net i st :: evs.
Proof.
  intros Hinv Hi Hstep Hno. unfold sendItem in Hstep.
  destruct (sendWithRetry this net i st) as [res st1] eqn:Hr.
  destruct res as [|e|].
  - injection Hstep as <- <-.
    destruct (sendWithRetry_events Hinv Hi Hr) as (evs & Htr & _);
      [discriminate|eauto].
  - destruct (sendWithRetry_events Hinv Hi Hr) as (evs & Htr & _);
      [discriminate|].
    injection Hstep as <- <-.
    exists (evs ++ failureEvents this e i (successfulItems st1)
                     (js_index (theInstructionSets this)
                        (successfulItems st1 - 1))).
    unfold reportFailure, failureCb, failureEvents, emit.
    destruct (onFailureCallback this); cbn; rewrite Htr, <- ?app_assoc;
      cbn; rewrite ?app_nil_r; reflexivity.
  - injection Hstep as <- <-. contradiction.
Qed.

(** From a head of the loop on, the run adds to the trace; when there is an
    index left, what it adds starts with the submission of that index. *)
Lemma sendLoop_continues :
  forall (fuel i : nat) (st final : Run),
    HeadInv this net i st ->
    sendLoop this net fuel i st = Returns final ->
    ((length (signedTXs st) <= i)%nat /\ final = st)
    \/ ((i < length (signedTXs st))%nat /\
        exists evs,
          trace (world final)
          = trace (world st) ++ firstSubmission net i st :: evs).
Proof.
  induction fuel as [|fuel IH]; intros i st final Hinv Hrun;
    rewrite sendLoop_unfold in Hrun;
    destruct (i <? length (signedTXs st))%nat eqn:Hi;
    try discriminate;
    try (apply Nat.ltb_ge in Hi; inversion Hrun; subst; left; auto).
  apply Nat.ltb_lt in Hi. right. split; [exact Hi|].
  destruct (sendItem this net i st) as [step st1] eqn:Hstep.
  destruct step; try discriminate.
  - destruct (sendItem_events Hinv Hi Hstep) as (evs & Htr); [discriminate|].
    assert (Hinv1 : HeadInv this net (S i) st1)
      by (eapply sendItem_HeadInv; eauto; discriminate).
    destruct (IH (S i) st1 final Hinv1 Hrun)
      as [(_ & ->)|(_ & evs2 & Htr2)]; [eauto|].
    exists (evs ++ firstSubmission net (S i) st1 :: evs2).
    rewrite Htr2, Htr, <- app_assoc. reflexivity.
  - inversion Hrun; subst.
    eapply sendItem_events; eauto. discriminate.
Qed.

(** The same from a reachable head of the loop to the end of [send]. *)
Lemma LoopHead_continues (i : nat) (st final : Run) :
  LoopHead this net i st ->
  send this net = Returns final ->
  ((length (signedTXs st) <= i)%nat /\ final = st)
  \/ ((i < length (signedTXs st))%nat /\
      exists evs,
        trace (world final)
        = trace (world st) ++ firstSubmission net i st :: evs).
Proof.
  intros Hh Hsend.
  destruct (LoopHead_link Hh) as (pk & sets0 & _ & _ & _ & _ & Heq).
  rewrite <- Heq in Hsend.
  eapply sendLoop_continues; [|exact Hsend].
  apply LoopHead_HeadInv. exact Hh.
Qed.

End ItemTrace.

(** * The statements of the specification *)

(** ** Preconditions of [send] *)

(** C4, as the code has it.  On a connected wallet, a batch that is absent or
    has no operation group makes [send] throw 'No instruction sets provided'
    before any collaborator is called: the trace is empty and no query has
    been made.  A batch that has groups, all of them without operations,
    passes the guard: [send] fetches the first slot and anchor, hands the
    wallet an empty list to sign, submits nothing and returns. *)
Theorem C4_empty_batch_fails_fast :
  forall (this : SmartInstructionSender) (net : Network) (pk : PublicKey),
    wallet_publicKey this = Some pk ->
    ((instructionSets this = None \/ instructionSets this = Some []) ->
     send this net = Throws (JsError "No instruction sets provided") world0)
    /\
    (forall sets,
        instructionSets this = Some sets -> sets <> [] ->
        (forall g, In g sets -> instructions g = []) ->
        exists st,
          send this net = Returns st /\
          trace (world st)
          = [EvGetSlot (commitment (configuration this)) (slotAt net 0);
             EvGetLatestBlockhash (commitment (configuration this))
               (latestBlockhashAt net 0);
             EvSignAllTransactions []] /\
          signedTXs st = [] /\
          successfulItems st = 0).
Proof.
  intros this net pk Hw. split.
  - intros [Hs|Hs]; unfold send; rewrite Hw, Hs; reflexivity.
  - intros sets Hs Hne Hall.
    rewrite (send_unfold this net Hw Hs Hne).
    assert (Hf : filter (fun g => (0 <? length (instructions g))%nat) sets = []).
    { clear Hs Hne. induction sets as [|g sets IH]; [reflexivity|].
      simpl. rewrite (Hall g) by (now left). simpl.
      apply IH. intros g' Hg'. apply Hall. now right. }
    unfold initialRun. rewrite Hf. cbn.
    rewrite sendLoop_unfold. cbn.
    eexists. repeat split.
Qed.

(** C4 fails on a batch of one group that has no operation: [send] does not
    throw, and the trace shows the slot and anchor queries and the call of
    the wallet. *)
Lemma C4_all_empty_batch_is_not_rejected :
  let this := senderOf [setEmpty] true in
  let net := scripted [100] ["h0"%string] [] in
  (forall g, In g [setEmpty] -> instructions g = []) /\
  (forall e w, send this net <> Throws e w) /\
  exists st,
    send this net = Returns st /\
    trace (world st)
    = [EvGetSlot "singleGossip"%string 100;
       EvGetLatestBlockhash "singleGossip"%string
         {| blockhash := "h0"; lastValidBlockHeight := 0 |};
       EvSignAllTransactions []].
Proof.
  cbv zeta. split; [|split].
  - intros g [<-|[]]. reflexivity.
  - intros e w. vm_compute. discriminate.
  - eexists. split; vm_compute; reflexivity.
Qed.

Lemma C4_witness :
  send (senderOf [] true) (scripted [] [] [])
  = Throws (JsError "No instruction sets provided") world0.
Proof.
  apply (proj1 (@C4_empty_batch_fails_fast (senderOf [] true)
                  (scripted [] [] []) "W"%string eq_refl)).
  right. reflexivity.
Defined.

(** ** Terminal failures *)

(** C5.  When the retries for index [i] end in a terminal failure (the
    promise rejects with [e]), the [catch] block calls the failure observer,
    when one is registered, with the error, then [i], then
    [successfulItems], then the element of the supplied list at
    [successfulItems - 1]: nothing when [successfulItems] is 0, and the
    group at that position of the list, counted from 0, otherwise.  The
    retries themselves have not called the observer, so the failure is
    reported exactly once; [successfulItems] is the number of accepted
    submissions so far. *)
Theorem C5_failure_callback_arguments :
  forall (this : SmartInstructionSender) (net : Network)
         (i : nat) (st st1 : Run) (e : Thrown),
    LoopHead this net i st ->
    (i < length (signedTXs st))%nat ->
    sendWithRetry this net i st = (Rejected e, st1) ->
    let reported := reportFailure this e i st1 in
    let successful := successfulItems st1 in
    let group := js_index (theInstructionSets this) (successful - 1) in
    sendItem this net i st
    = (if abortOnFailure (configuration this) then Break else Continue, reported)
    /\ (exists evs,
          trace (world st1) = trace (world st) ++ evs /\
          count is_failure evs = 0%nat)
    /\ trace (world reported)
       = trace (world st1)
         ++ (if onFailureCallback this
             then [EvFailure e i successful group]
             else [])
    /\ successful = Z.of_nat (count is_accepted (trace (world st1)))
    /\ (successful = 0 -> group = None)
    /\ (0 < successful ->
        group = nth_error (theInstructionSets this) (Z.to_nat (successful - 1))).
Proof.
  intros this net i st st1 e Hh Hi Hrun reported successful group.
  pose proof (LoopHead_HeadInv Hh) as Hinv.
  assert (Hitem : sendItem this net i st
                  = (if abortOnFailure (configuration this)
                     then Break else Continue, reported))
    by (unfold sendItem; rewrite Hrun; reflexivity).
  destruct (sendWithRetry_events Hinv Hi Hrun) as (evs & Htr & Hc);
    [discriminate|].
  assert (Hrep : trace (world reported)
                 = trace (world st1)
                   ++ (if onFailureCallback this
                       then [EvFailure e i successful group] else [])).
  { unfold reported, reportFailure, failureCb, emit.
    destruct (onFailureCallback this); cbn; rewrite ?app_nil_r; reflexivity. }
  assert (Hinv' : HeadInv this net (S i) reported).
  { eapply sendItem_HeadInv; [exact Hinv|exact Hi|exact Hitem|].
    destruct (abortOnFailure (configuration this)); discriminate. }
  split; [exact Hitem|].
  split.
  { exists (firstSubmission net i st :: evs). split; [exact Htr|].
    rewrite count_cons. cbn. exact Hc. }
  split; [exact Hrep|].
  split.
  { destruct Hinv' as ([_ Hs _ _ _] & _).
    rewrite Hrep in Hs. unfold reported, reportFailure in Hs. cbn in Hs.
    fold successful in Hs. rewrite Hs.
    destruct (onFailureCallback this); count_cases; f_equal; lia. }
  split.
  - intros H0. unfold group. rewrite H0. reflexivity.
  - intros Hpos. unfold group, js_index.
    replace (successful - 1 <? 0) with false
      by (symmetry; apply Z.ltb_ge; lia).
    reflexivity.
Qed.

(** C10.  In every run of [send], a call of the failure observer that
    reports 0 successful items passes [undefined] as the operation group:
    the element at position -1 of the supplied list. *)
Theorem C10_failure_group_undefined_before_first_success :
  forall (this : SmartInstructionSender) (net : Network) (st : Run)
         (e : Thrown) (i : nat) (g : option InstructionSet),
    send this net = Returns st ->
    In (EvFailure e i 0 g) (trace (world st)) ->
    g = js_index (theInstructionSets this) (-1) /\ g = None.
Proof.
  intros this net st e i g Hsend Hin.
  destruct (send_final_inv this net Hsend) as (j & [_ _ Hf _ _] & _).
  rewrite Forall_forall in Hf. specialize (Hf _ Hin). cbn in Hf.
  split; [exact Hf|]. rewrite Hf. reflexivity.
Qed.

(** C7.  After a terminal failure at index [i]: with [abortOnFailure] the
    run is over, [send] returns the variables as the [catch] block leaves
    them, and no entry of the whole trace speaks about an index above [i].
    Without it the loop goes on to its head for [i+1], and every run of
    [send] that returns has gone on from there: when there is an index
    [i+1], the entry that follows the failure in its trace is the
    submission of [signedTXs[i+1]]; when there is none, the run ends
    there. *)
Theorem C7_abort_on_failure :
  forall (this : SmartInstructionSender) (net : Network)
         (i : nat) (st st1 : Run) (e : Thrown),
    LoopHead this net i st ->
    (i < length (signedTXs st))%nat ->
    sendWithRetry this net i st = (Rejected e, st1) ->
    let reported := reportFailure this e i st1 in
    (abortOnFailure (configuration this) = true ->
       send this net = Returns reported /\
       Forall (index_below (S i)) (trace (world reported)))
    /\
    (abortOnFailure (configuration this) = false ->
       LoopHead this net (S i) reported /\
       forall final,
         send this net = Returns final ->
         ((length (signedTXs reported) <= S i)%nat /\ final = reported)
         \/ ((S i < length (signedTXs reported))%nat /\
             exists evs,
               trace (world final)
               = trace (world reported)
                 ++ EvSendSignedTransaction (S i)
                      (nth_error (signedTXs reported) (S i))
                      (sendAt net (nSend (world reported))
                         (nth_error (signedTXs reported) (S i)))
                    :: evs)).
Proof.
  intros this net i st st1 e Hh Hi Hrun reported.
  assert (Hitem : sendItem this net i st
                  = (if abortOnFailure (configuration this)
                     then Break else Continue, reported))
    by (unfold sendItem; rewrite Hrun; reflexivity).
  assert (Hinv : HeadInv this net (S i) reported).
  { eapply sendItem_HeadInv; [apply LoopHead_HeadInv; eassumption|exact Hi| |].
    - exact Hitem.
    - destruct (abortOnFailure (configuration this)); discriminate. }
  split; intros Hab; rewrite Hab in Hitem.
  - split; [|apply Hinv].
    destruct (LoopHead_link Hh) as (pk & sets0 & Hw & Hs & Hne & Hle & Heq).
    rewrite <- Heq.
    assert (Hlen : (length (signedTXs st) <= length sets0)%nat).
    { pose proof (LoopHead_HeadInv Hh) as ([Hl _ _ _ _] & _).
      unfold theInstructionSets in Hl. rewrite Hs in Hl. exact Hl. }
    replace (length sets0 - i)%nat with (S (length sets0 - S i)) by lia.
    rewrite sendLoop_unfold.
    replace (i <? length (signedTXs st))%nat with true
      by (symmetry; apply Nat.ltb_lt; assumption).
    rewrite Hitem. reflexivity.
  - assert (Hnext : LoopHead this net (S i) reported)
      by (eapply LoopHead_next; eauto).
    split; [exact Hnext|].
    intros final Hsend.
    exact (LoopHead_continues Hnext Hsend).
Qed.

(** ** A run without failure and without drift *)

Section Plain.

Variable this : SmartInstructionSender.
Variable net : Network.

(** An item whose first submission is accepted without drift. *)
Lemma sendItem_plain (i : nat) (st : Run) :
  let r := sendAt net (nSend (world st)) (nth_error (signedTXs st) i) in
  err r = None ->
  result_slot r < slot st + 150 ->
  sendItem this net i st = (Continue, afterAccept this i r (enterItem i st)).
Proof.
  intros r He Hd. unfold sendItem, sendWithRetry.
  rewrite retry_unfold.
  rewrite attemptFn_accepted; [reflexivity|exact He|left; exact Hd].
Qed.

Lemma sendLoop_plain (s0 : Z) :
  (forall n t, err (sendAt net n t) = None /\ result_slot (sendAt net n t) < s0 + 150) ->
  forall (fuel i : nat) (st : Run),
    slot st = s0 ->
    (length (signedTXs st) - i <= fuel)%nat ->
    exists st',
      sendLoop this net fuel i st = Returns st' /\
      signedTXs st' = signedTXs st /\
      progress_calls (trace (world st'))
      = progress_calls (trace (world st))
        ++ (if onProgressCallback this
            then seq i (length (signedTXs st) - i) else []) /\
      successfulItems st'
      = successfulItems st + Z.of_nat (length (signedTXs st) - i) /\
      count is_send (trace (world st'))
      = (count is_send (trace (world st)) + (length (signedTXs st) - i))%nat.
Proof.
  intros Hnet. induction fuel as [|fuel IH]; intros i st Hs Hf;
    rewrite sendLoop_unfold;
    destruct (i <? length (signedTXs st))%nat eqn:Hi;
    try (apply Nat.ltb_lt in Hi; lia);
    try (apply Nat.ltb_ge in Hi; exists st;
         replace (length (signedTXs st) - i)%nat with 0%nat by lia;
         cbn; destruct (onProgressCallback this);
         rewrite ?app_nil_r, ?Z.add_0_r, ?Nat.add_0_r; auto).
  apply Nat.ltb_lt in Hi.
  destruct (Hnet (nSend (world st)) (nth_error (signedTXs st) i)) as (He & Hd).
  rewrite sendItem_plain by (rewrite ?Hs; assumption).
  set (st1 := afterAccept this i _ (enterItem i st)).
  destruct (IH (S i) st1) as (st' & Hrun & Htxs & Hp & Hsucc & Hc);
    [exact Hs | cbn; lia |].
  exists st'. cbn in Htxs, Hp, Hsucc, Hc.
  replace (length (signedTXs st) - i)%nat
    with (S (length (signedTXs st) - S i)) by lia.
  split; [exact Hrun|]. split; [exact Htxs|].
  split; [|split].
  - rewrite Hp, !progress_calls_app. unfold progressEvents.
    destruct (onProgressCallback this); cbn; rewrite <- ?app_assoc;
      rewrite ?app_nil_r; reflexivity.
  - rewrite Hsucc. lia.
  - rewrite Hc. count_cases; lia.
Qed.

End Plain.

(** C8.  A batch of [N] items (the supplied groups that have operations) in
    which every submission is accepted and no acceptance reports a slot 150
    or more past the baseline: [send] returns, [N] submissions were made,
    the progress observer (when registered) was called [N] times, with
    0, 1, ..., N-1 in this order, and [successfulItems] is [N]. *)
Theorem C8_progress_in_order :
  forall (this : SmartInstructionSender) (net : Network) (pk : PublicKey)
         (sets : list InstructionSet),
    wallet_publicKey this = Some pk ->
    instructionSets this = Some sets ->
    sets <> [] ->
    (forall n t,
        err (sendAt net n t) = None /\
        result_slot (sendAt net n t) < slotAt net 0 + 150) ->
    let N := length (filter (fun g => (0 <? length (instructions g))%nat) sets) in
    exists st,
      send this net = Returns st /\
      length (signedTXs st) = N /\
      count is_send (trace (world st)) = N /\
      progress_calls (trace (world st))
      = (if onProgressCallback this then seq 0 N else []) /\
      successfulItems st = Z.of_nat N.
Proof.
  intros this net pk sets Hw Hs Hne Hnet N.
  rewrite (send_unfold this net Hw Hs Hne).
  assert (Hlen0 : length (signedTXs (initialRun this net sets)) = N).
  { unfold initialRun. cbn. rewrite !length_map. reflexivity. }
  destruct (@sendLoop_plain this net (slotAt net 0) Hnet (length sets) 0
              (initialRun this net sets)) as (st & Hrun & Htxs & Hp & Hsucc & Hc).
  - reflexivity.
  - rewrite Hlen0. unfold N. pose proof (filter_length_le
      (fun g => (0 <? length (instructions g))%nat) sets). lia.
  - exists st. rewrite Hrun.
    rewrite Hlen0, Nat.sub_0_r in Hp, Hsucc, Hc.
    split; [reflexivity|]. split; [congruence|].
    split; [exact Hc|]. split; [exact Hp|exact Hsucc].
Qed.

(** ** Rebuilding *)

Section Frame.

Variable this : SmartInstructionSender.
Variable net : Network.


(** The first attempt of a run, for index 0. *)
Lemma first_attempt (pk : PublicKey) (sets : list InstructionSet) :
  wallet_publicKey this = Some pk ->
  instructionSets this = Some sets ->
  sets <> [] ->
  (0 < length (signedTXs (initialRun this net sets)))%nat ->
  AttemptStart this net 0
    (Z.to_nat (maxSigningAttempts (configuration this))) 1
    (enterItem 0 (initialRun this net sets)).
Proof.
  intros Hw Hs Hne Hlen. apply Attempt_first; [|exact Hlen].
  eapply LoopHead_first; eassumption.
Qed.

End Frame.


(** ** What a group without operations does to a rebuild *)

(** The first build leaves out the groups without operations (line 118);
    the rebuild of lines 92-100 walks the supplied list as it is.  The four
    runs below show what follows from this one difference. *)

(** C1, on a batch with a group without operations after index 0.  The
    first submission is accepted 150 slots past the baseline and there is
    a later index, so the pair is fetched and the baseline moved to the
    anchor h1.  The rebuild from index 1 throws at the empty group before
    it has written anything: the wallet is not asked, the attempt throws
    and is run again, index 0 is submitted and counted a second time, and
    index 1 is then submitted on the old anchor h0. *)
Theorem C1_old_anchor_after_empty_group :
  let this := gapSender in
  let net := driftNetwork in
  let st0 := enterItem 0 (initialRun this net [setA; setEmpty; setB]) in
  let r := sendAt net (nSend (world st0)) (tx st0) in
  AttemptStart this net 0 3 1 st0 /\
  err r = None /\
  slot st0 + 150 <= result_slot r /\
  (1 < length (signedTXs st0))%nat /\
  attemptFn this net 0 1 st0
  = (Threw (JsError "No instructions"), afterAcceptThrown this net 0 r st0) /\
  exists st,
    send this net = Returns st /\
    skipn 3 (trace (world st))
    = [EvSendSignedTransaction 0 (Some (signedBuild this "h0" setA))
         (accepted 250);
       EvProgress 0;
       EvGetSlot "singleGossip"%string 300;
       EvGetLatestBlockhash "singleGossip"%string
         {| blockhash := "h1"; lastValidBlockHeight := 0 |};
       EvReSign 0 1;
       EvSendSignedTransaction 0 (Some (signedBuild this "h0" setA))
         (accepted 300);
       EvProgress 0;
       EvSendSignedTransaction 1 (Some (signedBuild this "h0" setB))
         (accepted 300);
       EvProgress 1] /\
    blockhash (currentBlock st) = "h1"%string /\
    count is_sign_all (trace (world st)) = 1%nat /\
    successfulItems st = 3 /\
    length (signedTXs st) = 2%nat.
Proof.
  cbv zeta.
  split.
  { apply (@first_attempt gapSender driftNetwork "W"%string
             [setA; setEmpty; setB]);
      [reflexivity|reflexivity|discriminate|vm_compute; lia]. }
  split; [reflexivity|].
  split; [vm_compute; discriminate|].
  split; [vm_compute; lia|].
  split; [vm_compute; reflexivity|].
  eexists. split; [vm_compute; reflexivity|].
  repeat split; vm_compute; reflexivity.
Qed.

(** C2, on a batch with a group without operations after index 0.  The
    first submission of index 0 times out below the bound, and [onRetry]
    finds the slot 150 past the baseline: it fetches the pair, moves the
    baseline to h1 and calls the reSign observer with the attempt number.
    The rebuild from index 0 writes the build of the first group and throws
    at the empty one: the wallet is not asked, [tx] is not assigned, and the
    retry submits the transaction of the first attempt, on the anchor h0. *)
Theorem C2_old_transaction_retried_after_empty_group :
  let this := retryGapSender in
  let net := retryGapNetwork in
  let st0 := enterItem 0 (initialRun this net [setA; setEmpty]) in
  let r := sendAt net (nSend (world st0)) (tx st0) in
  let st1 := afterSend 0 r st0 in
  let st2 := afterRetryThrown this net 0 1 st1 in
  AttemptStart this net 0 3 1 st0 /\
  is_timeout r = true /\
  retryNumber st0 + 1 < maxSigningAttempts (configuration this) /\
  slot st1 + 150 <= slotAt net (nSlot (world st1)) /\
  attemptFn this net 0 1 st0 = (Threw (TxError timeoutError), st1) /\
  onRetry this net 0 (TxError timeoutError) 1 st1 = Some st2 /\
  AttemptStart this net 0 2 2 st2 /\
  tx st2 = Some (signedBuild this "h0" setA) /\
  blockhash (currentBlock st2) = "h1"%string /\
  signedTXs st2 = [buildTransaction this "h1" setA] /\
  exists st,
    send this net = Returns st /\
    skipn 3 (trace (world st))
    = [EvSendSignedTransaction 0 (Some (signedBuild this "h0" setA))
         timeoutResult;
       EvGetSlot "singleGossip"%string 300;
       EvGetSlot "singleGossip"%string 400;
       EvGetLatestBlockhash "singleGossip"%string
         {| blockhash := "h1"; lastValidBlockHeight := 0 |};
       EvReSign 1 0;
       EvSendSignedTransaction 0 (Some (signedBuild this "h0" setA))
         (accepted 400);
       EvProgress 0] /\
    count is_sign_all (trace (world st)) = 1%nat.
Proof.
  cbv zeta.
  assert (Hfirst : AttemptStart retryGapSender retryGapNetwork 0 3 1
                     (enterItem 0 (initialRun retryGapSender retryGapNetwork
                                     [setA; setEmpty]))).
  { apply (@first_attempt retryGapSender retryGapNetwork "W"%string
             [setA; setEmpty]);
      [reflexivity|reflexivity|discriminate|vm_compute; lia]. }
  split; [exact Hfirst|].
  split; [reflexivity|].
  split; [vm_compute; reflexivity|].
  split; [vm_compute; discriminate|].
  split; [vm_compute; reflexivity|].
  split; [vm_compute; reflexivity|].
  split.
  { eapply (Attempt_again (k := 2) (num := 1) Hfirst);
      [vm_compute; reflexivity|reflexivity|vm_compute; reflexivity]. }
  split; [vm_compute; reflexivity|].
  split; [vm_compute; reflexivity|].
  split; [vm_compute; reflexivity|].
  eexists. split; [vm_compute; reflexivity|].
  split; vm_compute; reflexivity.
Qed.

(** C3, on a batch with a group without operations at the end.  The rebuild
    after the acceptance of index 0 throws at the empty group, the attempt
    is run again and index 0 is accepted and counted a second time.  Every
    submission of index 1 then times out: index 1 is submitted
    [maxSigningAttempts] times and ends with MAX_RESIGN_ATTEMPTS_REACHED,
    and the failure observer is called once, with 2 successful items,
    while the only index below 1 is index 0. *)
Theorem C3_successful_count_after_rerun :
  let this := tailGapSender in
  let net := tailGapNetwork in
  let st0 := snd (sendItem this net 0 (initialRun this net [setA; setB; setEmpty])) in
  LoopHead this net 1 st0 /\
  (1 < length (signedTXs st0))%nat /\
  (forall d t, (d < 3)%nat ->
               is_timeout (sendAt net (nSend (world st0) + d) t) = true) /\
  progress_calls (trace (world st0)) = [0%nat; 0%nat] /\
  successfulItems st0 = 2 /\
  exists st,
    send this net = Returns st /\
    count (is_send_of 1) (trace (world st)) = 3%nat /\
    count is_failure (trace (world st)) = 1%nat /\
    last (trace (world st)) (EvProgress 0)
    = EvFailure (JsError "MAX_RESIGN_ATTEMPTS_REACHED") 1 2 (Some setB) /\
    count (accepted_below 1) (trace (world st)) = 2%nat /\
    progress_calls (trace (world st)) = [0%nat; 0%nat].
Proof.
  cbv zeta.
  split.
  { eapply LoopHead_next.
    - eapply LoopHead_first; [reflexivity|reflexivity|discriminate].
    - vm_compute. lia.
    - vm_compute. reflexivity. }
  split; [vm_compute; lia|].
  split.
  { intros d t Hd.
    destruct d as [|[|[|d]]]; [reflexivity|reflexivity|reflexivity|lia]. }
  split; [vm_compute; reflexivity|].
  split; [vm_compute; reflexivity|].
  eexists. split; [vm_compute; reflexivity|].
  repeat split; vm_compute; reflexivity.
Qed.

(** C6, on a batch with a group without operations at the front.  The first
    build skips the empty group, so index 1 of [signedTXs] holds the
    transaction of the third group: operation b, signer s.  The first
    submission is accepted with drift, and the rebuild from index 1 reads
    the supplied list without skipping: index 1 now holds a transaction of
    the second group, operation a and no signer of a group, the third
    group has moved to a new index 2, and operation a is submitted a second
    time, for index 1. *)
Theorem C6_rebuild_misaligned_after_empty_group :
  let this := headGapSender in
  let net := driftNetwork in
  let st0 := initialRun this net [setEmpty; setA; setB] in
  let st1 := snd (sendItem this net 0 st0) in
  LoopHead this net 0 st0 /\
  LoopHead this net 1 st1 /\
  map tx_instructions (signedTXs st0) = [["a"%string]; ["b"%string]] /\
  map signatures (signedTXs st0) = [["W"%string]; ["s"%string; "W"%string]] /\
  map tx_instructions (signedTXs st1)
  = [["a"%string]; ["a"%string]; ["b"%string]] /\
  map signatures (signedTXs st1)
  = [["W"%string]; ["W"%string]; ["s"%string; "W"%string]] /\
  exists st,
    send this net = Returns st /\
    In (EvSendSignedTransaction 0 (Some (signedBuild this "h0" setA))
          (accepted 250))
       (trace (world st)) /\
    In (EvSendSignedTransaction 1 (Some (signedBuild this "h1" setA))
          (accepted 300))
       (trace (world st)) /\
    In (EvSendSignedTransaction 2 (Some (signedBuild this "h1" setB))
          (accepted 300))
       (trace (world st)).
Proof.
  cbv zeta.
  assert (Hh : LoopHead headGapSender driftNetwork 0
                 (initialRun headGapSender driftNetwork [setEmpty; setA; setB])).
  { eapply LoopHead_first; [reflexivity|reflexivity|discriminate]. }
  split; [exact Hh|].
  split.
  { eapply LoopHead_next; [exact Hh|vm_compute; lia|].
    vm_compute. reflexivity. }
  repeat (split; [vm_compute; reflexivity|]).
  eexists. split; [vm_compute; reflexivity|].
  repeat split; vm_compute; tauto.
Qed.

(** ** Runs that meet the hypotheses *)

Lemma C5_witness :
  let this := senderOf [setA; setB] true in
  let st := snd (sendItem this secondFailsNetwork 0
                   (initialRun this secondFailsNetwork [setA; setB])) in
  exists st1,
    LoopHead this secondFailsNetwork 1 st /\
    sendWithRetry this secondFailsNetwork 1 st
    = (Rejected (TxError miscError), st1) /\
    trace (world (reportFailure this (TxError miscError) 1 st1))
    = trace (world st1) ++ [EvFailure (TxError miscError) 1 1 (Some setA)].
Proof.
  cbv zeta. eexists.
  assert (Hh : LoopHead (senderOf [setA; setB] true) secondFailsNetwork 1
                 (snd (sendItem (senderOf [setA; setB] true) secondFailsNetwork 0
                         (initialRun (senderOf [setA; setB] true)
                            secondFailsNetwork [setA; setB])))).
  { eapply LoopHead_next.
    - eapply LoopHead_first; [reflexivity|reflexivity|discriminate].
    - vm_compute. lia.
    - vm_compute. reflexivity. }
  split; [exact Hh|].
  split; [vm_compute; reflexivity|].
  match goal with
  | |- trace (world (reportFailure _ _ _ ?st1)) = _ =>
      destruct (@C5_failure_callback_arguments
                  (senderOf [setA; setB] true) secondFailsNetwork 1 _ st1
                  (TxError miscError) Hh)
        as (_ & _ & Htr & _ & _ & Hg)
  end.
  - vm_compute. lia.
  - vm_compute. reflexivity.
  - rewrite Htr. rewrite Hg by (vm_compute; reflexivity).
    vm_compute. reflexivity.
Defined.

Lemma C7_witness :
  (exists e st1,
      sendWithRetry (timeoutSender true) timeoutNetwork 0
        (initialRun (timeoutSender true) timeoutNetwork [setA; setB])
      = (Rejected e, st1)
      /\ send (timeoutSender true) timeoutNetwork
         = Returns (reportFailure (timeoutSender true) e 0 st1))
  /\
  (exists e st1 final evs,
      sendWithRetry (timeoutSender false) timeoutNetwork 0
        (initialRun (timeoutSender false) timeoutNetwork [setA; setB])
      = (Rejected e, st1)
      /\ send (timeoutSender false) timeoutNetwork = Returns final
      /\ trace (world final)
         = trace (world (reportFailure (timeoutSender false) e 0 st1))
           ++ EvSendSignedTransaction 1
                (Some (signedBuild (timeoutSender false) "h1" setB))
                timeoutResult
              :: evs).
Proof.
  split.
  - do 2 eexists. split; [vm_compute; reflexivity|].
    match goal with
    | |- send _ _ = Returns (reportFailure _ ?e _ ?st1) =>
        destruct (@C7_abort_on_failure (timeoutSender true) timeoutNetwork 0
                    (initialRun (timeoutSender true) timeoutNetwork [setA; setB])
                    st1 e)
          as (Habort & _)
    end.
    + eapply LoopHead_first; [reflexivity|reflexivity|discriminate].
    + vm_compute. lia.
    + vm_compute. reflexivity.
    + apply Habort. reflexivity.
  - do 3 eexists.
    match goal with
    | |- exists evs, sendWithRetry ?a ?b 0 ?s = (Rejected ?e, ?st1) /\
                     send _ _ = Returns ?final /\ _ =>
        assert (Hrun : sendWithRetry a b 0 s = (Rejected e, st1))
          by (vm_compute; reflexivity);
        assert (Hsend : send a b = Returns final) by (vm_compute; reflexivity);
        destruct (@C7_abort_on_failure a b 0 s st1 e) as (_ & Hgo)
    end.
    + eapply LoopHead_first; [reflexivity|reflexivity|discriminate].
    + vm_compute. lia.
    + exact Hrun.
    + destruct (Hgo eq_refl) as (_ & Hfinal).
      destruct (Hfinal _ Hsend) as [(Hlen & _)|(_ & evs & Htr)].
      * vm_compute in Hlen. lia.
      * exists evs. split; [exact Hrun|]. split; [exact Hsend|].
        rewrite Htr. reflexivity.
Defined.

Lemma C8_witness :
  exists st,
    send (senderOf [setA; setB] true) calmNetwork = Returns st
    /\ progress_calls (trace (world st)) = [0%nat; 1%nat]
    /\ successfulItems st = 2.
Proof.
  destruct (@C8_progress_in_order (senderOf [setA; setB] true) calmNetwork
              "W"%string [setA; setB])
    as (st & Hrun & _ & _ & Hp & Hs).
  - reflexivity.
  - reflexivity.
  - discriminate.
  - intros n t. split; [reflexivity|vm_compute; reflexivity].
  - exists st. split; [exact Hrun|]. split; [exact Hp|exact Hs].
Defined.


Lemma C10_witness :
  exists st g,
    send (timeoutSender true) timeoutNetwork = Returns st
    /\ In (EvFailure (JsError "MAX_RESIGN_ATTEMPTS_REACHED") 0 0 g)
          (trace (world st))
    /\ g = None.
Proof.
  do 2 eexists. split; [vm_compute; reflexivity|].
  split; [cbn; repeat (first [left; reflexivity | right])|].
  refine (proj2 (@C10_failure_group_undefined_before_first_success
                   (timeoutSender true) timeoutNetwork _
                   (JsError "MAX_RESIGN_ATTEMPTS_REACHED") 0%nat None _ _)).
  - vm_compute. reflexivity.
  - cbn. repeat (first [left; reflexivity | right]).
Defined.

(** * Further properties of the sender *)

(** ** The builder *)

(** The fields after a chain of setter calls, from any instance. *)
Lemma callSetters_fields (calls : list SetterCall) :
  forall b : Instance,
    let b' := callSetters calls b in
    wallet_publicKey (sender b') = wallet_publicKey (sender b) /\
    connection b' = connection b /\
    instructionSets (sender b')
    = match lastInstructionSets calls with
      | Some sets => Some sets
      | None => instructionSets (sender b)
      end /\
    configuration (sender b')
    = match lastConfig calls with
      | Some c => c
      | None => configuration (sender b)
      end /\
    onProgressCallback (sender b')
    = (callsOnProgress calls || onProgressCallback (sender b))%bool /\
    onReSignCallback (sender b')
    = (callsOnReSign calls || onReSignCallback (sender b))%bool /\
    onFailureCallback (sender b')
    = (callsOnFailure calls || onFailureCallback (sender b))%bool.
Proof.
  induction calls as [|c calls IH]; intros b; cbn.
  - repeat split.
  - specialize (IH (callSetter b c)). cbn in IH.
    destruct IH as (Hw & Hc & Hs & Hcfg & Hp & Hr & Hf).
    unfold callSetters in *.
    rewrite Hw, Hc, Hs, Hcfg, Hp, Hr, Hf.
    destruct c; cbn;
      destruct (lastInstructionSets calls), (lastConfig calls);
      repeat split; auto using orb_true_r.
Qed.

(** X1.  After [build(wallet, connection)] and any chain of setter calls,
    the wallet and the connection are those given to [build]; the
    instruction sets are the argument of the last [withInstructionSets]
    (undefined when there is none); the configuration is the argument of
    the last [config], whole and not merged (3 attempts, abort,
    singleGossip when there is none); an observer is registered exactly
    when its setter was called. *)
Theorem X1_builder_last_call_wins :
  forall (wallet : option PublicKey) (conn : Network) (calls : list SetterCall),
    let b := callSetters calls (build wallet conn) in
    wallet_publicKey (sender b) = wallet /\
    connection b = conn /\
    instructionSets (sender b) = lastInstructionSets calls /\
    configuration (sender b)
    = match lastConfig calls with
      | Some c => c
      | None => {| maxSigningAttempts := 3; abortOnFailure := true;
                   commitment := "singleGossip"%string |}
      end /\
    onProgressCallback (sender b) = callsOnProgress calls /\
    onReSignCallback (sender b) = callsOnReSign calls /\
    onFailureCallback (sender b) = callsOnFailure calls.
Proof.
  intros wallet conn calls.
  destruct (callSetters_fields calls (build wallet conn))
    as (Hw & Hc & Hs & Hcfg & Hp & Hr & Hf).
  cbn in *. rewrite Hw, Hc, Hs, Hcfg, Hp, Hr, Hf, !orb_false_r.
  destruct (lastInstructionSets calls); repeat split.
Qed.

(** X2.  Whatever setters were called: without a public key on the wallet
    [send] throws WalletNotConnectedError, also when no instruction sets
    were given; with a public key, and no [withInstructionSets] call or a
    last one with an empty list, it throws 'No instruction sets provided'.
    Both happen before any call of the connection or of the wallet. *)
Theorem X2_send_guards_after_any_setters :
  forall (conn : Network) (calls : list SetterCall),
    sendInstance (callSetters calls (build None conn))
    = Throws WalletNotConnectedError world0
    /\
    (forall pk,
        lastInstructionSets calls = None \/ lastInstructionSets calls = Some [] ->
        sendInstance (callSetters calls (build (Some pk) conn))
        = Throws (JsError "No instruction sets provided") world0).
Proof.
  intros conn calls. split.
  - destruct (callSetters_fields calls (build None conn)) as (Hw & _).
    unfold sendInstance, send. rewrite Hw. reflexivity.
  - intros pk Hsets.
    destruct (callSetters_fields calls (build (Some pk) conn))
      as (Hw & _ & Hs & _).
    unfold sendInstance, send. rewrite Hw, Hs. cbn.
    destruct Hsets as [-> | ->]; reflexivity.
Qed.

Lemma X2_witness :
  sendInstance
    (callSetters [CallOnProgress; CallWithInstructionSets []; CallOnFailure]
       (build (Some "W"%string) calmNetwork))
  = Throws (JsError "No instruction sets provided") world0.
Proof.
  apply (proj2 (X2_send_guards_after_any_setters calmNetwork
                  [CallOnProgress; CallWithInstructionSets []; CallOnFailure])).
  right. reflexivity.
Defined.

(** ** The loop ends *)

(** X3.  The loop of [send] cannot go on for ever, although it reads the
    length of [signedTXs] again at every round and a rebuild can make the
    array longer: the rounds [send] allows for are never used up.  When
    [send] returns, [signedTXs] holds at most as many transactions as groups
    were supplied, and every submission, progress call and failure call is
    for an index below that number. *)
Theorem X3_send_ends_within_the_batch :
  forall (this : SmartInstructionSender) (net : Network),
    send this net <> OutOfFuel /\
    (forall st,
        send this net = Returns st ->
        (length (signedTXs st) <= length (theInstructionSets this))%nat /\
        Forall (index_below (length (theInstructionSets this)))
               (trace (world st))).
Proof.
  intros this net. split; [apply send_returns|].
  intros st Hsend.
  assert (Hbound : exists j, HeadInv this net j st /\
                             (j <= length (theInstructionSets this))%nat).
  { apply send_final in Hsend.
    destruct Hsend as [(j & Hh & _)|(j & st0 & Hh & Hj & Hstep)].
    - exists j. split; [apply LoopHead_HeadInv; assumption|].
      destruct (LoopHead_link Hh) as (pk & sets0 & _ & Hs & _ & Hle & _).
      unfold theInstructionSets. rewrite Hs. exact Hle.
    - exists (S j). split.
      + eapply sendItem_HeadInv;
          [apply LoopHead_HeadInv| | |]; try eassumption. discriminate.
      + pose proof (LoopHead_HeadInv Hh) as ([Hl _ _ _ _] & _). lia. }
  destruct Hbound as (j & ([Hl _ _ _ _] & Hidx) & Hj).
  split; [exact Hl|].
  eapply index_below_weaken; eassumption.
Qed.

(** On the batch with a group without operations in the middle, the run
    returns with the two transactions of the first build: the rebuild threw
    before it wrote. *)
Lemma X3_witness :
  exists st,
    send gapSender driftNetwork = Returns st /\
    length (signedTXs st) = 2%nat /\
    (length (signedTXs st) <= 3)%nat /\
    Forall (index_below 3) (trace (world st)).
Proof.
  eexists. split; [vm_compute; reflexivity|].
  split; [reflexivity|].
  refine (proj2 (X3_send_ends_within_the_batch gapSender driftNetwork) _ _).
  vm_compute. reflexivity.
Defined.

(** ** Reading the trace of a run *)

Lemma initialRun_trace (this : SmartInstructionSender) (net : Network)
    (sets : list InstructionSet) :
  trace (world (initialRun this net sets)) = firstEvents this net sets.
Proof. reflexivity. Qed.

Lemma outcome_calls_app (l1 l2 : list Event) :
  outcome_calls (l1 ++ l2) = outcome_calls l1 ++ outcome_calls l2.
Proof.
  induction l1 as [|ev l1 IH]; cbn; [reflexivity|].
  destruct ev; cbn; rewrite ?IH; reflexivity.
Qed.

Lemma is_timeout_err (r : SendResult) :
  is_timeout r = true ->
  exists se, err r = Some se /\ String.eqb (err_type se) "timeout" = true.
Proof.
  unfold is_timeout. destruct (err r) as [se|]; [eauto|discriminate].
Qed.

(** Rewrites the readings of a trace written with [++] and [::]. *)
Ltac read_trace :=
  unfold progressEvents, reSignEvents, failureEvents;
  repeat (rewrite outcome_calls_app || rewrite progress_calls_app
          || rewrite count_app || rewrite count_cons || rewrite count_nil
          || rewrite length_app);
  cbn [outcome_calls progress_calls app length is_failure is_accepted is_send
       is_get_blockhash is_sign_all is_resign is_get_slot].

(** ** Runs without drift, and how every run starts *)

(** X8.  When no slot the connection answers and no slot reported at an
    acceptance reaches the first slot plus 150, the run never re-anchors,
    whatever times out or fails: the anchor is fetched once and the wallet
    asked once, the reSign observer is not called, the baseline stays, and
    [signedTXs] is at the end what the first signature returned: the signed
    builds of the groups that have operations. *)
Theorem X8_no_drift_no_reanchoring :
  forall (this : SmartInstructionSender) (net : Network) (st : Run),
    (forall n, slotAt net n < slotAt net 0 + 150) ->
    (forall n t, err (sendAt net n t) = None ->
                 result_slot (sendAt net n t) < slotAt net 0 + 150) ->
    send this net = Returns st ->
    slot st = slotAt net 0 /\
    currentBlock st = latestBlockhashAt net 0 /\
    signedTXs st
    = map (signedBuild this (blockhash (latestBlockhashAt net 0)))
          (filter (fun g => (0 <? length (instructions g))%nat)
                  (theInstructionSets this)) /\
    count is_get_blockhash (trace (world st)) = 1%nat /\
    count is_sign_all (trace (world st)) = 1%nat /\
    count is_resign (trace (world st)) = 0%nat.
Proof.
  intros this net st Hslots Hres Hsend.
  pose (P := fun (_ : nat) (s : Run) =>
          slot s = slotAt net 0 /\
          currentBlock s = latestBlockhashAt net 0 /\
          signedTXs s
          = map (signedBuild this (blockhash (latestBlockhashAt net 0)))
                (filter (fun g => (0 <? length (instructions g))%nat)
                        (theInstructionSets this)) /\
          count is_get_blockhash (trace (world s)) = 1%nat /\
          count is_sign_all (trace (world s)) = 1%nat /\
          count is_resign (trace (world s)) = 0%nat).
  apply (@send_run this net P P
           (fun i e s => P i (reportFailure this e i s))) in Hsend;
    unfold P.
  - destruct Hsend as [(i & HP & _)|(_ & i & e & st1 & -> & HP & _)];
      exact HP.
  - intros pk sets _ Hs _. rewrite initialRun_trace. unfold firstEvents.
    unfold theInstructionSets. rewrite Hs.
    read_trace. repeat split.
  - intros i s _ _ HP. exact HP.
  - intros i k num s se _ (H1 & H2 & H3 & H4 & H5 & H6) _ _ _ _ _ _. cbn.
    read_trace. repeat split; first [assumption | lia].
  - intros i k num s se _ (H1 & _) _ _ _ _ _ Hd _.
    specialize (Hslots (nSlot (world s))). lia.
  - intros i k num s se _ (H1 & _) _ _ _ _ _ Hd _.
    specialize (Hslots (nSlot (world s))). lia.
  - intros i k num s _ (H1 & _) He Hd _ _.
    specialize (Hres _ _ He). lia.
  - intros i k num s _ (H1 & H2 & H3 & H4 & H5 & H6) _ _. cbn.
    read_trace. destruct (onProgressCallback this); read_trace;
      repeat split; first [assumption | lia].
  - intros i k num s _ (H1 & _) He Hd _ _.
    specialize (Hres _ _ He). lia.
  - intros i k num s se e _ (H1 & H2 & H3 & H4 & H5 & H6) _ _.
    unfold reportFailure, failureCb, emit.
    destruct (onFailureCallback this); cbn; read_trace;
      repeat split; first [assumption | lia].
  - intros i num s e _ (H1 & _) He Hd _ _ _.
    specialize (Hres _ _ He). lia.
  - intros i e s _ HP. exact HP.
Qed.

Lemma X8_witness :
  exists st,
    send (senderOf [setA; setB; setC] false) mixedNetwork = Returns st /\
    count is_sign_all (trace (world st)) = 1%nat /\
    map recentBlockhash (signedTXs st)
    = ["h0"%string; "h0"%string; "h0"%string].
Proof.
  eexists. split; [vm_compute; reflexivity|].
  match goal with
  | |- count is_sign_all (trace (world ?s)) = _ /\ _ =>
      destruct (@X8_no_drift_no_reanchoring
                  (senderOf [setA; setB; setC] false) mixedNetwork s)
        as (_ & _ & Htxs & _ & Hsign & _)
  end.
  - intros [|[|n]]; vm_compute; try reflexivity. destruct n; reflexivity.
  - intros [|[|[|n]]] t; cbn; try discriminate; intros _;
      try (vm_compute; reflexivity). destruct n; vm_compute; reflexivity.
  - vm_compute. reflexivity.
  - split; [exact Hsign|]. rewrite Htxs. reflexivity.
Defined.

(** X9.  Every run that passes the two guards starts the same way: one
    [getSlot], one [getLatestBlockhash], then one call of the wallet with
    the builds, against that first anchor, of the supplied groups that have
    operations, in the order supplied; the groups without operations are
    left out.  Nothing is submitted before. *)
Theorem X9_first_build_and_signature :
  forall (this : SmartInstructionSender) (net : Network) (st : Run),
    send this net = Returns st ->
    exists evs,
      trace (world st)
      = [EvGetSlot (commitment (configuration this)) (slotAt net 0);
         EvGetLatestBlockhash (commitment (configuration this))
           (latestBlockhashAt net 0);
         EvSignAllTransactions
           (map (buildTransaction this (blockhash (latestBlockhashAt net 0)))
                (filter (fun g => (0 <? length (instructions g))%nat)
                        (theInstructionSets this)))]
        ++ evs.
Proof.
  intros this net st Hsend.
  pose (P := fun (_ : nat) (s : Run) =>
          exists evs,
            trace (world s)
            = firstEvents this net (theInstructionSets this) ++ evs).
  assert (Hstep : forall s evs0,
             (exists evs,
                 trace (world s)
                 = firstEvents this net (theInstructionSets this) ++ evs) ->
             exists evs,
               trace (world s) ++ evs0
               = firstEvents this net (theInstructionSets this) ++ evs).
  { intros s evs0 (evs & Htr). exists (evs ++ evs0).
    rewrite Htr, <- app_assoc. reflexivity. }
  apply (@send_run this net P P
           (fun i e s => P i (reportFailure this e i s))) in Hsend;
    unfold P.
  - destruct Hsend as [(i & HP & _)|(_ & i & e & st1 & -> & HP & _)];
      exact HP.
  - intros pk sets _ Hs _. exists []. rewrite initialRun_trace, app_nil_r.
    unfold theInstructionSets. rewrite Hs. reflexivity.
  - intros i s _ _ HP. exact HP.
  - intros i k num s se _ HP _ _ _ _ _ _. cbn.
    rewrite <- app_assoc. apply Hstep, HP.
  - intros i k num s se _ HP _ _ _ _ _ _ _. cbn.
    rewrite <- app_assoc. apply Hstep, HP.
  - intros i k num s se _ HP _ _ _ _ _ _ _. cbn.
    rewrite <- app_assoc. apply Hstep, HP.
  - intros i k num s _ HP _ _ _ _. cbn. apply Hstep, HP.
  - intros i k num s _ HP _ _. cbn. apply Hstep, HP.
  - intros i k num s _ HP _ _ _ _. cbn. apply Hstep, HP.
  - intros i k num s se e _ HP _ _.
    unfold reportFailure, failureCb, emit.
    destruct (onFailureCallback this); cbn;
      rewrite <- ?app_assoc; apply Hstep, HP.
  - intros i num s e _ HP _ _ _ _ _.
    unfold reportFailure, failureCb, emit.
    destruct (onFailureCallback this); cbn;
      rewrite <- ?app_assoc; apply Hstep, HP.
  - intros i e s _ HP. exact HP.
Qed.

Lemma X9_witness :
  exists st evs,
    send gapSender driftNetwork = Returns st /\
    trace (world st)
    = [EvGetSlot "singleGossip"%string 100;
       EvGetLatestBlockhash "singleGossip"%string
         {| blockhash := "h0"; lastValidBlockHeight := 0 |};
       EvSignAllTransactions
         [buildTransaction gapSender "h0" setA;
          buildTransaction gapSender "h0" setB]]
      ++ evs.
Proof.
  eexists.
  match goal with
  | |- exists evs, send ?a ?b = Returns ?s /\ _ =>
      assert (Hsend : send a b = Returns s) by (vm_compute; reflexivity);
      destruct (@X9_first_build_and_signature a b s Hsend) as (evs & Htr)
  end.
  exists evs. split; [exact Hsend|exact Htr].
Defined.

(** ** Items that end at their first submission *)

Section FirstSubmission.

Variable this : SmartInstructionSender.
Variable net : Network.

Let cfg := configuration this.

(** The first attempt of an item bails: the item is over after one
    submission, and only the [catch] block follows. *)
Lemma sendItem_first_attempt_bails (i : nat) (st : Run) (e : Thrown) :
  let t := nth_error (signedTXs st) i in
  let r := sendAt net (nSend (world st)) t in
  attemptFn this net i 1 (enterItem i st)
  = (Bailed e, afterSend i r (enterItem i st)) ->
  exists st',
    sendItem this net i st
    = (if abortOnFailure cfg then Break else Continue, st') /\
    trace (world st')
    = trace (world st)
      ++ EvSendSignedTransaction i t r
      :: failureEvents this e i (successfulItems st)
           (js_index (theInstructionSets this) (successfulItems st - 1)) /\
    signedTXs st' = signedTXs st /\
    slot st' = slot st /\
    currentBlock st' = currentBlock st /\
    successfulItems st' = successfulItems st /\
    nSlot (world st') = nSlot (world st) /\
    nBlockhash (world st') = nBlockhash (world st).
Proof.
  intros t r Ha. eexists. split.
  - unfold sendItem, sendWithRetry. rewrite retry_unfold, Ha. reflexivity.
  - unfold reportFailure, failureCb, failureEvents, emit.
    destruct (onFailureCallback this); cbn; rewrite <- ?app_assoc;
      repeat split; reflexivity.
Qed.

End FirstSubmission.

(** X12.  With [maxSigningAttempts] at most 1 (0 and negative numbers
    included) a timeout is never retried: the item makes one submission, no
    slot is asked for, nothing is rebuilt, and the item fails with
    MAX_RESIGN_ATTEMPTS_REACHED, whatever the state the item starts from. *)
Theorem X12_timeout_is_final_when_bound_at_most_one :
  forall (this : SmartInstructionSender) (net : Network) (i : nat) (st : Run),
    let t := nth_error (signedTXs st) i in
    let r := sendAt net (nSend (world st)) t in
    let error := JsError "MAX_RESIGN_ATTEMPTS_REACHED" in
    maxSigningAttempts (configuration this) <= 1 ->
    is_timeout r = true ->
    exists st',
      sendItem this net i st
      = (if abortOnFailure (configuration this) then Break else Continue, st') /\
      trace (world st')
      = trace (world st)
        ++ EvSendSignedTransaction i t r
        :: failureEvents this error i (successfulItems st)
             (js_index (theInstructionSets this) (successfulItems st - 1)) /\
      signedTXs st' = signedTXs st /\
      slot st' = slot st /\
      currentBlock st' = currentBlock st /\
      successfulItems st' = successfulItems st /\
      nSlot (world st') = nSlot (world st) /\
      nBlockhash (world st') = nBlockhash (world st).
Proof.
  intros this net i st t r error Hmax Ht.
  apply sendItem_first_attempt_bails.
  destruct (is_timeout_err _ Ht) as (se & He & Hty).
  rewrite (@attemptFn_failed this net i 1 (enterItem i st) se He).
  rewrite Hty. cbn [andb retryNumber enterItem set_retryNumber].
  replace (maxSigningAttempts (configuration this) <=? 0 + 1) with true
    by (symmetry; apply Z.leb_le; lia).
  reflexivity.
Qed.

Lemma X12_witness :
  exists st',
    sendItem noRetrySender timeoutNetwork 0
      (initialRun noRetrySender timeoutNetwork [setA; setB]) = (Break, st') /\
    count is_send (trace (world st')) = 1%nat /\
    count is_get_slot (trace (world st')) = 1%nat.
Proof.
  destruct (@X12_timeout_is_final_when_bound_at_most_one
              noRetrySender timeoutNetwork 0%nat
              (initialRun noRetrySender timeoutNetwork [setA; setB]))
    as (st' & Hitem & Htr & _).
  - cbn. lia.
  - reflexivity.
  - exists st'. split; [exact Hitem|]. rewrite Htr.
    split; reflexivity.
Defined.

(** X13.  An error of the submitter whose type is not 'timeout'
    ('misc-error' or any other) ends the item at its first submission,
    whatever [maxSigningAttempts] is: one submission, no slot asked for,
    nothing rebuilt, and the failure observer (when registered) receives the

    submitter's error itself. *)
Theorem X13_other_errors_are_final :
  forall (this : SmartInstructionSender) (net : Network) (i : nat) (st : Run)
         (se : SendError),
    let t := nth_error (signedTXs st) i in
    let r := sendAt net (nSend (world st)) t in
    err r = Some se ->
    err_type se <> "timeout"%string ->
    exists st',
      sendItem this net i st
      = (if abortOnFailure (configuration this) then Break else Continue, st') /\
      trace (world st')
      = trace (world st)
        ++ EvSendSignedTransaction i t r
        :: failureEvents this (TxError se) i (successfulItems st)
             (js_index (theInstructionSets this) (successfulItems st - 1)) /\
      signedTXs st' = signedTXs st /\
      slot st' = slot st /\
      currentBlock st' = currentBlock st /\
      successfulItems st' = successfulItems st /\
      nSlot (world st') = nSlot (world st) /\
      nBlockhash (world st') = nBlockhash (world st).
Proof.
  intros this net i st se t r He Hty.
  apply sendItem_first_attempt_bails.
  rewrite (@attemptFn_failed this net i 1 (enterItem i st) se He).
  replace (String.eqb (err_type se) "timeout") with false
    by (symmetry; apply String.eqb_neq; exact Hty).
  reflexivity.
Qed.

Lemma X13_witness :
  exists st',
    sendItem (senderOf [setA; setB] false) unknownErrorNetwork 0
      (initialRun (senderOf [setA; setB] false) unknownErrorNetwork [setA; setB])
    = (Continue, st') /\
    last (trace (world st')) (EvProgress 0)
    = EvFailure (TxError unknownError) 0 0 None.
Proof.
  destruct (@X13_other_errors_are_final
              (senderOf [setA; setB] false) unknownErrorNetwork 0%nat
              (initialRun (senderOf [setA; setB] false) unknownErrorNetwork
                 [setA; setB])
              unknownError)
    as (st' & Hitem & Htr & _).
  - reflexivity.
  - discriminate.
  - exists st'. split; [exact Hitem|]. rewrite Htr. reflexivity.
Defined.

(** ** The baseline *)

(** Reads [last_pair] over a trace that grew by the entries of one step. *)
Ltac read_pair s HP :=
  unfold last_pair in *; cbn;
  unfold progressEvents, reSignEvents;
  repeat match goal with
         | |- context [if ?b then [_] else []] => destruct b
         end;
  rewrite ?fold_left_app;
  destruct (fold_left baseline_step (trace (world s)) (None, None));
  cbn in HP |- *; first [exact HP|reflexivity].

(** X17.  In every run that returns, the baseline ([slot] and
    [currentBlock]) is the last pair of answers of one
    [getSlotAndCurrentBlockHash] call, a [getSlot] answer and the
    [getLatestBlockhash] answer right after it: the slot that [onRetry]
    asks for to detect drift is compared and dropped, never made the
    baseline. *)
Theorem X17_baseline_is_last_pair :
  forall (this : SmartInstructionSender) (net : Network) (st : Run),
    send this net = Returns st ->
    last_pair (trace (world st)) = Some (slot st, currentBlock st).
Proof.
  intros this net st Hsend.
  pose (P := fun (_ : nat) (s : Run) =>
          last_pair (trace (world s)) = Some (slot s, currentBlock s)).
  apply (@send_run this net P P
           (fun i e s => P i (reportFailure this e i s))) in Hsend;
    unfold P.
  - destruct Hsend as [(i & HP & _)|(_ & i & e & st1 & -> & HP & _)];
      exact HP.
  - intros pk sets _ _ _. reflexivity.
  - intros i s _ _ HP. exact HP.
  - intros i k num s se _ HP _ _ _ _ _ _. read_pair s HP.
  - intros i k num s se _ HP _ _ _ _ _ _ _. read_pair s HP.
  - intros i k num s se _ HP _ _ _ _ _ _ _. read_pair s HP.
  - intros i k num s _ HP _ _ _ _. read_pair s HP.
  - intros i k num s _ HP _ _. read_pair s HP.
  - intros i k num s _ HP _ _ _ _. read_pair s HP.
  - intros i k num s se e _ HP _ _.
    unfold reportFailure, failureCb, emit.
    destruct (onFailureCallback this); read_pair s HP.
  - intros i num s e _ HP _ _ _ _ _.
    unfold reportFailure, failureCb, emit.
    destruct (onFailureCallback this); read_pair s HP.
  - intros i e s _ HP. exact HP.
Qed.

Lemma X17_witness :
  exists st,
    send (timeoutSender true) timeoutNetwork = Returns st /\
    In (EvGetSlot "singleGossip"%string 300) (trace (world st)) /\
    last_pair (trace (world st)) = Some (slot st, currentBlock st) /\
    slot st = 400.
Proof.
  eexists.
  match goal with
  | |- send ?a ?b = Returns ?s /\ _ =>
      assert (Hsend : send a b = Returns s) by (vm_compute; reflexivity);
      pose proof (@X17_baseline_is_last_pair a b s Hsend) as Hpair
  end.
  split; [exact Hsend|]. split; [vm_compute; tauto|].
  split; [exact Hpair|reflexivity].
Defined.

(** ** Runs over groups that all have operations *)

(** When every supplied group has operations no rebuild throws, and a run
    has the moves of the sender that are left: a timeout that is retried
    (without or with drift), an accepted attempt (without or with a
    rebuild), and the failures.  From the index of the loop on, the
    transactions of [signedTXs] then carry the anchor of the baseline, and
    an attempt submits the transaction that stands at its index. *)

Section PlainRuns.

Variable this : SmartInstructionSender.
Variable net : Network.
Variables H A F : nat -> Run -> Prop.

Hypothesis Hgroups : all_have_operations this.

Let cfg := configuration this.

Lemma never_rebuildThrows (index : nat) : rebuildThrows this index = false.
Proof.
  unfold rebuildThrows. apply negb_false_iff, forallb_forall.
  intros g Hg. apply has_operations_spec, Hgroups.
  revert Hg. generalize (theInstructionSets this). clear.
  intros l. revert index. induction l as [|x l IH]; intros [|n] Hg;
    cbn in Hg; auto. right. eauto.
Qed.

Lemma rebuiltTXs_anchored (index j : nat) (bh : string)
    (txs : list Transaction) (t : Transaction) :
  (index <= length txs)%nat -> (index <= j)%nat ->
  nth_error (rebuiltTXs this net index bh txs) j = Some t ->
  recentBlockhash t = bh.
Proof.
  intros Hi Hj Hn. rewrite rebuiltTXs_from in Hn by assumption.
  destruct (nth_error (theInstructionSets this) j); [|discriminate].
  injection Hn as <-. apply rebuiltEntry_recentBlockhash.
Qed.

Lemma anchored_from_weaken (i j : nat) (st : Run) :
  (i <= j)%nat -> anchored_from i st -> anchored_from j st.
Proof. intros Hij Ha n t Hn. apply Ha. lia. Qed.

Hypothesis P_first :
  forall pk sets,
    wallet_publicKey this = Some pk ->
    instructionSets this = Some sets ->
    sets <> [] ->
    H 0 (initialRun this net sets).

Hypothesis P_enter :
  forall i st,
    HeadInv this net i st -> PlainHead i st ->
    (i < length (signedTXs st))%nat ->
    H i st -> A i (enterItem i st).

Hypothesis P_check :
  forall i k num st se,
    AttemptInv this net i (S k) num st -> PlainAttempt this i st -> A i st ->
    err (sendAt net (nSend (world st)) (tx st)) = Some se ->
    String.eqb (err_type se) "timeout" = true ->
    retryNumber st + 1 < maxSigningAttempts cfg ->
    slotAt net (nSlot (world st)) < slot st + 150 ->
    A i (afterRetryCheck this net
           (afterSend i (sendAt net (nSend (world st)) (tx st)) st)).

Hypothesis P_reanchor :
  forall i k num st se,
    AttemptInv this net i (S k) num st -> PlainAttempt this i st -> A i st ->
    err (sendAt net (nSend (world st)) (tx st)) = Some se ->
    String.eqb (err_type se) "timeout" = true ->
    retryNumber st + 1 < maxSigningAttempts cfg ->
    slot st + 150 <= slotAt net (nSlot (world st)) ->
    A i (afterRetryReanchored this net i num
           (afterSend i (sendAt net (nSend (world st)) (tx st)) st)).

Hypothesis P_accept :
  forall i k num st,
    AttemptInv this net i k num st -> PlainAttempt this i st -> A i st ->
    err (sendAt net (nSend (world st)) (tx st)) = None ->
    (result_slot (sendAt net (nSend (world st)) (tx st)) < slot st + 150
     \/ (length (signedTXs st) <= S i)%nat) ->
    H (S i) (afterAccept this i (sendAt net (nSend (world st)) (tx st)) st).

Hypothesis P_accept_reanchor :
  forall i k num st,
    AttemptInv this net i k num st -> PlainAttempt this i st -> A i st ->
    err (sendAt net (nSend (world st)) (tx st)) = None ->
    slot st + 150 <= result_slot (sendAt net (nSend (world st)) (tx st)) ->
    (S i < length (signedTXs st))%nat ->
    H (S i) (afterAcceptReanchored this net i
               (sendAt net (nSend (world st)) (tx st)) st).

Hypothesis P_failure :
  forall i k num st se e,
    AttemptInv this net i k num st -> PlainAttempt this i st -> A i st ->
    err (sendAt net (nSend (world st)) (tx st)) = Some se ->
    ((e = JsError "MAX_RESIGN_ATTEMPTS_REACHED" /\
      String.eqb (err_type se) "timeout" = true /\
      maxSigningAttempts cfg <= retryNumber st + 1)
     \/ (e = TxError se /\ String.eqb (err_type se) "timeout" = false)
     \/ (e = TxError se /\ String.eqb (err_type se) "timeout" = true /\
         err_bail se = true /\
         retryNumber st + 1 < maxSigningAttempts cfg)) ->
    F i (reportFailure this e i
           (afterSend i (sendAt net (nSend (world st)) (tx st)) st)).

Hypothesis P_continue :
  forall i st, abortOnFailure cfg = false -> F i st -> H (S i) st.

Let H' (i : nat) (st : Run) : Prop := H i st /\ PlainHead i st.
Let A' (i : nat) (st : Run) : Prop := A i st /\ PlainAttempt this i st.
Let F' (i : nat) (e : Thrown) (st : Run) : Prop :=
  F i (reportFailure this e i st) /\
  PlainHead (S i) (reportFailure this e i st).

Lemma plain_first :
  forall pk sets,
    wallet_publicKey this = Some pk ->
    instructionSets this = Some sets ->
    sets <> [] ->
    H' 0 (initialRun this net sets).
Proof.
  intros pk sets Hw Hs Hne. split; [eapply P_first; eassumption|].
  intros j t _ Hn. cbn in Hn |- *.
  apply nth_error_In, in_map_iff in Hn. destruct Hn as (g & <- & _).
  reflexivity.
Qed.

Lemma plain_enter :
  forall i st,
    HeadInv this net i st -> (i < length (signedTXs st))%nat ->
    H' i st -> A' i (enterItem i st).
Proof.
  intros i st HI Hi (HH & HP). split; [apply P_enter; assumption|].
  split; [exact HP|]. split; [reflexivity|left; reflexivity].
Qed.

Lemma plain_check :
  forall i k num st se,
    AttemptInv this net i (S k) num st -> A' i st ->
    err (sendAt net (nSend (world st)) (tx st)) = Some se ->
    String.eqb (err_type se) "timeout" = true ->
    retryNumber st + 1 < maxSigningAttempts cfg ->
    slotAt net (nSlot (world st)) < slot st + 150 ->
    A' i (afterRetryCheck this net
            (afterSend i (sendAt net (nSend (world st)) (tx st)) st)).
Proof.
  intros i k num st se Hinv (HA & HP) He Ht Hlt Hd.
  split; [eapply P_check; eassumption|].
  destruct HP as (Hanch & Htx & _).
  split; [exact Hanch|]. split; [exact Htx|]. right. cbn. fold cfg. lia.
Qed.

Lemma plain_reanchor :
  forall i k num st se,
    AttemptInv this net i (S k) num st -> A' i st ->
    err (sendAt net (nSend (world st)) (tx st)) = Some se ->
    String.eqb (err_type se) "timeout" = true ->
    retryNumber st + 1 < maxSigningAttempts cfg ->
    slot st + 150 <= slotAt net (nSlot (world st)) ->
    A' i (afterRetryReanchored this net i num
            (afterSend i (sendAt net (nSend (world st)) (tx st)) st)).
Proof.
  intros i k num st se Hinv (HA & HP) He Ht Hlt Hd.
  split; [eapply P_reanchor; eassumption|].
  assert (Hi : (i < length (signedTXs st))%nat) by apply Hinv.
  split; [|split; [reflexivity|right; cbn; fold cfg; lia]].
  intros j t Hj Hn. cbn in Hn |- *.
  eapply rebuiltTXs_anchored; [|exact Hj|exact Hn]. lia.
Qed.

Lemma plain_accept :
  forall i k num st,
    AttemptInv this net i k num st -> A' i st ->
    err (sendAt net (nSend (world st)) (tx st)) = None ->
    (result_slot (sendAt net (nSend (world st)) (tx st)) < slot st + 150
     \/ (length (signedTXs st) <= S i)%nat) ->
    H' (S i) (afterAccept this i (sendAt net (nSend (world st)) (tx st)) st).
Proof.
  intros i k num st Hinv (HA & HP) He Hd.
  split; [eapply P_accept; eassumption|].
  destruct HP as (Hanch & _).
  intros j t Hj Hn. cbn in Hn |- *. apply (Hanch j); [lia|exact Hn].
Qed.

Lemma plain_accept_reanchor :
  forall i k num st,
    AttemptInv this net i k num st -> A' i st ->
    err (sendAt net (nSend (world st)) (tx st)) = None ->
    slot st + 150 <= result_slot (sendAt net (nSend (world st)) (tx st)) ->
    (S i < length (signedTXs st))%nat ->
    H' (S i) (afterAcceptReanchored this net i
                (sendAt net (nSend (world st)) (tx st)) st).
Proof.
  intros i k num st Hinv (HA & HP) He Hd Hnext.
  split; [eapply P_accept_reanchor; eassumption|].
  intros j t Hj Hn. cbn in Hn |- *.
  eapply rebuiltTXs_anchored; [|exact Hj|exact Hn]. lia.
Qed.

Lemma plain_failure :
  forall i k num st se e,
    AttemptInv this net i k num st -> A' i st ->
    err (sendAt net (nSend (world st)) (tx st)) = Some se ->
    ((e = JsError "MAX_RESIGN_ATTEMPTS_REACHED" /\
      String.eqb (err_type se) "timeout" = true /\
      maxSigningAttempts cfg <= retryNumber st + 1)
     \/ (e = TxError se /\ String.eqb (err_type se) "timeout" = false)
     \/ (e = TxError se /\ String.eqb (err_type se) "timeout" = true /\
         err_bail se = true /\
         retryNumber st + 1 < maxSigningAttempts cfg)) ->
    F' i e (afterSend i (sendAt net (nSend (world st)) (tx st)) st).
Proof.
  intros i k num st se e Hinv (HA & HP) He Hkind.
  split; [eapply P_failure; eassumption|].
  destruct HP as (Hanch & _).
  intros j t Hj Hn. cbn in Hn |- *. apply (Hanch j); [lia|exact Hn].
Qed.

(** The reachable heads of the loop and starts of attempts. *)
Lemma LoopHead_plain (i : nat) (st : Run) :
  LoopHead this net i st -> H i st /\ PlainHead i st.
Proof.
  intros Hh.
  apply (@LoopHead_run this net H' A' F'); try exact Hh;
    first [ exact plain_first | exact plain_enter
          | intros; eapply plain_check; eassumption
          | intros; eapply plain_reanchor; eassumption
          | intros; eapply plain_accept; eassumption
          | intros; eapply plain_accept_reanchor; eassumption
          | intros; eapply plain_failure; eassumption
          | intros; rewrite never_rebuildThrows in *; discriminate
          | idtac ].
  intros j e s Hab (HF & HP). split; [apply P_continue; assumption|exact HP].
Qed.

Lemma AttemptStart_plain (i k : nat) (num : Z) (st : Run) :
  AttemptStart this net i k num st -> A i st /\ PlainAttempt this i st.
Proof.
  intros Hat.
  apply (@AttemptStart_run this net H' A' F') in Hat;
    first [ exact (proj1 Hat)
          | exact plain_first | exact plain_enter
          | intros; eapply plain_check; eassumption
          | intros; eapply plain_reanchor; eassumption
          | intros; eapply plain_accept; eassumption
          | intros; eapply plain_accept_reanchor; eassumption
          | intros; eapply plain_failure; eassumption
          | intros; rewrite never_rebuildThrows in *; discriminate
          | idtac ].
  intros j e s Hab (HF & HP). split; [apply P_continue; assumption|exact HP].
Qed.


End PlainRuns.

(** ** How often an index is submitted *)



Section SubmissionBound.

Variable this : SmartInstructionSender.
Variable net : Network.

(** A bound [B] on the submissions of one index: at least 1, at least
    [maxSigningAttempts], and one more than the retries when an accepted
    attempt can be run again. *)
Variable B : nat.
Hypothesis B_one : (1 <= B)%nat.
Hypothesis B_bound : maxSigningAttempts (configuration this) <= Z.of_nat B.
Hypothesis B_rerun :
  forall i, rebuildThrows this (S i) = true ->
            (Z.to_nat (maxSigningAttempts (configuration this)) + 1 <= B)%nat.





End SubmissionBound.



(** ** One outcome per index, in order *)



(** ** Anchors, signatures and the reSign observer *)

(** X7.  In every run that returns, the wallet was asked to sign at least
    once and at most once per anchor fetched: once for the first build, and
    once for every re-anchoring whose rebuild did not throw.  The reSign
    observer, when registered, was called once per re-anchoring, that is
    one time less than anchors were fetched.  When every supplied group has
    operations, the wallet was asked exactly once per anchor. *)
Theorem X7_one_signature_request_per_anchor :
  forall (this : SmartInstructionSender) (net : Network) (st : Run),
    send this net = Returns st ->
    let anchors := count is_get_blockhash (trace (world st)) in
    let requests := count is_sign_all (trace (world st)) in
    (1 <= requests)%nat /\
    (requests <= anchors)%nat /\
    anchors = nBlockhash (world st) /\
    count is_resign (trace (world st))
    = (if onReSignCallback this then (anchors - 1)%nat else 0%nat) /\
    (all_have_operations this -> requests = anchors).
Proof.
  intros this net st Hsend.
  pose (P := fun (_ : nat) (s : Run) =>
          (1 <= count is_sign_all (trace (world s)))%nat /\
          (count is_sign_all (trace (world s))
           <= count is_get_blockhash (trace (world s)))%nat /\
          count is_get_blockhash (trace (world s)) = nBlockhash (world s) /\
          count is_resign (trace (world s))
          = (if onReSignCallback this
             then (count is_get_blockhash (trace (world s)) - 1)%nat
             else 0%nat) /\
          (all_have_operations this ->
           count is_sign_all (trace (world s))
           = count is_get_blockhash (trace (world s)))).
  apply (@send_run this net P P
           (fun i e s => P i (reportFailure this e i s))) in Hsend;
    unfold P.
  - destruct Hsend as [(i & HP & _)|(_ & i & e & st1 & -> & HP & _)];
      exact HP.
  - intros pk sets _ _ _. rewrite initialRun_trace. unfold firstEvents.
    read_trace. cbn. destruct (onReSignCallback this); repeat split; lia.
  - intros i s _ _ HP. exact HP.
  - intros i k num s se _ (H1 & H2 & H3 & H4 & H5) _ _ _ _ _ _. cbn.
    read_trace. destruct (onReSignCallback this);
      repeat split; try lia; intros Hg; specialize (H5 Hg); lia.
  - intros i k num s se _ (H1 & H2 & H3 & H4 & H5) _ _ _ _ _ _ _. cbn.
    read_trace. destruct (onReSignCallback this); read_trace;
      repeat split; try lia; intros Hg; specialize (H5 Hg); lia.
  - intros i k num s se _ (H1 & H2 & H3 & H4 & H5) _ _ _ _ _ _ Hth. cbn.
    read_trace. destruct (onReSignCallback this); read_trace;
      repeat split; try lia; intros Hg;
      rewrite never_rebuildThrows in Hth by exact Hg; discriminate.
  - intros i k num s _ (H1 & H2 & H3 & H4 & H5) _ _ _ Hth. cbn.
    read_trace. destruct (onProgressCallback this), (onReSignCallback this);
      read_trace; repeat split; try lia; intros Hg;
      rewrite never_rebuildThrows in Hth by exact Hg; discriminate.
  - intros i k num s _ (H1 & H2 & H3 & H4 & H5) _ _. cbn.
    read_trace. destruct (onProgressCallback this), (onReSignCallback this);
      read_trace; repeat split; try lia; intros Hg; specialize (H5 Hg); lia.
  - intros i k num s _ (H1 & H2 & H3 & H4 & H5) _ _ _ _. cbn.
    read_trace. destruct (onProgressCallback this), (onReSignCallback this);
      read_trace; repeat split; try lia; intros Hg; specialize (H5 Hg); lia.
  - intros i k num s se e _ (H1 & H2 & H3 & H4 & H5) _ _.
    unfold reportFailure, failureCb, emit.
    destruct (onFailureCallback this), (onReSignCallback this); cbn;
      read_trace; repeat split; try lia; intros Hg; specialize (H5 Hg); lia.
  - intros i num s e _ (H1 & H2 & H3 & H4 & H5) _ _ _ Hth _.
    unfold reportFailure, failureCb, emit.
    destruct (onFailureCallback this); cbn; read_trace;
      destruct (onProgressCallback this), (onReSignCallback this);
      read_trace; repeat split; try lia; intros Hg;
      rewrite never_rebuildThrows in Hth by exact Hg; discriminate.
  - intros i e s _ HP. exact HP.
Qed.

(** On the batch with a group without operations two anchors are fetched
    and the wallet is asked once; on the batch of three groups with
    operations it is asked twice. *)
Lemma X7_witness :
  (exists st,
      send gapSender driftNetwork = Returns st /\
      count is_get_blockhash (trace (world st)) = 2%nat /\
      count is_sign_all (trace (world st)) = 1%nat /\
      count is_resign (trace (world st)) = 1%nat)
  /\
  (exists st,
      send driftSender driftNetwork = Returns st /\
      count is_sign_all (trace (world st)) = 2%nat /\
      count is_resign (trace (world st)) = 1%nat).
Proof.
  split; eexists.
  - match goal with
    | |- send ?a ?b = Returns ?s /\ _ =>
        assert (Hsend : send a b = Returns s) by (vm_compute; reflexivity);
        destruct (@X7_one_signature_request_per_anchor a b s Hsend)
          as (_ & _ & Hn & Hre & _)
    end.
    split; [exact Hsend|]. split; [rewrite Hn; reflexivity|].
    split; [vm_compute; reflexivity|]. rewrite Hre, Hn. reflexivity.
  - match goal with
    | |- send ?a ?b = Returns ?s /\ _ =>
        assert (Hsend : send a b = Returns s) by (vm_compute; reflexivity);
        destruct (@X7_one_signature_request_per_anchor a b s Hsend)
          as (_ & _ & Hn & Hre & Hsign)
    end.
    split; [exact Hsend|]. split.
    + rewrite Hsign, Hn; [reflexivity|].
      intros g [<-|[<-|[<-|[]]]]; discriminate.
    + rewrite Hre, Hn. reflexivity.
Defined.

(** ** Aborting runs *)



(** ** Accounting for the submissions *)



(** ** What the failure observer is told *)








(** ** Every submission carries the last anchor fetched *)



Section Anchored.

Variable this : SmartInstructionSender.
Variable net : Network.

Hypothesis Hgroups : all_have_operations this.





End Anchored.



(** ** What is submitted *)

Lemma filter_all {A : Type} (p : A -> bool) (l : list A) :
  (forall x, In x l -> p x = true) -> filter p l = l.
Proof.
  induction l as [|x l IH]; intros H; [reflexivity|].
  cbn. rewrite (H x) by (now left). f_equal. apply IH.
  intros y Hy. apply H. now right.
Qed.

Section Content.

Variable this : SmartInstructionSender.
Variable net : Network.

Hypothesis Hgroups : all_have_operations this.


(** A rebuild of an aligned array is aligned: before the start index the
    transactions stay, from it on stand the builds of the groups at the
    same indices. *)
Lemma aligned_rebuilt (index : nat) (bh : string) (txs : list Transaction) :
  (index <= length txs)%nat ->
  aligned this net txs -> aligned this net (rebuiltTXs this net index bh txs).
Proof.
  intros Hi Hal j t Hn.
  destruct (Nat.lt_ge_cases j index) as [Hj|Hj].
  - rewrite rebuiltTXs_before in Hn by assumption. apply (Hal j t Hn).
  - rewrite rebuiltTXs_from in Hn by assumption.
    destruct (nth_error (theInstructionSets this) j) as [g|] eqn:Hg;
      [|discriminate].
    cbn in Hn. injection Hn as <-. exists g. split; [reflexivity|].
    exists bh. unfold rebuiltEntry.
    destruct (walletSignsInPlace net); auto.
Qed.

(** When every group has operations the first build is aligned. *)
Lemma aligned_initial (sets0 : list InstructionSet) :
  instructionSets this = Some sets0 ->
  aligned this net (signedTXs (initialRun this net sets0)).
Proof.
  intros Hs j t Hn. cbn [signedTXs initialRun] in Hn.
  assert (Hsets : theInstructionSets this = sets0)
    by (unfold theInstructionSets; rewrite Hs; reflexivity).
  rewrite filter_all in Hn.
  - rewrite nth_error_map in Hn. rewrite Hsets.
    destruct (nth_error sets0 j) as [g|]; [|discriminate].
    cbn in Hn. injection Hn as <-.
    exists g. split; [reflexivity|]. eexists. left. reflexivity.
  - intros g Hg. apply Nat.ltb_lt.
    pose proof (Hgroups g) as Hne. rewrite Hsets in Hne. specialize (Hne Hg).
    destruct (instructions g); [contradiction|cbn; lia].
Qed.



End Content.



(** ** The length of the array *)

(** X15.  In every run that returns, [signedTXs] has at least one entry per
    supplied group that has operations and at most one per supplied group.
    It has one entry per supplied group that has operations as long as the
    run has fetched the first anchor only, and one entry per supplied
    group, those without operations included, once the wallet has been
    asked a second time, that is once a rebuild has got through: the
    rebuild walks the supplied list, not the filtered one. *)
Theorem X15_array_length_after_reanchoring :
  forall (this : SmartInstructionSender) (net : Network) (st : Run),
    send this net = Returns st ->
    let built :=
      length (filter (fun g => (0 <? length (instructions g))%nat)
                     (theInstructionSets this)) in
    (built <= length (signedTXs st) <= length (theInstructionSets this))%nat /\
    (count is_get_blockhash (trace (world st)) = 1%nat ->
     length (signedTXs st) = built) /\
    ((2 <= count is_sign_all (trace (world st)))%nat ->
     length (signedTXs st) = length (theInstructionSets this)).
Proof.
  intros this net st Hsend built.
  pose (P := fun (_ : nat) (s : Run) =>
          (1 <= count is_get_blockhash (trace (world s)))%nat /\
          (built <= length (signedTXs s)
           <= length (theInstructionSets this))%nat /\
          (count is_get_blockhash (trace (world s)) = 1%nat ->
           length (signedTXs s) = built) /\
          ((2 <= count is_sign_all (trace (world s)))%nat ->
           length (signedTXs s) = length (theInstructionSets this))).
  assert (HP : P 0%nat st).
  { apply (@send_run this net P P
             (fun i e s => P i (reportFailure this e i s))) in Hsend;
      unfold P.
    - destruct Hsend as [(i & HP & _)|(_ & i & e & st1 & -> & HP & _)];
        exact HP.
    - intros pk sets _ Hs _. rewrite initialRun_trace. unfold firstEvents.
      read_trace.
      assert (Hsets : theInstructionSets this = sets)
        by (unfold theInstructionSets; rewrite Hs; reflexivity).
      assert (Hlen : length (signedTXs (initialRun this net sets)) = built).
      { cbn. rewrite length_map. unfold built. rewrite Hsets. reflexivity. }
      rewrite Hlen.
      assert (Hb : (built <= length (theInstructionSets this))%nat)
        by apply filter_length_le.
      repeat split; lia.
    - intros i s _ _ HP. exact HP.
    - intros i k num s se _ (H1 & H2 & H3 & H4) _ _ _ _ _ _. cbn.
      read_trace. repeat split; lia.
    - intros i k num s se (Hinv & _ & Hi & _) (H1 & H2 & H3 & H4) _ _ _ _ _ _ _.
      cbn. rewrite rebuiltTXs_length; [|lia|apply Hinv].
      read_trace. destruct (onReSignCallback this); read_trace;
        repeat split; lia.
    - intros i k num s se (Hinv & _ & Hi & _) (H1 & H2 & H3 & H4) _ _ _ _ _ _ _.
      cbn.
      pose proof (@partlyRebuiltTXs_bound this i
                    (blockhash (latestBlockhashAt net (nBlockhash (world s))))
                    (signedTXs s) ltac:(lia) ltac:(apply Hinv)) as Hb.
      read_trace. destruct (onReSignCallback this); read_trace;
        repeat split; try lia; intros Hc; assert (Hc' := H4 ltac:(lia)); lia.
    - intros i k num s (Hinv & _ & Hi & _) (H1 & H2 & H3 & H4) _ _ Hnext _.
      cbn.
      pose proof (@partlyRebuiltTXs_bound this (S i)
                    (blockhash (latestBlockhashAt net (nBlockhash (world s))))
                    (signedTXs s) ltac:(lia) ltac:(apply Hinv)) as Hb.
      read_trace. destruct (onProgressCallback this), (onReSignCallback this);
        read_trace; repeat split; try lia;
        intros Hc; assert (Hc' := H4 ltac:(lia)); lia.
    - intros i k num s _ (H1 & H2 & H3 & H4) _ _. cbn.
      read_trace. destruct (onProgressCallback this); read_trace;
        repeat split; try lia; intros Hc;
        first [apply H3; lia | apply H4; lia].
    - intros i k num s (Hinv & _ & Hi & _) (H1 & H2 & H3 & H4) _ _ Hnext _.
      cbn. rewrite rebuiltTXs_length; [|lia|apply Hinv].
      read_trace. destruct (onProgressCallback this), (onReSignCallback this);
        read_trace; repeat split; lia.
    - intros i k num s se e _ (H1 & H2 & H3 & H4) _ _.
      unfold reportFailure, failureCb, emit.
      destruct (onFailureCallback this); cbn; read_trace;
        repeat split; try lia; intros Hc;
        first [apply H3; lia | apply H4; lia].
    - intros i num s e (Hinv & _ & Hi & _) (H1 & H2 & H3 & H4) _ _ Hnext _ _.
      unfold reportFailure, failureCb, emit.
      pose proof (@partlyRebuiltTXs_bound this (S i)
                    (blockhash (latestBlockhashAt net (nBlockhash (world s))))
                    (signedTXs s) ltac:(lia) ltac:(apply Hinv)) as Hb.
      destruct (onFailureCallback this); cbn; read_trace;
        destruct (onProgressCallback this), (onReSignCallback this);
        read_trace; repeat split; try lia;
        intros Hc; assert (Hc' := H4 ltac:(lia)); lia.
    - intros i e s _ HP. exact HP. }
  destruct HP as (_ & H2 & H3 & H4). auto.
Qed.

(** With a group without operations at the front, the array of two
    transactions has three entries once the rebuild has got through; with
    the group in the middle the rebuild throws, and the array keeps its two
    entries although a second anchor was fetched. *)
Lemma X15_witness :
  (exists st,
      send headGapSender driftNetwork = Returns st /\
      count is_sign_all (trace (world st)) = 2%nat /\
      length (signedTXs st) = 3%nat)
  /\
  (exists st,
      send gapSender driftNetwork = Returns st /\
      count is_get_blockhash (trace (world st)) = 2%nat /\
      (2 <= length (signedTXs st) <= 3)%nat).
Proof.
  split; eexists.
  - match goal with
    | |- send ?a ?b = Returns ?s /\ _ =>
        assert (Hsend : send a b = Returns s) by (vm_compute; reflexivity);
        destruct (@X15_array_length_after_reanchoring a b s Hsend)
          as (_ & _ & Hlen)
    end.
    split; [exact Hsend|]. split; [vm_compute; reflexivity|].
    apply Hlen. vm_compute. lia.
  - match goal with
    | |- send ?a ?b = Returns ?s /\ _ =>
        assert (Hsend : send a b = Returns s) by (vm_compute; reflexivity);
        destruct (@X15_array_length_after_reanchoring a b s Hsend)
          as (Hb & _)
    end.
    split; [exact Hsend|]. split; [vm_compute; reflexivity|exact Hb].
Defined.

(** ** The claims about re-anchoring, on groups that all have operations *)

Section Links.

Variable this : SmartInstructionSender.
Variable net : Network.

(** A run reaches the head for an index with one state only. *)
Lemma LoopHead_deterministic (i : nat) (a : Run) :
  LoopHead this net i a -> forall b, LoopHead this net i b -> a = b.
Proof.
  induction 1 as [pk sets0 Hw Hs Hne|i st st' Hh IH Hi Hstep];
    intros b Hb; inversion Hb; subst.
  - congruence.
  - match goal with
    | H : LoopHead this net i ?s |- _ => apply IH in H; subst s
    end.
    congruence.
Qed.

(** An attempt belongs to an item: the head of the loop it came from, what
    is left of the retries, and the anchor queries made since. *)
Lemma AttemptStart_link (i k : nat) (num : Z) (st : Run) :
  AttemptStart this net i k num st ->
  exists st0 errors,
    LoopHead this net i st0 /\
    (i < length (signedTXs st0))%nat /\
    Forall retried_error errors /\
    sendWithRetry this net i st0
    = retry k num errors (attemptFn this net i) (onRetry this net i) st /\
    (nBlockhash (world st0) <= nBlockhash (world st))%nat.
Proof.
  induction 1 as [st Hh Hi|k num st e st1 st2 Hat IH Ha Hbail Hon].
  - exists st, []. repeat split; auto.
  - destruct IH as (st0 & errors & Hh & Hi & Herr & Heq & Hn).
    exists st0, (errors ++ [e]). split; [exact Hh|]. split; [exact Hi|].
    pose proof (AttemptStart_AttemptInv Hat) as Hinv.
    assert (Hlen : (length (signedTXs st)
                    <= length (theInstructionSets this))%nat) by apply Hinv.
    assert (Hii : (i < length (signedTXs st))%nat) by apply Hinv.
    pose proof Ha as Ha'. apply attempt_threw in Ha'; [|exact Hlen].
    split; [|split].
    + apply Forall_app. split; [exact Herr|]. constructor; [|constructor].
      destruct Ha' as [(se & He & -> & Ht & _)|(_ & _ & _ & _ & -> & _)];
        [right; eauto|left; reflexivity].
    + rewrite Heq, retry_unfold, Ha, Hbail, Hon. reflexivity.
    + destruct Ha' as [(se & He & -> & Ht & Hlt & ->)
                      |(He & Hd & Hnext & Hth & -> & ->)].
      * rewrite onRetry_timeout in Hon by exact Ht.
        cbn [nSlot world afterSend] in Hon.
        destruct (onRetryInTime net (nSlot (world st))); [|discriminate].
        injection Hon as <-.
        destruct (Z.lt_ge_cases (slotAt net (nSlot (world st))) (slot st + 150))
          as [Hdrift|Hdrift].
        -- rewrite onRetryBody_no_drift by (cbn; exact Hdrift). cbn. lia.
        -- destruct (rebuildThrows this i) eqn:Hth.
           ++ rewrite onRetryBody_drift_thrown
                by (cbn; first [assumption|lia]).
              cbn. lia.
           ++ rewrite onRetryBody_drift by (cbn; first [assumption|lia]).
              cbn. lia.
      * rewrite onRetry_other in Hon by reflexivity. injection Hon as <-.
        cbn. lia.
Qed.

Hypothesis Hgroups : all_have_operations this.

Let al (_ : nat) (s : Run) : Prop := aligned this net (signedTXs s).

(** On groups that all have operations, the array is aligned wherever a run
    gets. *)
Lemma AttemptStart_facts (i k : nat) (num : Z) (st : Run) :
  AttemptStart this net i k num st ->
  aligned this net (signedTXs st) /\ PlainAttempt this i st.
Proof.
  intros Hat.
  apply (@AttemptStart_plain this net al al al Hgroups) in Hat;
    unfold al in *; try exact Hat; clear Hat.
  - intros pk sets _ Hs _. apply aligned_initial; assumption.
  - intros j s _ _ _ HP. exact HP.
  - intros j k0 n s se _ _ Hal _ _ _ _. exact Hal.
  - intros j k0 n s se (_ & _ & Hj & _) _ Hal _ _ _ _. cbn.
    apply aligned_rebuilt; [lia|exact Hal].
  - intros j k0 n s _ _ Hal _ _. exact Hal.
  - intros j k0 n s _ _ Hal _ _ Hnext. cbn.
    apply aligned_rebuilt; [lia|exact Hal].
  - intros j k0 n s se e _ _ Hal _ _.
    unfold reportFailure, failureCb, emit.
    destruct (onFailureCallback this); exact Hal.
  - intros j s _ HP. exact HP.
Qed.

End Links.

(** A build of a group has its content. *)
Lemma build_of_content (this : SmartInstructionSender) (net : Network)
    (g : InstructionSet) (t : Transaction) :
  build_of this net g t ->
  feePayer t = wallet_publicKey this /\
  tx_instructions t = instructions g /\
  firstn (length (signers g)) (signatures t) = signers g.
Proof.
  intros (bh & [->|(_ & ->)]); cbn; repeat split.
  - rewrite firstn_app, Nat.sub_diag, firstn_all. cbn. apply app_nil_r.
  - apply firstn_all.
Qed.

(** X18.  The first claim of the specification on a batch in which every
    supplied group has operations.  In any run, in any attempt for index
    [i]: when the submission is accepted with a slot at or past the
    baseline plus 150 and an index [i+1] exists, the attempt itself, before
    it returns, asks for a fresh slot and anchor, makes them the baseline,
    and rebuilds every index after [i] and hands them to the wallet;
    nothing is submitted in between.  The loop then reaches its head for
    [i+1], the first attempt for [i+1] submits the rebuilt transaction,
    and the transaction of every attempt for [i+1] carries the answer of
    an anchor query made at or after this one: never the old anchor. *)
Theorem X18_reanchor_before_next_index :
  forall (this : SmartInstructionSender) (net : Network)
         (i k : nat) (num : Z) (st : Run),
    all_have_operations this ->
    AttemptStart this net i k num st ->
    let r := sendAt net (nSend (world st)) (tx st) in
    let c := commitment (configuration this) in
    let newSlot := slotAt net (nSlot (world st)) in
    let newBlock := latestBlockhashAt net (nBlockhash (world st)) in
    err r = None ->
    slot st + 150 <= result_slot r ->
    (S i < length (signedTXs st))%nat ->
    exists st',
      attemptFn this net i num st = (Resolved, st') /\
      slot st' = newSlot /\
      currentBlock st' = newBlock /\
      trace (world st')
      = trace (world st)
        ++ [EvSendSignedTransaction i (tx st) r]
        ++ (if onProgressCallback this then [EvProgress i] else [])
        ++ [EvGetSlot c newSlot; EvGetLatestBlockhash c newBlock]
        ++ (if onReSignCallback this then [EvReSign 0 (S i)] else [])
        ++ [EvSignAllTransactions
              (map (buildTransaction this (blockhash newBlock))
                   (skipn (S i) (theInstructionSets this)))] /\
      firstn (S i) (signedTXs st') = firstn (S i) (signedTXs st) /\
      skipn (S i) (signedTXs st')
      = map (rebuiltEntry this net (blockhash newBlock))
            (skipn (S i) (theInstructionSets this)) /\
      LoopHead this net (S i) st' /\
      (exists g,
          nth_error (theInstructionSets this) (S i) = Some g /\
          tx (enterItem (S i) st')
          = Some (rebuiltEntry this net (blockhash newBlock) g)) /\
      (forall k2 num2 st2,
          AttemptStart this net (S i) k2 num2 st2 ->
          exists t q,
            tx st2 = Some t /\
            recentBlockhash t = blockhash (latestBlockhashAt net q) /\
            (nBlockhash (world st) <= q)%nat).
Proof.
  intros this net i k num st Hgroups Hat r c newSlot newBlock He Hd Hi.
  pose proof (AttemptStart_AttemptInv Hat) as Hinv.
  assert (Hlen : (length (signedTXs st) <= length (theInstructionSets this))%nat)
    by apply Hinv.
  pose proof (@attemptFn_accepted_reanchor this net i num st He Hd Hi Hlen
                (never_rebuildThrows Hgroups (S i))) as Ha.
  fold r in Ha.
  exists (afterAcceptReanchored this net i r st).
  assert (Hhead : LoopHead this net (S i) (afterAcceptReanchored this net i r st)).
  { destruct (AttemptStart_link Hat) as (st0 & errors & Hh & Hi0 & _ & Heq & _).
    eapply LoopHead_next; [exact Hh|exact Hi0|].
    unfold sendItem. rewrite Heq, retry_unfold, Ha. reflexivity. }
  split; [exact Ha|].
  split; [reflexivity|]. split; [reflexivity|].
  split; [reflexivity|].
  split; [exact (@rebuiltTXs_firstn this net (S i) _ (signedTXs st) ltac:(lia))|].
  split; [exact (@rebuiltTXs_skipn this net (S i) _ (signedTXs st) ltac:(lia))|].
  split; [exact Hhead|].
  split.
  { destruct (nth_error (theInstructionSets this) (S i)) as [g|] eqn:Hg;
      [|apply nth_error_None in Hg; lia].
    exists g. split; [reflexivity|].
    cbn [tx enterItem set_retryNumber set_tx signedTXs afterAcceptReanchored].
    rewrite rebuiltTXs_from by lia. rewrite Hg. reflexivity. }
  intros k2 num2 st2 Hat2.
  destruct (AttemptStart_link Hat2) as (sth & errors & Hh2 & _ & _ & _ & Hn).
  rewrite <- (LoopHead_deterministic Hhead Hh2) in Hn. cbn in Hn.
  destruct (AttemptStart_AttemptInv Hat2)
    as ([_ _ _ Hasked Hlatest] & _ & Hi2 & _).
  destruct (AttemptStart_facts Hgroups Hat2) as (_ & Hanch & Htx & _).
  destruct (nth_error (signedTXs st2) (S i)) as [t|] eqn:Hnth;
    [|apply nth_error_None in Hnth; lia].
  exists t, (pred (nBlockhash (world st2))).
  split; [congruence|].
  split; [|lia].
  rewrite <- Hlatest. apply (Hanch (S i) t); [lia|exact Hnth].
Qed.

Lemma X18_witness :
  let st := enterItem 0 (initialRun driftSender driftNetwork [setA; setB; setC]) in
  exists st',
    attemptFn driftSender driftNetwork 0 1 st = (Resolved, st') /\
    map recentBlockhash (signedTXs st')
    = ["h0"%string; "h1"%string; "h1"%string] /\
    tx (enterItem 1 st') = Some (signedBuild driftSender "h1" setB).
Proof.
  cbv zeta.
  destruct (@X18_reanchor_before_next_index driftSender driftNetwork
              0%nat 3%nat 1
              (enterItem 0 (initialRun driftSender driftNetwork
                              [setA; setB; setC])))
    as (st' & Ha & _ & _ & _ & Hf & Hs & _ & (g & Hg & Htx) & _).
  - intros g [<-|[<-|[<-|[]]]]; discriminate.
  - apply (@first_attempt driftSender driftNetwork "W"%string
             [setA; setB; setC]);
      [reflexivity|reflexivity|discriminate|vm_compute; lia].
  - reflexivity.
  - vm_compute. discriminate.
  - vm_compute. lia.
  - exists st'. split; [exact Ha|]. split.
    + rewrite <- (firstn_skipn 1 (signedTXs st')), Hf, Hs. reflexivity.
    + rewrite Htx. injection Hg as <-. reflexivity.
Defined.

Lemma aligned_keeps_content (this : SmartInstructionSender) (net : Network)
    (txs txs' : list Transaction) (j : nat) (t t' : Transaction) :
  aligned this net txs -> aligned this net txs' ->
  nth_error txs j = Some t -> nth_error txs' j = Some t' ->
  exists g,
    nth_error (theInstructionSets this) j = Some g /\ keeps_content g t t'.
Proof.
  intros Hal Hal' Hn Hn'.
  destruct (Hal j t Hn) as (g & Hg & Hb).
  destruct (Hal' j t' Hn') as (g' & Hg' & Hb').
  assert (g' = g) by congruence. subst g'.
  apply build_of_content in Hb, Hb'.
  destruct Hb as (H1 & H2 & H3), Hb' as (H1' & H2' & H3').
  exists g. split; [exact Hg|]. unfold keeps_content.
  repeat split; congruence.
Qed.

(** X21.  The sixth claim of the specification on a batch in which every
    supplied group has operations.  Both rebuilds, the one after an
    accepted submission with drift and the one in [onRetry], keep at every
    index the fee payer, the operations in their order and the signatures
    of the signers of the group of the transaction that stood there: only
    the anchor and the signature of the wallet can differ. *)
Theorem X21_rebuild_keeps_content :
  forall (this : SmartInstructionSender) (net : Network)
         (i k : nat) (num : Z) (st : Run),
    all_have_operations this ->
    AttemptStart this net i k num st ->
    (forall res st',
        attemptFn this net i num st = (res, st') ->
        forall j t t',
          nth_error (signedTXs st) j = Some t ->
          nth_error (signedTXs st') j = Some t' ->
          exists g,
            nth_error (theInstructionSets this) j = Some g /\
            keeps_content g t t')
    /\
    (forall r j t t',
        nth_error (signedTXs st) j = Some t ->
        nth_error (signedTXs (onRetryBody this net i num (afterSend i r st))) j
        = Some t' ->
        exists g,
          nth_error (theInstructionSets this) j = Some g /\
          keeps_content g t t').
Proof.
  intros this net i k num st Hgroups Hat.
  pose proof (AttemptStart_AttemptInv Hat) as Hinv.
  destruct (AttemptStart_facts Hgroups Hat) as (Hal & _).
  assert (Hlen : (length (signedTXs st)
                  <= length (theInstructionSets this))%nat) by apply Hinv.
  assert (Hi : (i < length (signedTXs st))%nat) by apply Hinv.
  split.
  - intros res st' Ha j t t' Hn Hn'.
    assert (Hal' : aligned this net (signedTXs st')).
    { destruct (attemptFn_cases this net i num st Hlen)
        as [(se & _ & Hc)|[(_ & _ & Hc)|[(_ & _ & Hnext & _ & Hc)
                                        |(_ & _ & _ & Hth & _)]]];
        try (rewrite never_rebuildThrows in Hth by exact Hgroups;
             discriminate);
        rewrite Hc in Ha; inversion Ha; subst; cbn [signedTXs afterSend afterAccept];
        try exact Hal.
      unfold afterAcceptReanchored. cbn [signedTXs].
      apply aligned_rebuilt; [lia|exact Hal]. }
    exact (@aligned_keeps_content _ _ _ _ _ _ _ Hal Hal' Hn Hn').
  - intros r j t t' Hn Hn'.
    assert (Hal' : aligned this net
                     (signedTXs (onRetryBody this net i num (afterSend i r st)))).
    { destruct (Z.lt_ge_cases (slotAt net (nSlot (world st))) (slot st + 150))
        as [Hdrift|Hdrift].
      - rewrite onRetryBody_no_drift by (cbn; exact Hdrift). exact Hal.
      - rewrite onRetryBody_drift
          by (cbn; first [assumption|lia
                         |apply never_rebuildThrows; exact Hgroups]).
        unfold afterRetryReanchored, afterSend. cbn [signedTXs].
        apply aligned_rebuilt; [lia|exact Hal]. }
    exact (@aligned_keeps_content _ _ _ _ _ _ _ Hal Hal' Hn Hn').
Qed.

Lemma X21_witness :
  let st := enterItem 0 (initialRun driftSender driftNetwork [setA; setB; setC]) in
  let st' := snd (attemptFn driftSender driftNetwork 0 1 st) in
  nth_error (signedTXs st) 1 = Some (signedBuild driftSender "h0" setB) /\
  nth_error (signedTXs st') 1 = Some (signedBuild driftSender "h1" setB) /\
  keeps_content setB (signedBuild driftSender "h0" setB)
    (signedBuild driftSender "h1" setB).
Proof.
  cbv zeta.
  assert (H0 : nth_error
                 (signedTXs (enterItem 0 (initialRun driftSender driftNetwork
                                            [setA; setB; setC]))) 1
               = Some (signedBuild driftSender "h0" setB))
    by reflexivity.
  assert (H1 : nth_error
                 (signedTXs (snd (attemptFn driftSender driftNetwork 0 1
                                    (enterItem 0 (initialRun driftSender
                                                    driftNetwork
                                                    [setA; setB; setC]))))) 1
               = Some (signedBuild driftSender "h1" setB))
    by (vm_compute; reflexivity).
  split; [exact H0|]. split; [exact H1|].
  destruct (proj1 (@X21_rebuild_keeps_content driftSender driftNetwork
                     0%nat 3%nat 1
                     (enterItem 0 (initialRun driftSender driftNetwork
                                     [setA; setB; setC]))
                     ltac:(intros g [<-|[<-|[<-|[]]]]; discriminate)
                     (@first_attempt driftSender driftNetwork "W"%string
                        [setA; setB; setC] eq_refl eq_refl
                        ltac:(discriminate) ltac:(vm_compute; lia)))
              _ _ (surjective_pairing _) 1%nat _ _ H0 H1)
    as (g & Hg & Hk).
  injection Hg as <-. exact Hk.
Defined.

(** X19.  The second claim of the specification on a batch in which every
    supplied group has operations.  In any run, in any attempt for index
    [i]: when the submission times out, the number of this attempt is below
    [maxSigningAttempts] and the error carries no [bail] property, the
    attempt throws and [onRetry] is called with the number of this attempt;
    when it has settled in time, the next attempt starts from what it
    leaves.  [onRetry] first asks for the current slot.  Below the baseline
    plus 150, nothing else happens: [tx] and [signedTXs] stay.  At or past
    it, a fresh slot and anchor are fetched and made the baseline, the
    reSign observer is called with the attempt number and [i], the indices
    from [i] on are rebuilt and handed to the wallet, and [tx] becomes the
    new [signedTXs[i]].  Either way the next thing submitted is [tx] as
    [onRetry] left it. *)
Theorem X19_retry_after_timeout :
  forall (this : SmartInstructionSender) (net : Network)
         (i k : nat) (num : Z) (st : Run) (se : SendError),
    all_have_operations this ->
    AttemptStart this net i k num st ->
    let r := sendAt net (nSend (world st)) (tx st) in
    let c := commitment (configuration this) in
    let slotResult := slotAt net (nSlot (world st)) in
    let newSlot := slotAt net (S (nSlot (world st))) in
    let newBlock := latestBlockhashAt net (nBlockhash (world st)) in
    err r = Some se ->
    String.eqb (err_type se) "timeout" = true ->
    err_bail se = false ->
    retryNumber st + 1 < maxSigningAttempts (configuration this) ->
    onRetryInTime net (nSlot (world st)) = true ->
    exists k' st1,
      k = S k' /\ num = retryNumber st + 1 /\
      attemptFn this net i num st = (Threw (TxError se), afterSend i r st) /\
      onRetry this net i (TxError se) num (afterSend i r st) = Some st1 /\
      AttemptStart this net i k' (num + 1) st1 /\
      (forall errors,
          retry k num errors (attemptFn this net i) (onRetry this net i) st
          = retry k' (num + 1) (errors ++ [TxError se])
              (attemptFn this net i) (onRetry this net i) st1) /\
      (forall errors res st2,
          Forall retried_error errors ->
          retry k' (num + 1) errors (attemptFn this net i) (onRetry this net i) st1
          = (res, st2) ->
          res <> Overlapped ->
          exists evs,
            trace (world st2)
            = trace (world st1)
              ++ EvSendSignedTransaction i (tx st1)
                   (sendAt net (nSend (world st1)) (tx st1)) :: evs) /\
      (slotResult < slot st + 150 ->
         trace (world st1)
         = trace (world st)
           ++ [EvSendSignedTransaction i (tx st) r; EvGetSlot c slotResult] /\
         tx st1 = tx st /\ signedTXs st1 = signedTXs st /\
         slot st1 = slot st /\ currentBlock st1 = currentBlock st) /\
      (slot st + 150 <= slotResult ->
         trace (world st1)
         = trace (world st)
           ++ [EvSendSignedTransaction i (tx st) r; EvGetSlot c slotResult;
               EvGetSlot c newSlot; EvGetLatestBlockhash c newBlock]
           ++ (if onReSignCallback this then [EvReSign num i] else [])
           ++ [EvSignAllTransactions
                 (map (buildTransaction this (blockhash newBlock))
                      (skipn i (theInstructionSets this)))] /\
         slot st1 = newSlot /\ currentBlock st1 = newBlock /\
         firstn i (signedTXs st1) = firstn i (signedTXs st) /\
         skipn i (signedTXs st1)
         = map (rebuiltEntry this net (blockhash newBlock))
               (skipn i (theInstructionSets this)) /\
         tx st1 = nth_error (signedTXs st1) i /\
         exists g,
           nth_error (theInstructionSets this) i = Some g /\
           tx st1 = Some (rebuiltEntry this net (blockhash newBlock) g) /\
           (walletSignsInPlace net = true ->
            tx st1 = Some (signedBuild this (blockhash newBlock) g))).
Proof.
  intros this net i k num st se Hgroups Hat r c slotResult newSlot newBlock
    He Hty Hbail Hlt Hin.
  pose proof (AttemptStart_AttemptInv Hat) as Hinv.
  pose proof (@attemptFn_failed this net i num st se He) as Ha.
  cbv zeta in Ha. rewrite Hty in Ha. cbn [andb] in Ha.
  replace (maxSigningAttempts (configuration this) <=? retryNumber st + 1)
    with false in Ha by (symmetry; apply Z.leb_gt; lia).
  fold r in Ha.
  pose proof (timeout_retries_left Hinv Hlt) as Hk.
  destruct k as [|k']; [lia|].
  assert (Hon : onRetry this net i (TxError se) num (afterSend i r st)
                = Some (onRetryBody this net i num (afterSend i r st))).
  { rewrite onRetry_timeout by exact Hty. cbn [nSlot world afterSend].
    rewrite Hin. reflexivity. }
  exists k', (onRetryBody this net i num (afterSend i r st)).
  destruct Hinv as (Hrun & _ & Hi & Hr & _).
  assert (Hlen : (length (signedTXs st) <= length (theInstructionSets this))%nat)
    by apply Hrun.
  split; [reflexivity|]. split; [lia|].
  split; [exact Ha|]. split; [exact Hon|].
  assert (Hat1 : AttemptStart this net i k' (num + 1)
                   (onRetryBody this net i num (afterSend i r st)))
    by (eapply Attempt_again; eauto).
  split; [exact Hat1|].
  split.
  { intros errors. rewrite (retry_unfold (S k')), Ha. cbn [thrown_bail].
    rewrite Hbail, Hon. reflexivity. }
  split.
  { intros errors res st2 Herr Hnext Hno.
    destruct (@retry_events this net _ _ i k' (num + 1) errors _ st2 res
                (AttemptStart_AttemptInv Hat1) Herr
                (or_introl (conj eq_refl eq_refl)) Hnext Hno)
      as (evs & Htr & _).
    exists evs. exact Htr. }
  split; intros Hd.
  - rewrite onRetryBody_no_drift by (cbn; assumption).
    cbn. rewrite <- app_assoc. repeat split.
  - rewrite onRetryBody_drift
      by (cbn; first [assumption | lia
                     | apply never_rebuildThrows; exact Hgroups]).
    unfold afterRetryReanchored, afterSend.
    cbn [trace world slot currentBlock signedTXs tx nSlot nBlockhash].
    split; [rewrite <- !app_assoc; reflexivity|].
    split; [reflexivity|]. split; [reflexivity|].
    split; [apply rebuiltTXs_firstn; lia|].
    split; [apply rebuiltTXs_skipn; lia|].
    split; [reflexivity|].
    rewrite rebuiltTXs_from by lia.
    destruct (nth_error (theInstructionSets this) i) as [g|] eqn:Hg;
      [|apply nth_error_None in Hg; lia].
    exists g. split; [reflexivity|]. split; [reflexivity|].
    intros Hplace. cbn. unfold rebuiltEntry. rewrite Hplace. reflexivity.
Qed.

Lemma X19_witness :
  let st := enterItem 0 (initialRun (timeoutSender true) timeoutNetwork
                           [setA; setB]) in
  exists st1,
    onRetry (timeoutSender true) timeoutNetwork 0 (TxError timeoutError) 1
      (afterSend 0 timeoutResult st) = Some st1 /\
    slot st1 = 400 /\
    tx st1 = Some (signedBuild (timeoutSender true) "h1" setA).
Proof.
  cbv zeta.
  destruct (@X19_retry_after_timeout (timeoutSender true) timeoutNetwork
              0%nat 3%nat 1
              (enterItem 0 (initialRun (timeoutSender true) timeoutNetwork
                              [setA; setB]))
              timeoutError)
    as (k' & st1 & _ & _ & _ & Hon & _ & _ & _ & _ & Hdrift).
  - intros g [<-|[<-|[]]]; discriminate.
  - apply (@first_attempt (timeoutSender true) timeoutNetwork "W"%string
             [setA; setB]);
      [reflexivity|reflexivity|discriminate|vm_compute; lia].
  - reflexivity.
  - reflexivity.
  - reflexivity.
  - vm_compute. reflexivity.
  - reflexivity.
  - destruct Hdrift as (_ & Hslot & _ & _ & _ & _ & g & Hg & _ & Htx);
      [vm_compute; discriminate|].
    exists st1. split; [exact Hon|]. split; [exact Hslot|].
    rewrite Htx by reflexivity. injection Hg as <-. reflexivity.
Defined.
